(** * The double-pendulum task environment

    A shallow embedding of
    [source/isaaclab_tasks/isaaclab_tasks/direct/double_pendulum/double_pendulum_env.py]
    and the properties of its observation, reward, termination and reset
    functions.  The scripts that train and evaluate the task over a grid of
    reward weights follow the environment, with conventions of their own.

    Conventions of the embedding.
    - A tensor entry of dtype float32 is a real number: rounding, infinities
      and NaN are not modelled.  The int32 counter [_stable_count] is a list
      of [Z] with its wrap-around written out ([wrap32]).
    - A tensor of shape (n,) is a list, one of shape (n, m) a list of rows.
      Shape errors and index errors (the exceptions torch raises) are [None].
    - Python dictionaries keyed by the agent name are [gmap string _].
    - [self.joint_pos] and [self.joint_vel] are bound, in [__init__] and again
      at every [_get_dones], to the tensors [robot.data.joint_pos] and
      [robot.data.joint_vel]: the two names denote one buffer, which the model
      keeps once, in [ArticulationData].
    - The simulation framework (articulation writes, the base class reset, the
      random generator, the episode counters) is an interface, [Framework],
      over an abstract simulator state. *)

From Stdlib Require Import Reals Lra Lia ZArith Ascii.
From stdpp Require Import base option list gmap strings pretty sorting.

(** ** Tensor operations (torch) *)

Module Torch.
Local Open Scope R_scope.

(** [torch.remainder]: the result has the sign of the divisor. *)
Definition remainder (a b : R) : R := a - IZR (Int_part (a / b)) * b.

(** Comparison of two entries, as a boolean tensor entry. *)
Definition R_ltb (x y : R) : bool := if Rlt_dec x y then true else false.

(** [torch.clamp(x, lo, hi)]. *)
Definition clamp (x lo hi : R) : R := Rmin (Rmax x lo) hi.

(** Entrywise map over a tensor of shape (n, m). *)
Definition tmap2 {A B} (f : A → B) (t : list (list A)) : list (list B) :=
  map (map f) t.

(** Broadcasting of two shapes (n,) and (m,): equal sizes, or one of them 1. *)
Definition bcast2 {A B C} (f : A → B → C) (xs : list A) (ys : list B)
  : option (list C) :=
  if (length xs =? length ys)%nat then Some (zip_with f xs ys)
  else if (length xs =? 1)%nat then x ← head xs; Some (map (f x) ys)
  else if (length ys =? 1)%nat then y ← head ys; Some (map (λ x, f x y) xs)
  else None.

(** In-place [lhs += rhs]: the right side is broadcast to the shape of the
    left side, which does not change. *)
Definition iadd (lhs rhs : list R) : option (list R) :=
  if (length rhs =? length lhs)%nat then Some (zip_with Rplus lhs rhs)
  else if (length rhs =? 1)%nat then y ← head rhs; Some (map (λ x, x + y) lhs)
  else None.

(** [t - v] for [t] of shape (n, m) and [v] of shape (k,). *)
Definition sub_rows (t : list (list R)) (v : list R) : option (list (list R)) :=
  mapM (λ row, bcast2 Rminus row v) t.

(** [t[:, c]]. *)
Definition select_col (c : nat) (t : list (list R)) : option (list R) :=
  mapM (λ row : list R, row !! c) t.

(** [v.unsqueeze(dim=1)]. *)
Definition unsqueeze1 (v : list R) : list (list R) := map (λ x, [x]) v.

(** [torch.cat(ts, dim=-1)] for tensors of shape (n, _). *)
Fixpoint cat_last (ts : list (list (list R))) : option (list (list R)) :=
  match ts with
  | [] => None
  | [t] => Some t
  | t :: ts' =>
      r ← cat_last ts';
      if (length t =? length r)%nat then Some (zip_with app t r) else None
  end.

Definition sum_list (l : list R) : R := foldr Rplus 0 l.

(** [torch.sum(t, dim=-1)]. *)
Definition sum_last (t : list (list R)) : list R := map sum_list t.

(** [torch.norm(t, dim=-1)]: the Euclidean norm of every row. *)
Definition norm_last (t : list (list R)) : list R :=
  map (λ row, sqrt (sum_list (map (λ x, x * x) row))) t.

(** [torch.diag(v)]. *)
Definition diag (v : list R) : list (list R) :=
  imap (λ i x, imap (λ j _, if (i =? j)%nat then x else 0) v) v.

(** Size of a summation index shared by two operands of [einsum]. *)
Definition bdim (a b : nat) : option nat :=
  if (a =? b)%nat then Some a
  else if (a =? 1)%nat then Some b
  else if (b =? 1)%nat then Some a
  else None.

(** Entry [i] of an operand along an index of broadcast size. *)
Definition bnth {A} (d : A) (l : list A) (i : nat) : A :=
  if (length l =? 1)%nat then nth 0 l d else nth i l d.

(** The double sum over [i < di] and [j < dj] of [x_i * Q_ij * y_j]. *)
Definition quad_sum (di dj : nat) (x : list R) (Q : list (list R)) (y : list R) : R :=
  sum_list (map (λ i,
     sum_list (map (λ j, bnth 0 x i * bnth 0 (bnth [] Q i) j * bnth 0 y j)
                   (seq 0 dj)))
   (seq 0 di)).

(** One batch row of [einsum("bi, ij, bj->b", x, Q, y)]. *)
Definition quad_form (x : list R) (Q : list (list R)) (y : list R) : option R :=
  di ← bdim (length x) (length Q);
  dj ← bdim (length (hd [] Q)) (length y);
  Some (quad_sum di dj x Q y).

(** [torch.einsum("bi, ij, bj->b", x, Q, y)]. *)
Definition einsum_bi_ij_bj (x Q y : list (list R)) : option (list R) :=
  rows ← bcast2 (C := option R) (λ xb yb, quad_form xb Q yb) x y;
  mapM (λ r : option R, r) rows.

(** The row a Python index denotes in a tensor of [n] rows: negative
    indices count from the end, anything outside [-n, n) is an IndexError. *)
Definition resolve_index (n : nat) (i : Z) : option nat :=
  if decide (0 ≤ i < Z.of_nat n)%Z then Some (Z.to_nat i)
  else if decide (- Z.of_nat n ≤ i < 0)%Z then Some (Z.to_nat (Z.of_nat n + i))
  else None.

(** [t[ids]] with a list of row indices: a new tensor. *)
Definition index_rows {A} (t : list A) (ids : list Z) : option (list A) :=
  mapM (λ i, k ← resolve_index (length t) i; t !! k) ids.

(** A tensor broadcast along its first dimension to size [n]. *)
Definition expand {A} (n : nat) (t : list A) : option (list A) :=
  if (length t =? n)%nat then Some t
  else if (length t =? 1)%nat then x ← head t; Some (replicate n x)
  else None.

(** The writes of [t[ids] = vals], row after row. *)
Fixpoint index_put_loop (t : list (list R)) (ids : list Z) (vals : list (list R))
  : option (list (list R)) :=
  match ids, vals with
  | [], _ => Some t
  | i :: ids', v :: vals' =>
      k ← resolve_index (length t) i;
      old ← t !! k;
      v' ← expand (length old) v;
      index_put_loop (<[k := v']> t) ids' vals'
  | _ :: _, [] => None
  end.

(** [t[ids] = vals], in place: [vals] is broadcast to one row per index. *)
Definition index_put_rows (t : list (list R)) (ids : list Z) (vals : list (list R))
  : option (list (list R)) :=
  vals' ← expand (length ids) vals;
  index_put_loop t ids vals'.

(** [t[ids] = x] for a scalar [x], in place. *)
Fixpoint index_fill {A} (t : list A) (ids : list Z) (x : A) : option (list A) :=
  match ids with
  | [] => Some t
  | i :: ids' =>
      k ← resolve_index (length t) i;
      index_fill (<[k := x]> t) ids' x
  end.

(** [t[ids] = x] as far as it gets: the write goes index by index and stops
    at the first index out of range, where torch raises; the rows written
    before it stay written. *)
Fixpoint index_fill_upto {A} (t : list A) (ids : list Z) (x : A) : list A :=
  match ids with
  | [] => t
  | i :: ids' =>
      match resolve_index (length t) i with
      | Some k => index_fill_upto (<[k := x]> t) ids' x
      | None => t
      end
  end.

(** One row of [t[:, cols] += s]: the selected entries are read, the
    samples added, and the sums written back at the same columns. *)
Definition iadd_cols_row (row : list R) (cols : list nat) (s : list R)
  : option (list R) :=
  tmp ← mapM (λ c, row !! c) cols;
  tmp' ← iadd tmp s;
  Some (foldl (λ r cv, <[cv.1 := cv.2]> r) row (zip cols tmp')).

(** [t[:, cols] += s] for [s] of the shape of [t[:, cols]]. *)
Definition iadd_cols (t : list (list R)) (cols : list nat) (s : list (list R))
  : option (list (list R)) :=
  s' ← expand (length t) s;
  mapM (λ rs, iadd_cols_row rs.1 cols rs.2) (zip t s').

(** [t[:, :k] += s] for [s] of shape (n, k). *)
Definition iadd_prefix (k : nat) (t s : list (list R)) : option (list (list R)) :=
  s' ← expand (length t) s;
  mapM (λ rs, p ← iadd (take k rs.1) rs.2; Some (p ++ drop k rs.1)) (zip t s').

(** Two's-complement wrap-around of an int32 entry. *)
Definition wrap32 (z : Z) : Z := ((z + 2 ^ 31) mod 2 ^ 32 - 2 ^ 31)%Z.
End Torch.
Export Torch.

(** ** Configuration *)

(** [DoublePendulumEnvCfg]: the fields the task functions read. *)
Record DoublePendulumEnvCfg := {
  shoulder_dof_name : string;
  elbow_dof_name : string;
  robot_type : string;
  action_spaces : gmap string nat;
  initial_shoulder_angle_range : list R;
  initial_elbow_angle_range : list R;
  torque_scale : R;
  goal_state : list R;
  reward_state_weights : list R;
  reward_action_weight : R;
  reward_scale : R;
  time_penalty : R;
  bonus_reward : R;
  max_velocity : R;
  success_threshold : R;
  sustain_steps : Z;
}.

(** The [if robot_type == ...] chain of the class body.  It runs once, when
    the class is created, on the class-level value of [robot_type]; when no
    branch applies the class body binds no [action_spaces]. *)
Definition class_action_spaces (robot_type : string) : gmap string nat :=
  if decide (robot_type = "acrobot") then {["pendulum" := 1%nat]}
  else if decide (robot_type = "pendubot") then {["pendulum" := 1%nat]}
  else if decide (robot_type = "double_pendulum") then {["pendulum" := 2%nat]}
  else ∅.

(** The class-level defaults. *)
Definition default_cfg : DoublePendulumEnvCfg := {|
  shoulder_dof_name := "Joint1";
  elbow_dof_name := "Joint2";
  robot_type := "acrobot";
  action_spaces := class_action_spaces "acrobot";
  initial_shoulder_angle_range := [-1; 1]%R;
  initial_elbow_angle_range := [-1; 1]%R;
  torque_scale := 10%R;
  goal_state := [- PI; 0; 0; 0]%R;
  reward_state_weights := [1; 2; 0.1; 0.1]%R;
  reward_action_weight := 0.1%R;
  reward_scale := 1%R;
  time_penalty := 0.01%R;
  bonus_reward := 20%R;
  max_velocity := 5%R;
  success_threshold := 0.1%R;
  sustain_steps := 10%Z;
|}.


(** ** The simulation framework *)

(** What the environment calls in the framework, over the simulator state
    [Sim].  [None] is an exception raised inside the call. *)
Class Framework (Sim : Type) := {
  (** [self.episode_length_buf], an int64 tensor the base class maintains *)
  episode_length_buf : Sim → list Z;
  (** [self.max_episode_length] *)
  max_episode_length : Sim → Z;
  (** [robot.find_joints(name)]: the indices of the matching joints *)
  find_joints : Sim → string → list nat;
  (** [robot.set_joint_effort_target(target, joint_ids=...)] *)
  set_joint_effort_target : list (list R) → option (list nat) → Sim → option Sim;
  (** [super()._reset_idx(env_ids)]: the simulator state the call leaves,
      on its return or, for an index outside the environments, at the
      exception it raises ([call_super_reset_idx] below) *)
  super_reset_idx : list Z → Sim → Sim;
  (** [sample_uniform(lower, upper, (n, m), device)] *)
  sample_uniform : R → R → nat → nat → Sim → list (list R) * Sim;
  (** [robot.write_root_pose_to_sim(pose, env_ids)] *)
  write_root_pose_to_sim : list (list R) → list Z → Sim → Sim;
  (** [robot.write_root_velocity_to_sim(velocity, env_ids)] *)
  write_root_velocity_to_sim : list (list R) → list Z → Sim → Sim;
  (** [robot.write_joint_state_to_sim(position, velocity, None, env_ids)] *)
  write_joint_state_to_sim : list (list R) → list (list R) → list Z → Sim → Sim;
}.

(** [robot.data]: the buffers of the articulation the environment reads and
    writes.  [joint_pos] and [joint_vel] are also [self.joint_pos] and
    [self.joint_vel]. *)
Record ArticulationData := {
  joint_pos : list (list R);
  joint_vel : list (list R);
  default_joint_pos : list (list R);
  default_joint_vel : list (list R);
  default_root_state : list (list R);
}.

(** ** The environment *)

Section Environment.
Context {Sim : Type} `{!Framework Sim}.
Local Open Scope R_scope.

Record Env := {
  cfg : DoublePendulumEnvCfg;
  robot_data : ArticulationData;
  robot_ALL_INDICES : list Z;
  scene_env_origins : list (list R);
  _shoulder_dof_idx : list nat;
  _elbow_dof_idx : list nat;
  _stable_count : list Z;
  actions : gmap string (list (list R));
  sim : Sim;
}.

Definition set_actions (e : Env) (a : gmap string (list (list R))) : Env :=
  {| cfg := cfg e; robot_data := robot_data e;
     robot_ALL_INDICES := robot_ALL_INDICES e;
     scene_env_origins := scene_env_origins e;
     _shoulder_dof_idx := _shoulder_dof_idx e;
     _elbow_dof_idx := _elbow_dof_idx e;
     _stable_count := _stable_count e; actions := a; sim := sim e |}.

Definition set_sim (e : Env) (s : Sim) : Env :=
  {| cfg := cfg e; robot_data := robot_data e;
     robot_ALL_INDICES := robot_ALL_INDICES e;
     scene_env_origins := scene_env_origins e;
     _shoulder_dof_idx := _shoulder_dof_idx e;
     _elbow_dof_idx := _elbow_dof_idx e;
     _stable_count := _stable_count e; actions := actions e; sim := s |}.

Definition set_stable_count (e : Env) (c : list Z) : Env :=
  {| cfg := cfg e; robot_data := robot_data e;
     robot_ALL_INDICES := robot_ALL_INDICES e;
     scene_env_origins := scene_env_origins e;
     _shoulder_dof_idx := _shoulder_dof_idx e;
     _elbow_dof_idx := _elbow_dof_idx e;
     _stable_count := c; actions := actions e; sim := sim e |}.

(** [normalize_angle], entrywise. *)
Definition normalize_angle (angle : R) : R :=
  remainder (angle + PI) (2 * PI) - PI.

(** [__init__], after the base class has built the scene: the joint
    indices are looked up and the counter of stable steps starts at zero,
    one entry per row of [joint_pos]. *)
Definition __init__ (c : DoublePendulumEnvCfg) (rd : ArticulationData)
    (all_indices : list Z) (env_origins : list (list R)) (s : Sim) : Env :=
  {| cfg := c; robot_data := rd;
     robot_ALL_INDICES := all_indices;
     scene_env_origins := env_origins;
     _shoulder_dof_idx := find_joints s (shoulder_dof_name c);
     _elbow_dof_idx := find_joints s (elbow_dof_name c);
     _stable_count := replicate (length (joint_pos rd)) 0%Z;
     actions := ∅; sim := s |}.

Definition _pre_physics_step (a : gmap string (list (list R))) (e : Env) : Env :=
  set_actions e a.

Definition _apply_action (e : Env) : option Env :=
  a ← actions e !! "pendulum";
  let torque := tmap2 (λ x, x * torque_scale (cfg e)) a in
  if decide (robot_type (cfg e) = "acrobot") then
    s ← set_joint_effort_target torque (Some (_elbow_dof_idx e)) (sim e);
    Some (set_sim e s)
  else if decide (robot_type (cfg e) = "pendubot") then
    s ← set_joint_effort_target torque (Some (_shoulder_dof_idx e)) (sim e);
    Some (set_sim e s)
  else if decide (robot_type (cfg e) = "double_pendulum") then
    s ← set_joint_effort_target torque None (sim e);
    Some (set_sim e s)
  else Some e.

Definition _get_observations (e : Env) : option (gmap string (list (list R))) :=
  si ← _shoulder_dof_idx e !! 0%nat;
  sp ← select_col si (joint_pos (robot_data e));
  let shoulder_joint_pos := tmap2 normalize_angle (unsqueeze1 sp) in
  ei ← _elbow_dof_idx e !! 0%nat;
  ep ← select_col ei (joint_pos (robot_data e));
  let elbow_joint_pos := tmap2 normalize_angle (unsqueeze1 ep) in
  sv ← select_col si (joint_vel (robot_data e));
  let shoulder_vel := tmap2 (λ x, x / max_velocity (cfg e)) (unsqueeze1 sv) in
  ev ← select_col ei (joint_vel (robot_data e));
  let elbow_vel := tmap2 (λ x, x / max_velocity (cfg e)) (unsqueeze1 ev) in
  let shoulder_vel := tmap2 (λ x, clamp x (-1) 1) shoulder_vel in
  let elbow_vel := tmap2 (λ x, clamp x (-1) 1) elbow_vel in
  observations ← cat_last [shoulder_joint_pos; elbow_joint_pos; shoulder_vel; elbow_vel];
  Some {["pendulum" := observations]}.

(** The local variables of [_get_rewards]. *)
Record RewardLocals := {
  rw_goal_tensor : list R;
  rw_state : list (list R);
  rw_error : list (list R);
  rw_Q : list (list R);
  rw_state_cost : list R;
  rw_action : list (list R);
  rw_action_cost : list R;
  rw_total_cost : list R;
  rw_base_reward0 : list R;      (* [base_reward] before the shaping term *)
  rw_error_norm : list R;
  rw_bonus : list R;
  rw_stable_condition : list bool;
  rw_stable_count : list Z;      (* the new [self._stable_count] *)
  rw_angle_dist : list (list R);
  rw_angle_shaping : list (list R);
  rw_base_reward : list R;       (* [base_reward] after [+=] *)
  rw_reward : list R;
}.

Definition _get_rewards_locals (e : Env) : option RewardLocals :=
  let goal_tensor := goal_state (cfg e) in
  let goal_tensor := map normalize_angle (take 2 goal_tensor) ++ drop 2 goal_tensor in
  obs ← _get_observations e;
  state ← obs !! "pendulum";
  error ← sub_rows state goal_tensor;
  let Q := diag (reward_state_weights (cfg e)) in
  state_cost ← einsum_bi_ij_bj error Q error;
  action ← actions e !! "pendulum";
  let action_cost :=
    map (λ x, reward_action_weight (cfg e) * x) (sum_last (tmap2 (λ a, a * a) action)) in
  total_cost ← bcast2 Rplus state_cost action_cost;
  let base_reward0 :=
    map (λ c, - (reward_scale (cfg e) * c) - time_penalty (cfg e)) total_cost in
  let error_norm := norm_last error in
  diff ← sub_rows state goal_tensor;
  let bonus :=
    map (λ n, if R_ltb n (success_threshold (cfg e)) then bonus_reward (cfg e) else 0)
        (norm_last diff) in
  let stable_condition := map (λ n, R_ltb n (success_threshold (cfg e))) error_norm in
  stable_count ← bcast2 (λ (c : bool) s, if c then wrap32 (s + 1) else 0%Z)
                    stable_condition (_stable_count e);
  let angle_dist := map (λ row, map Rabs (take 2 row)) error in
  let angle_shaping := tmap2 (λ d, 1 - tanh d) angle_dist in
  base_reward ← iadd base_reward0 (map (λ x, x * 0.01) (sum_last angle_shaping));
  reward ← bcast2 Rplus base_reward bonus;
  Some {| rw_goal_tensor := goal_tensor; rw_state := state; rw_error := error;
          rw_Q := Q; rw_state_cost := state_cost; rw_action := action;
          rw_action_cost := action_cost; rw_total_cost := total_cost;
          rw_base_reward0 := base_reward0; rw_error_norm := error_norm;
          rw_bonus := bonus; rw_stable_condition := stable_condition;
          rw_stable_count := stable_count; rw_angle_dist := angle_dist;
          rw_angle_shaping := angle_shaping; rw_base_reward := base_reward;
          rw_reward := reward |}.

Definition _get_rewards (e : Env) : option (gmap string (list R) * Env) :=
  L ← _get_rewards_locals e;
  Some ({["pendulum" := rw_reward L]}, set_stable_count e (rw_stable_count L)).

(** The local variables of [_get_dones]. *)
Record DoneLocals := {
  dn_state : list (list R);
  dn_goal : list R;
  dn_error_norm : list R;
  dn_success : list bool;
  dn_sustained_stability : list bool;
  dn_time_out : list bool;
}.

(** The first two statements of [_get_dones] bind [self.joint_pos] and
    [self.joint_vel] to the robot's buffers again: nothing to do in the
    model, where they are those buffers. *)
Definition _get_dones_locals (e : Env) : option DoneLocals :=
  obs ← _get_observations e;
  state ← obs !! "pendulum";
  let goal := goal_state (cfg e) in
  diff ← sub_rows state goal;
  let error_norm := norm_last diff in
  let success_threshold := success_threshold (cfg e) in
  let success := map (λ n, R_ltb n success_threshold) error_norm in
  let sustained_stability :=
    map (λ c, bool_decide (sustain_steps (cfg e) ≤ c)%Z) (_stable_count e) in
  let time_out :=
    map (λ t, bool_decide (max_episode_length (sim e) - 1 ≤ t)%Z)
        (episode_length_buf (sim e)) in
  Some {| dn_state := state; dn_goal := goal; dn_error_norm := error_norm;
          dn_success := success; dn_sustained_stability := sustained_stability;
          dn_time_out := time_out |}.

Definition _get_dones (e : Env)
  : option ((gmap string (list bool) * gmap string (list bool)) * Env) :=
  L ← _get_dones_locals e;
  let dones := {["pendulum" := dn_time_out L]} in
  let time_outs := {["pendulum" := dn_time_out L]} in
  Some ((dones, time_outs), e).

(** The call [super()._reset_idx(env_ids)].  The base class indexes its
    buffers, which have one row for each of the [num_envs] environments, with
    [env_ids]: an index outside [-num_envs, num_envs) raises there, after the
    writes made before it.  [num_envs] is the number of rows of [joint_pos],
    as in [__init__]. *)
Definition call_super_reset_idx (env_ids : list Z) (e : Env) : option Sim :=
  _ ← mapM (resolve_index (length (joint_pos (robot_data e)))) env_ids;
  Some (super_reset_idx env_ids (sim e)).

Definition _reset_idx (env_ids : option (list Z)) (e : Env) : option Env :=
  let env_ids := default (robot_ALL_INDICES e) env_ids in
  s ← call_super_reset_idx env_ids e;
  joint_pos0 ← index_rows (default_joint_pos (robot_data e)) env_ids;
  lo ← initial_shoulder_angle_range (cfg e) !! 0%nat;
  hi ← initial_shoulder_angle_range (cfg e) !! 1%nat;
  let us := sample_uniform (lo * PI) (hi * PI)
              (length joint_pos0) (length (_shoulder_dof_idx e)) s in
  joint_pos1 ← iadd_cols joint_pos0 (_shoulder_dof_idx e) us.1;
  lo' ← initial_elbow_angle_range (cfg e) !! 0%nat;
  hi' ← initial_elbow_angle_range (cfg e) !! 1%nat;
  let us' := sample_uniform (lo' * PI) (hi' * PI)
               (length joint_pos1) (length (_elbow_dof_idx e)) us.2 in
  joint_pos2 ← iadd_cols joint_pos1 (_elbow_dof_idx e) us'.1;
  joint_vel0 ← index_rows (default_joint_vel (robot_data e)) env_ids;
  root0 ← index_rows (default_root_state (robot_data e)) env_ids;
  origins ← index_rows (scene_env_origins e) env_ids;
  root1 ← iadd_prefix 3 root0 origins;
  pos' ← index_put_rows (joint_pos (robot_data e)) env_ids joint_pos2;
  vel' ← index_put_rows (joint_vel (robot_data e)) env_ids joint_vel0;
  let s := write_root_pose_to_sim (map (take 7) root1) env_ids us'.2 in
  let s := write_root_velocity_to_sim (map (drop 7) root1) env_ids s in
  let s := write_joint_state_to_sim joint_pos2 joint_vel0 env_ids s in
  count' ← index_fill (_stable_count e) env_ids 0%Z;
  Some {| cfg := cfg e;
          robot_data :=
            {| joint_pos := pos'; joint_vel := vel';
               default_joint_pos := default_joint_pos (robot_data e);
               default_joint_vel := default_joint_vel (robot_data e);
               default_root_state := default_root_state (robot_data e) |};
          robot_ALL_INDICES := robot_ALL_INDICES e;
          scene_env_origins := scene_env_origins e;
          _shoulder_dof_idx := _shoulder_dof_idx e;
          _elbow_dof_idx := _elbow_dof_idx e;
          _stable_count := count';
          actions := actions e; sim := s |}.

(** The simulator advancing between two calls of the task functions: the
    joint buffers and the simulator state change, nothing else does. *)
Definition physics_step (rd : ArticulationData) (s : Sim) (e : Env) : Env :=
  {| cfg := cfg e; robot_data := rd;
     robot_ALL_INDICES := robot_ALL_INDICES e;
     scene_env_origins := scene_env_origins e;
     _shoulder_dof_idx := _shoulder_dof_idx e;
     _elbow_dof_idx := _elbow_dof_idx e;
     _stable_count := _stable_count e; actions := actions e; sim := s |}.

(** [run n e]: the environment [e] is reached from construction by calls of
    the task functions, in any order, [n] of them calls of [_get_rewards]. *)
Inductive run : nat → Env → Prop :=
| run_init c rd all_indices env_origins s :
    run 0 (__init__ c rd all_indices env_origins s)
| run_physics n e rd s :
    run n e → run n (physics_step rd s e)
| run_pre_physics_step n e a :
    run n e → run n (_pre_physics_step a e)
| run_apply_action n e e' :
    run n e → _apply_action e = Some e' → run n e'
| run_get_dones n e d e' :
    run n e → _get_dones e = Some (d, e') → run n e'
| run_get_rewards n e r e' :
    run n e → _get_rewards e = Some (r, e') → run (S n) e'
| run_reset_idx n e env_ids e' :
    run n e → _reset_idx env_ids e = Some e' → run n e'.
End Environment.

Arguments Env : clear implicits.

(** ** A simulator to run the environment on

    An instance of [Framework] for closed examples: the effort targets are a
    buffer of shape (n, joints) written with torch's indexed assignment, the
    base class reset zeroes the episode counters of the selected rows (up to
    the first index out of range, at which it raises), and the random
    generator is the stream of its future draws.  The state of the
    physics engine is not tracked: the three [write_*_to_sim] calls leave
    this simulator as it is. *)

Record TorchSim := {
  ts_episode_length_buf : list Z;
  ts_max_episode_length : Z;
  ts_joint_names : list string;
  ts_joint_effort_target : list (list R);
  ts_rand : nat → R;
  ts_cursor : nat;
}.

(** [buf[:, cols] = target], [cols = None] standing for the full slice: the
    target is broadcast to the shape of the selection. *)
Definition setitem_cols (buf : list (list R)) (cols : option (list nat))
    (target : list (list R)) : option (list (list R)) :=
  rows ← expand (length buf) target;
  mapM (λ rv : list R * list R,
          let cs := default (seq 0 (length rv.1)) cols in
          _ ← mapM (λ c, rv.1 !! c) cs;
          v ← expand (length cs) rv.2;
          Some (foldl (λ r cv, <[cv.1 := cv.2]> r) rv.1 (zip cs v)))
       (zip buf rows).

Definition ts_find_joints (s : TorchSim) (name : string) : list nat :=
  omap (λ x : option nat, x)
       (imap (λ i n, if decide (n = name) then Some i else None) (ts_joint_names s)).

Definition ts_set_joint_effort_target (target : list (list R))
    (joint_ids : option (list nat)) (s : TorchSim) : option TorchSim :=
  buf ← setitem_cols (ts_joint_effort_target s) joint_ids target;
  Some {| ts_episode_length_buf := ts_episode_length_buf s;
          ts_max_episode_length := ts_max_episode_length s;
          ts_joint_names := ts_joint_names s;
          ts_joint_effort_target := buf;
          ts_rand := ts_rand s; ts_cursor := ts_cursor s |}.

(** [self.episode_length_buf[env_ids] = 0] of the base class reset. *)
Definition ts_super_reset_idx (env_ids : list Z) (s : TorchSim) : TorchSim :=
  {| ts_episode_length_buf :=
       index_fill_upto (ts_episode_length_buf s) env_ids 0%Z;
     ts_max_episode_length := ts_max_episode_length s;
     ts_joint_names := ts_joint_names s;
     ts_joint_effort_target := ts_joint_effort_target s;
     ts_rand := ts_rand s; ts_cursor := ts_cursor s |}.

Definition ts_sample_uniform (lower upper : R) (n m : nat) (s : TorchSim)
  : list (list R) * TorchSim :=
  (map (λ i, map (λ j, (ts_rand s (ts_cursor s + i * m + j) * (upper - lower) + lower)%R)
                 (seq 0 m))
       (seq 0 n),
   {| ts_episode_length_buf := ts_episode_length_buf s;
      ts_max_episode_length := ts_max_episode_length s;
      ts_joint_names := ts_joint_names s;
      ts_joint_effort_target := ts_joint_effort_target s;
      ts_rand := ts_rand s; ts_cursor := ts_cursor s + n * m |}).

#[export] Instance torch_framework : Framework TorchSim := {|
  episode_length_buf := ts_episode_length_buf;
  max_episode_length := ts_max_episode_length;
  find_joints := ts_find_joints;
  set_joint_effort_target := ts_set_joint_effort_target;
  super_reset_idx := ts_super_reset_idx;
  sample_uniform := ts_sample_uniform;
  write_root_pose_to_sim := λ _ _ s, s;
  write_root_velocity_to_sim := λ _ _ s, s;
  write_joint_state_to_sim := λ _ _ _ s, s;
|}.

(** ** Shapes

    The shapes under which the batched functions run without a torch error:
    [n] rows everywhere, every row of the joint buffers wide enough for the
    two joint indices, 4-vectors for the goal and the weights. *)

Section Shapes.
Context {Sim : Type} `{!Framework Sim}.

Record observation_shape (e : Env Sim) (si ei : nat) : Prop := {
  os_shoulder : _shoulder_dof_idx e !! 0%nat = Some si;
  os_elbow : _elbow_dof_idx e !! 0%nat = Some ei;
  os_rows : length (joint_vel (robot_data e)) = length (joint_pos (robot_data e));
  os_pos : Forall (λ row : list R, si < length row ∧ ei < length row)
                  (joint_pos (robot_data e));
  os_vel : Forall (λ row : list R, si < length row ∧ ei < length row)
                  (joint_vel (robot_data e));
}.

Record reward_shape (e : Env Sim) (si ei : nat) (action : list (list R)) : Prop := {
  rs_obs : observation_shape e si ei;
  rs_goal : length (goal_state (cfg e)) = 4;
  rs_weights : length (reward_state_weights (cfg e)) = 4;
  rs_action : actions e !! "pendulum" = Some action;
  rs_action_rows : length action = length (joint_pos (robot_data e));
  rs_count : length (_stable_count e) = length (joint_pos (robot_data e));
}.

(** The shapes [_reset_idx] needs: [n] rows in every buffer, [w] joints in
    every row of the joint buffers, joint indices below [w], root states of
    at least 3 entries and origins of exactly 3, ranges of two bounds. *)
Record reset_shape (e : Env Sim) (w : nat) : Prop := {
  rt_vel : length (joint_vel (robot_data e)) = length (joint_pos (robot_data e));
  rt_default_pos :
    length (default_joint_pos (robot_data e)) = length (joint_pos (robot_data e));
  rt_default_vel :
    length (default_joint_vel (robot_data e)) = length (joint_pos (robot_data e));
  rt_root :
    length (default_root_state (robot_data e)) = length (joint_pos (robot_data e));
  rt_origins : length (scene_env_origins e) = length (joint_pos (robot_data e));
  rt_count : length (_stable_count e) = length (joint_pos (robot_data e));
  rt_pos_width : Forall (λ row : list R, length row = w) (joint_pos (robot_data e));
  rt_vel_width : Forall (λ row : list R, length row = w) (joint_vel (robot_data e));
  rt_default_pos_width :
    Forall (λ row : list R, length row = w) (default_joint_pos (robot_data e));
  rt_default_vel_width :
    Forall (λ row : list R, length row = w) (default_joint_vel (robot_data e));
  rt_shoulder : Forall (λ c, c < w) (_shoulder_dof_idx e);
  rt_elbow : Forall (λ c, c < w) (_elbow_dof_idx e);
  rt_root_width :
    Forall (λ row : list R, 3 ≤ length row) (default_root_state (robot_data e));
  rt_origins_width : Forall (λ row : list R, length row = 3) (scene_env_origins e);
  rt_shoulder_range : 2 ≤ length (initial_shoulder_angle_range (cfg e));
  rt_elbow_range : 2 ≤ length (initial_elbow_angle_range (cfg e));
}.

(** [sample_uniform] returns a tensor of the shape it is asked for. *)
Definition sample_uniform_shaped : Prop :=
  ∀ (lower upper : R) (n m : nat) (s : Sim),
    length (sample_uniform lower upper n m s).1 = n
    ∧ Forall (λ row : list R, length row = m) (sample_uniform lower upper n m s).1.

(** Row [i] of the observation tensor, read off rows [i] of [joint_pos]
    and [joint_vel]. *)
Definition observation_row (c : DoublePendulumEnvCfg) (si ei : nat)
    (p v : list R) : list R :=
  [normalize_angle (nth si p 0%R); normalize_angle (nth ei p 0%R);
   clamp (nth si v 0 / max_velocity c) (-1) 1;
   clamp (nth ei v 0 / max_velocity c) (-1) 1]%R.

(** The goal after [goal_tensor[:2] = normalize_angle(goal_tensor[:2])]. *)
Definition normalized_goal (c : DoublePendulumEnvCfg) : list R :=
  map normalize_angle (take 2 (goal_state c)) ++ drop 2 (goal_state c).

(** One row of [state - goal_tensor]. *)
Definition error_row (c : DoublePendulumEnvCfg) (o : list R) : list R :=
  zip_with Rminus o (normalized_goal c).

(** The Euclidean norm of one row. *)
Definition norm_row (er : list R) : R :=
  sqrt (sum_list (map (λ x, x * x)%R er)).
End Shapes.

(** ** The results of [_get_rewards], tensor by tensor

    What the local variables of [_get_rewards] are on well-shaped inputs,
    written with total list functions: [obs] is the observation tensor,
    [act] the action tensor. *)

Section Reward_equations.
Context {Sim : Type} `{!Framework Sim}.
Local Open Scope R_scope.

Record reward_equations (e : Env Sim) (obs act : list (list R)) (L : RewardLocals)
  : Prop := {
  re_goal_tensor : rw_goal_tensor L = normalized_goal (cfg e);
  re_state : rw_state L = obs;
  re_error : rw_error L = map (error_row (cfg e)) obs;
  re_Q : rw_Q L = diag (reward_state_weights (cfg e));
  re_state_cost :
    rw_state_cost L = map (λ er, quad_sum 4 4 er (rw_Q L) er) (rw_error L);
  re_action : rw_action L = act;
  re_action_cost :
    rw_action_cost L
    = map (λ a, reward_action_weight (cfg e) * sum_list (map (λ x, x * x) a)) act;
  re_total_cost :
    rw_total_cost L = zip_with Rplus (rw_state_cost L) (rw_action_cost L);
  re_base_reward0 :
    rw_base_reward0 L
    = map (λ c, - (reward_scale (cfg e) * c) - time_penalty (cfg e)) (rw_total_cost L);
  re_error_norm : rw_error_norm L = map norm_row (rw_error L);
  re_bonus :
    rw_bonus L
    = map (λ n, if R_ltb n (success_threshold (cfg e)) then bonus_reward (cfg e) else 0)
          (rw_error_norm L);
  re_stable_condition :
    rw_stable_condition L
    = map (λ n, R_ltb n (success_threshold (cfg e))) (rw_error_norm L);
  re_stable_count :
    rw_stable_count L
    = zip_with (λ (c : bool) s, if c then wrap32 (s + 1) else 0%Z)
               (rw_stable_condition L) (_stable_count e);
  re_angle_dist : rw_angle_dist L = map (λ er, map Rabs (take 2 er)) (rw_error L);
  re_angle_shaping :
    rw_angle_shaping L = map (map (λ d, 1 - tanh d)) (rw_angle_dist L);
  re_base_reward :
    rw_base_reward L
    = zip_with Rplus (rw_base_reward0 L)
               (map (λ sh, sum_list sh * 0.01) (rw_angle_shaping L));
  re_reward : rw_reward L = zip_with Rplus (rw_base_reward L) (rw_bonus L);
}.
End Reward_equations.

(** ** Streaks of stable steps *)

Section Streak.
Context {Sim : Type} `{!Framework Sim}.

(** [streak i k e0 e]: starting from [e0] the task functions are called, in
    any order and without [_reset_idx], and [e] is reached after [k] calls of
    [_get_rewards]; in each of them row [i] met the stable condition. *)
Inductive streak (i : nat) : nat → Env Sim → Env Sim → Prop :=
| streak_start e : streak i 0 e e
| streak_physics k e0 e rd s :
    streak i k e0 e → streak i k e0 (physics_step rd s e)
| streak_pre_physics_step k e0 e a :
    streak i k e0 e → streak i k e0 (_pre_physics_step a e)
| streak_apply_action k e0 e e' :
    streak i k e0 e → _apply_action e = Some e' → streak i k e0 e'
| streak_get_dones k e0 e d e' :
    streak i k e0 e → _get_dones e = Some (d, e') → streak i k e0 e'
| streak_get_rewards k e0 e L r e' :
    streak i k e0 e →
    _get_rewards_locals e = Some L → rw_stable_condition L !! i = Some true →
    _get_rewards e = Some (r, e') →
    streak i (S k) e0 e'.
End Streak.

(** * The grid-search and evaluation scripts

    [scripts/reinforcement_learning/rl_games/grid_search_driver.py],
    [grid_search.py], [test.py] (its header names it play.py) and
    [play_grid.py].

    Conventions of the embedding.
    - A [str] is a [string] of bytes; the scripts handle ASCII text.
    - The operating system (sub-processes, the file system) is an abstract
      state [World], passed through the calls that touch it.  A call that
      may raise returns the exception in a sum type; what a script passes to
      [subprocess.run] or to a training run is recorded, call by call, in a
      list returned beside the result.
    - [print] calls that only inform the user are left out.
    - The text of a float in an f-string ([str(x)], [format(x, ".4f")]) is a
      function the sections take as a variable. *)

(** ** Python built-ins and library functions *)

Module Py.

(** [s.startswith(p)] and [s.endswith(p)]. *)
Definition startswith (s p : string) : bool := String.prefix p s.

Definition endswith (s p : string) : bool :=
  String.prefix (String.rev p) (String.rev s).

(** [k] times the character 0. *)
Definition zeros (k : nat) : string :=
  String.string_of_list_ascii (replicate k "0"%char).

(** [f"{i:03d}"] for [i >= 0]: decimal digits, padded with zeros to width 3. *)
Definition format_03d (i : nat) : string :=
  let s := pretty i in
  zeros (3 - String.length s) +:+ s.

(** [itertools.product(l, repeat=4)]: the last position varies fastest. *)
Definition product4 {A} (l : list A) : list (A * A * A * A) :=
  a ← l; b ← l; c ← l; d ← l; [(a, b, c, d)].

(** [enumerate(l)]. *)
Definition enumerate {A} (l : list A) : list (nat * A) := imap pair l.

(** [sorted(l)] for a list of [str]: ascending in the order of [str]. *)
Definition sorted (l : list string) : list string := merge_sort String.le l.

(** [os.path.join(a, b)] of posixpath. *)
Definition os_path_join (a b : string) : string :=
  if startswith b "/" then b
  else if bool_decide (a = "") || endswith a "/" then a +:+ b
  else a +:+ "/" +:+ b.

(** [s[n:]]. *)
Fixpoint skip (n : nat) (s : string) : string :=
  match n, s with
  | S n', String _ s' => skip n' s'
  | _, _ => s
  end.

(** The longest prefix of [s] made of characters of a class. *)
Fixpoint span (cls : Ascii.ascii → bool) (s : string) : string :=
  match s with
  | String a s' => if cls a then String a (span cls s') else ""
  | "" => ""
  end.

(** [re.search(lit, s)] for a pattern [lit] without special characters:
    whether [lit] occurs in [s]. *)
Fixpoint re_search_literal (lit s : string) : bool :=
  String.prefix lit s
  || match s with
     | String _ s' => re_search_literal lit s'
     | "" => false
     end.

(** [re.match] of the pattern [lit([cls]+)] at the start of [s]: the group,
    which the greedy [+] makes the longest run of class characters. *)
Definition re_match_group (lit : string) (cls : Ascii.ascii → bool) (s : string)
  : option string :=
  if String.prefix lit s then
    match span cls (skip (String.length lit) s) with
    | "" => None
    | g => Some g
    end
  else None.

(** [re.search] of the pattern [lit([cls]+)]: group 1 of the leftmost match. *)
Fixpoint re_search_group (lit : string) (cls : Ascii.ascii → bool) (s : string)
  : option string :=
  match re_match_group lit cls s with
  | Some g => Some g
  | None =>
      match s with
      | String _ s' => re_search_group lit cls s'
      | "" => None
      end
  end.

(** What [subprocess.run] returns. *)
Record CompletedProcess := {
  returncode : Z;
  stdout : string;
}.

End Py.
Export Py.

(** ** grid_search_driver.py *)

Module GridSearchDriver.
Section Main.
Context {World : Type}.
(** [str(x)] of a float. *)
Context (float_str : R → string).
(** [subprocess.run(cmd)]: the process that ran, or the message of the
    exception the call raised. *)
Context (subprocess_run : list string → World → (string + CompletedProcess) * World).

Definition WEIGHT_VALUES : list R := [0.1; 1; 2]%R.

Definition all_combos : list (R * R * R * R) := product4 WEIGHT_VALUES.

Definition base_cmd : list string :=
  ["python"; "scripts/reinforcement_learning/rl_games/train.py";
   "--task"; "Isaac-Double-Pendulum-Direct-v0";
   "--max_iterations"; "1000";
   "--headless";
   "--num_envs"; "4096";
   "--enable_cameras";
   "--video"].

Definition weights_str (c : R * R * R * R) : string :=
  let '(w1, w2, w3, w4) := c in
  "[" +:+ float_str w1 +:+ "," +:+ float_str w2 +:+ "," +:+ float_str w3
      +:+ "," +:+ float_str w4 +:+ "]".

Definition run_name (i : nat) (c : R * R * R * R) : string :=
  let '(w1, w2, w3, w4) := c in
  "acrobot_grid_" +:+ format_03d i +:+ "_" +:+ float_str w1 +:+ "-"
    +:+ float_str w2 +:+ "-" +:+ float_str w3 +:+ "-" +:+ float_str w4.

Definition override_str (c : R * R * R * R) : string :=
  "env.reward_state_weights=" +:+ weights_str c.

Definition cmd (i : nat) (c : R * R * R * R) : list string :=
  base_cmd ++ ["--run_name"; run_name i c; override_str c].

(** The exceptions that end [main]: the one [check=True] raises on an exit
    code other than 0, or one raised by [subprocess.run] itself. *)
Inductive Raised :=
| CalledProcessError (returncode : Z) (cmd : list string)
| Propagated (message : string).

(** One call of [subprocess.run] and what it gave. *)
Record Launch := {
  launch_cmd : list string;
  launch_result : string + CompletedProcess;
}.

(** The [for] loop of [main] over [enumerate(all_combos)]. *)
Fixpoint main_loop (runs : list (nat * (R * R * R * R))) (w : World)
  : list Launch * option Raised * World :=
  match runs with
  | [] => ([], None, w)
  | (i, c) :: runs' =>
      let '(r, w') := subprocess_run (cmd i c) w in
      let l := {| launch_cmd := cmd i c; launch_result := r |} in
      match r with
      | inl message => ([l], Some (Propagated message), w')
      | inr completed =>
          if decide (returncode completed = 0%Z) then
            let '(ls, e, w'') := main_loop runs' w' in (l :: ls, e, w'')
          else ([l], Some (CalledProcessError (returncode completed) (cmd i c)), w')
      end
  end.

Definition main (w : World) : list Launch * option Raised * World :=
  main_loop (enumerate all_combos) w.
End Main.
End GridSearchDriver.

(** ** grid_search.py *)

Module GridSearch.

(** The log directory of [run_single_training]: an empty or missing
    [args_cli.run_name] is replaced. *)
Definition log_dir (run_name : option string) : string :=
  let run_name :=
    match run_name with
    | Some s => if decide (s = "") then "unknown_task" else s
    | None => "unknown_task"
    end in
  run_name +:+ "_train".

(** [local_env_cfg.reward_state_weights = ...] on the copy of [env_cfg]. *)
Definition set_reward_state_weights (ws : list R) (c : DoublePendulumEnvCfg)
  : DoublePendulumEnvCfg := {|
  shoulder_dof_name := shoulder_dof_name c;
  elbow_dof_name := elbow_dof_name c;
  robot_type := robot_type c;
  action_spaces := action_spaces c;
  initial_shoulder_angle_range := initial_shoulder_angle_range c;
  initial_elbow_angle_range := initial_elbow_angle_range c;
  torque_scale := torque_scale c;
  goal_state := goal_state c;
  reward_state_weights := ws;
  reward_action_weight := reward_action_weight c;
  reward_scale := reward_scale c;
  time_penalty := time_penalty c;
  bonus_reward := bonus_reward c;
  max_velocity := max_velocity c;
  success_threshold := success_threshold c;
  sustain_steps := sustain_steps c;
|}.

Section Main.
Context {World AgentCfg : Type}.
(** [str(x)] of a float. *)
Context (float_str : R → string).
(** The rest of [run_single_training], for the given configurations and
    [args_cli.run_name] (the other arguments are the same in every call):
    the message of the exception it raised, if any. *)
Context (run_single_training :
  DoublePendulumEnvCfg → AgentCfg → option string → World → option string * World).

Definition WEIGHT_VALUES : list R := [0.1; 1; 2]%R.

Definition all_combos : list (R * R * R * R) := product4 WEIGHT_VALUES.

Definition sub_run_name (i : nat) (c : R * R * R * R) : string :=
  let '(w1, w2, w3, w4) := c in
  "grid_" +:+ format_03d i +:+ "_" +:+ float_str w1 +:+ "-"
    +:+ float_str w2 +:+ "-" +:+ float_str w3 +:+ "-" +:+ float_str w4.

(** [None + sub_run_name] is a TypeError. *)
Inductive Raised :=
| TypeError
| Propagated (message : string).

(** One call of [run_single_training]. *)
Record Training := {
  training_env_cfg : DoublePendulumEnvCfg;
  training_agent_cfg : AgentCfg;
  training_run_name : option string;
}.

(** The [for] loop of the grid-search mode of [main].  The result holds the
    calls of [run_single_training], the exception that ended the loop and
    the value [args_cli.run_name] is left with. *)
Fixpoint main_loop (runs : list (nat * (R * R * R * R)))
    (env_cfg : DoublePendulumEnvCfg) (agent_cfg : AgentCfg)
    (run_name : option string) (w : World)
  : list Training * option Raised * option string * World :=
  match runs with
  | [] => ([], None, run_name, w)
  | (i, (w1, w2, w3, w4)) :: runs' =>
      let local_env_cfg := env_cfg in
      let local_agent_cfg := agent_cfg in
      let local_env_cfg := set_reward_state_weights [w1; w2; w3; w4] local_env_cfg in
      let old_run_name := run_name in
      match old_run_name with
      | None => ([], Some TypeError, run_name, w)
      | Some old =>
          let run_name := Some (old +:+ sub_run_name i (w1, w2, w3, w4)) in
          let t := {| training_env_cfg := local_env_cfg;
                      training_agent_cfg := local_agent_cfg;
                      training_run_name := run_name |} in
          match run_single_training local_env_cfg local_agent_cfg run_name w with
          | (Some message, w') => ([t], Some (Propagated message), run_name, w')
          | (None, w') =>
              let run_name := old_run_name in
              let '(ts, e, n, w'') := main_loop runs' env_cfg agent_cfg run_name w' in
              (t :: ts, e, n, w'')
          end
      end
  end.

(** The grid-search mode of [main], entered after the overrides from the
    command line. *)
Definition main_grid_search := main_loop (enumerate all_combos).
End Main.
End GridSearch.

(** ** test.py *)

Module Play.
Section Main.
Context {World : Type}.
(** [format(x, ".4f")] of a float. *)
Context (format_4f : R → string).
(** One round of the loop up to [step_count += 1]: the action of the agent,
    [env.step] and the observation and done tensors it returns. *)
Context (agent_env_step : World → (list (list R) * list bool) * World).

(** [goal_state] after [goal_state[:2] = (goal_state[:2] + pi) % (2 pi) - pi].
    The configuration of the task has the attributes [goal_state] and
    [success_threshold], so [main] takes the first branch of its [hasattr]
    test; [%] on tensors is [torch.remainder]. *)
Definition goal_state_tensor (c : DoublePendulumEnvCfg) : list R :=
  map (λ a, remainder (a + PI) (2 * PI) - PI)%R (take 2 (goal_state c))
  ++ drop 2 (goal_state c).

(** [torch.norm(t)] of a tensor of shape (n, m): the norm of all entries. *)
Definition norm_all (t : list (list R)) : R :=
  sqrt (sum_list (map (λ x, x * x)%R (concat t))).

(** [torch.norm(state - goal_state) < success_threshold]. *)
Definition goal_check (c : DoublePendulumEnvCfg) (obs : list (list R))
  : option bool :=
  diff ← sub_rows obs (goal_state_tensor c);
  Some (R_ltb (norm_all diff) (success_threshold c)).

(** How the loop ends: with a torch error, or with [goal_reached] and
    [step_count]. *)
Inductive Outcome :=
| Raised
| Ended (goal_reached : bool) (step_count : Z).

(** The [while True] loop, with a bound on the number of rounds. *)
Fixpoint loop (c : DoublePendulumEnvCfg) (max_steps : Z) (fuel : nat)
    (step_count : Z) (w : World) : option (Outcome * World) :=
  match fuel with
  | O => None
  | S fuel' =>
      let '((obs, dones), w') := agent_env_step w in
      let step_count := (step_count + 1)%Z in
      if existsb (λ d : bool, d) dones then Some (Ended false step_count, w')
      else
        match goal_check c obs with
        | None => Some (Raised, w')
        | Some true => Some (Ended true step_count, w')
        | Some false =>
            if decide (max_steps ≤ step_count)%Z
            then Some (Ended false step_count, w')
            else loop c max_steps fuel' step_count w'
        end
  end.

(** The state of the world after [k] rounds of the loop, and the
    observation and done tensors of round [k], counted from 0. *)
Definition world_after (k : nat) (w : World) : World :=
  Nat.iter k (λ w0, (agent_env_step w0).2) w.

Definition round (k : nat) (w : World) : list (list R) * list bool :=
  (agent_env_step (world_after k w)).1.

(** The line printed once the loop is done. *)
Definition report (dt : R) (goal_reached : bool) (step_count : Z) : string :=
  if goal_reached then "TIME_TO_GOAL=" +:+ format_4f (dt * IZR step_count)
  else "TIME_TO_GOAL=FAIL".
End Main.
End Play.

(** ** play_grid.py *)

Module PlayGrid.

Definition BASE_DIR : string :=
  "/media/storage1/Sathvik/IsaacLab/logs/rl_games/double_pendulum".

Definition CSV_PATH : string := "evaluation_results_acrobot.csv".

(** The class [[A-Za-z0-9.\-_]]. *)
Definition time_class (a : Ascii.ascii) : bool :=
  let n := Ascii.nat_of_ascii a in
  (65 <=? n)%nat && (n <=? 90)%nat || (97 <=? n)%nat && (n <=? 122)%nat
  || (48 <=? n)%nat && (n <=? 57)%nat
  || bool_decide (a = "."%char) || bool_decide (a = "-"%char)
  || bool_decide (a = "_"%char).

(** The second column of a row, from the output of play.py. *)
Definition time_str (stdout : string) : string :=
  match re_search_group "TIME_TO_GOAL=" time_class stdout with
  | Some g => g
  | None =>
      if re_search_literal "TIME_TO_GOAL=FAIL" stdout then "FAIL"
      else "ERROR: see logs"
  end.

Definition model_path (exp_dir : string) : string :=
  os_path_join (os_path_join (os_path_join BASE_DIR exp_dir) "nn")
               "double_pendulum.pth".

Definition cmd (exp_dir : string) : list string :=
  ["python"; "scripts/reinforcement_learning/rl_games/play.py";
   "--task"; "Isaac-Double-Pendulum-Direct-v0";
   "--num_envs"; "1";
   "--run_name"; exp_dir;
   "--checkpoint"; model_path exp_dir].

Section Main.
Context {World : Type}.
(** [os.listdir(path)]; [None] when it raises. *)
Context (os_listdir : string → World → option (list string)).
Context (os_path_isfile : string → World → bool).
(** [subprocess.run(cmd, capture_output=True, text=True, check=False)]: the
    process that ran, or the message of the exception the call raised. *)
Context (subprocess_run : list string → World → (string + CompletedProcess) * World).
(** Writing the rows to a file with [csv.writer]; [None] when it raises. *)
Context (csv_write : string → list (list string) → World → option World).

(** The [for] loop of [main]: the rows appended to [results] and the
    commands passed to [subprocess.run]. *)
Fixpoint main_loop (exp_dirs : list string) (w : World)
  : list (list string) * list (list string) * World :=
  match exp_dirs with
  | [] => ([], [], w)
  | exp_dir :: exp_dirs' =>
      if negb (startswith exp_dir "acrobot_grid") || negb (endswith exp_dir "_train")
      then main_loop exp_dirs' w
      else if negb (os_path_isfile (model_path exp_dir) w) then
        let '(rows, cmds, w') := main_loop exp_dirs' w in
        ([exp_dir; "NO_CHECKPOINT"] :: rows, cmds, w')
      else
        let '(r, w1) := subprocess_run (cmd exp_dir) w in
        let row :=
          match r with
          | inr completed => [exp_dir; time_str (stdout completed)]
          | inl e => [exp_dir; "ERROR: " +:+ e]
          end in
        let '(rows, cmds, w') := main_loop exp_dirs' w1 in
        (row :: rows, cmd exp_dir :: cmds, w')
  end.

(** [main]: the table written, the commands run, or [None] when listing the
    directory or writing the file raised. *)
Definition main (w : World)
  : option (list (list string) * list (list string) * World) :=
  names ← os_listdir BASE_DIR w;
  let '(rows, cmds, w') := main_loop (sorted names) w in
  let results := ["Model Directory"; "Time to Goal (s)"] :: rows in
  w'' ← csv_write CSV_PATH results w';
  Some (results, cmds, w'').
End Main.
End PlayGrid.

(** ** Example environments *)

(** A configuration with another goal. *)
Definition with_goal_state (g : list R) (c : DoublePendulumEnvCfg)
  : DoublePendulumEnvCfg := {|
  shoulder_dof_name := shoulder_dof_name c;
  elbow_dof_name := elbow_dof_name c;
  robot_type := robot_type c;
  action_spaces := action_spaces c;
  initial_shoulder_angle_range := initial_shoulder_angle_range c;
  initial_elbow_angle_range := initial_elbow_angle_range c;
  torque_scale := torque_scale c;
  goal_state := g;
  reward_state_weights := reward_state_weights c;
  reward_action_weight := reward_action_weight c;
  reward_scale := reward_scale c;
  time_penalty := time_penalty c;
  bonus_reward := bonus_reward c;
  max_velocity := max_velocity c;
  success_threshold := success_threshold c;
  sustain_steps := sustain_steps c;
|}.

(** Two joints, episodes of 900 steps, rows at steps 3 and 899, a generator
    that draws 1/2 for ever. *)
Definition example_sim (n : nat) : TorchSim := {|
  ts_episode_length_buf := take n [3; 899]%Z;
  ts_max_episode_length := 900;
  ts_joint_names := ["Joint1"; "Joint2"];
  ts_joint_effort_target := replicate n [0; 0]%R;
  ts_rand := λ _, 0.5%R;
  ts_cursor := 0;
|}.

Definition example_root_state : list R :=
  [0; 0; 2; 1; 0; 0; 0; 0; 0; 0; 0; 0; 0]%R.

(** Two rows: the first sits on the default goal, at rest; the second is
    elsewhere and moves fast. *)
Definition example_data : ArticulationData := {|
  joint_pos := [[- PI; 0]; [1; 2]]%R;
  joint_vel := [[0; 0]; [10; -3]]%R;
  default_joint_pos := [[0; 0]; [0; 0]]%R;
  default_joint_vel := [[0; 0]; [0; 0]]%R;
  default_root_state := [example_root_state; example_root_state];
|}.

(** The default configuration on [example_data], after an action of 2 on the
    first row and 0 on the second. *)
Definition example_env : Env TorchSim :=
  _pre_physics_step {["pendulum" := [[2]; [0]]%R]}
    (__init__ default_cfg example_data [0; 1]%Z [[0; 0; 0]; [2; 0; 0]]%R
       (example_sim 2)).

(** The same environment on a simulator in another state. *)
Definition example_env_later : Env TorchSim :=
  set_sim example_env
    {| ts_episode_length_buf := [7; 0]%Z;
       ts_max_episode_length := 900;
       ts_joint_names := ["Joint1"; "Joint2"];
       ts_joint_effort_target := [[20; 20]; [0; 0]]%R;
       ts_rand := λ _, 0.25%R;
       ts_cursor := 12 |}.

(** The same observation from another joint state, on another simulator: the
    second row moves twice as fast, beyond [max_velocity] as before, and the
    environment holds, besides the action of the agent, one under another
    key. *)
Definition example_env_fast : Env TorchSim :=
  _pre_physics_step {["pendulum" := [[2]; [0]]%R; "other" := [[1]]%R]}
    (physics_step
       {| joint_pos := joint_pos example_data;
          joint_vel := [[0; 0]; [20; -3]]%R;
          default_joint_pos := default_joint_pos example_data;
          default_joint_vel := default_joint_vel example_data;
          default_root_state := default_root_state example_data |}
       (sim example_env_later) example_env).

(** One row hanging at the angle π, at rest, and the goal configured as
    [π, 0, 0, 0]. *)
Definition example_env_pi : Env TorchSim :=
  _pre_physics_step {["pendulum" := [[0]]%R]}
    (__init__ (with_goal_state [PI; 0; 0; 0]%R default_cfg)
       {| joint_pos := [[PI; 0]]%R; joint_vel := [[0; 0]]%R;
          default_joint_pos := [[0; 0]]%R; default_joint_vel := [[0; 0]]%R;
          default_root_state := [example_root_state] |}
       [0]%Z [[0; 0; 0]]%R (example_sim 1)).


(** The default (elbow-only) configuration with an action batch of width 2. *)
Definition example_env_wide : Env TorchSim :=
  _pre_physics_step {["pendulum" := [[1; 2]; [3; 4]]%R]} example_env.

(** The example after one full turn of the first row's shoulder, forwards,
    and of the second row's elbow, backwards. *)
Definition example_env_turned : Env TorchSim :=
  physics_step
    {| joint_pos := [[- PI + 2 * PI * 1; 0 + 2 * PI * 0];
                     [1 + 2 * PI * 0; 2 + 2 * PI * (-1)]]%R;
       joint_vel := joint_vel example_data;
       default_joint_pos := default_joint_pos example_data;
       default_joint_vel := default_joint_vel example_data;
       default_root_state := default_root_state example_data |}
    (sim example_env) example_env.

(** ** Example worlds for the scripts *)

(** The text of the weights of the grid. *)
Definition example_float_str (x : R) : string :=
  if Req_dec_T x 0.1 then "0.1"
  else if Req_dec_T x 1 then "1.0"
  else if Req_dec_T x 2 then "2.0"
  else "?".

(** A time, formatted. *)
Definition example_format_4f (x : R) : string := "0.0250".

(** A world without state, in which every process ends with exit code 0
    after printing a time. *)
Definition example_subprocess_run (cmd : list string) (w : unit)
  : (string + CompletedProcess) * unit :=
  (inr {| returncode := 0;
          stdout := "TIME_TO_GOAL=1.2500" +:+ String "010"%char "" |}, w).

Definition example_listdir (path : string) (w : unit) : option (list string) :=
  Some ["acrobot_grid_001_0.1-0.1-0.1-1.0_train"; "notes.txt";
        "acrobot_grid_000_0.1-0.1-0.1-0.1_train"].

Definition example_isfile (path : string) (w : unit) : bool := true.

Definition example_csv_write (path : string) (rows : list (list string))
    (w : unit) : option unit := Some w.

(** An agent and environment, one row, that are at the default goal after
    every step; the world counts the steps. *)
Definition example_agent_env_step (w : nat)
  : (list (list R) * list bool) * nat :=
  (([[- PI; 0; 0; 0]%R], [false]), S w).

(** * Properties *)

(** ** Real arithmetic of the tensor entries *)

Section Reals_facts.
Local Open Scope R_scope.

Lemma remainder_range (a b : R) : 0 < b → 0 <= remainder a b < b.
Proof.
  intros Hb. unfold remainder.
  destruct (base_Int_part (a / b)) as [Hlo Hhi].
  assert (Ha : a = a / b * b) by (field; lra).
  set (k := IZR (Int_part (a / b))) in *.
  split.
  - assert (k * b <= a / b * b) by (apply Rmult_le_compat_r; lra). lra.
  - assert (a / b * b < (k + 1) * b) by (apply Rmult_lt_compat_r; lra). lra.
Qed.

Lemma remainder_small (a b : R) : 0 <= a < b → remainder a b = a.
Proof.
  intros [Ha Hb]. unfold remainder.
  assert (Hq : 0 <= a / b < 1).
  { split.
    - apply Rmult_le_pos; [lra | left; apply Rinv_0_lt_compat; lra].
    - apply Rmult_lt_reg_r with b; [lra |].
      replace (a / b * b) with a by (field; lra). lra. }
  rewrite <- (Int_part_spec (a / b) 0); [simpl; lra | simpl; lra].
Qed.

Lemma normalize_angle_range (x : R) : - PI <= normalize_angle x < PI.
Proof.
  unfold normalize_angle. pose proof PI_RGT_0 as Hpi.
  pose proof (remainder_range (x + PI) (2 * PI)) as H. lra.
Qed.

Lemma normalize_angle_fixed (x : R) : - PI <= x < PI → normalize_angle x = x.
Proof.
  intros Hx. unfold normalize_angle.
  rewrite remainder_small; lra.
Qed.

Lemma normalize_angle_PI : normalize_angle PI = - PI.
Proof.
  unfold normalize_angle, remainder. pose proof PI_RGT_0 as Hpi.
  replace ((PI + PI) / (2 * PI)) with 1 by (field; lra).
  rewrite <- (Int_part_spec 1 1); simpl; lra.
Qed.

Lemma normalize_angle_0 : normalize_angle 0 = 0.
Proof. apply normalize_angle_fixed. pose proof PI_RGT_0. lra. Qed.

Lemma normalize_angle_neg_PI : normalize_angle (- PI) = - PI.
Proof. apply normalize_angle_fixed. pose proof PI_RGT_0. lra. Qed.

Lemma clamp_range (x lo hi : R) : lo <= hi → lo <= clamp x lo hi <= hi.
Proof.
  intros H. unfold clamp, Rmin, Rmax.
  repeat destruct (Rle_dec _ _); lra.
Qed.

Lemma R_ltb_true (x y : R) : R_ltb x y = true ↔ x < y.
Proof. unfold R_ltb. destruct (Rlt_dec x y); split; (done || congruence). Qed.

Lemma R_ltb_false (x y : R) : R_ltb x y = false ↔ ¬ x < y.
Proof. unfold R_ltb. destruct (Rlt_dec x y); split; (done || congruence). Qed.

Lemma tanh_0 : tanh 0 = 0.
Proof. unfold tanh. rewrite sinh_0, cosh_0. lra. Qed.
End Reals_facts.

(** C3 (as amended).  Angle normalization is idempotent, and its output lies
    in the half-open interval [-π, π): the lower end is attained, the upper
    end is not. *)
Theorem normalize_angle_idempotent_range (x : R) :
  normalize_angle (normalize_angle x) = normalize_angle x
  ∧ (- PI <= normalize_angle x < PI)%R.
Proof.
  split.
  - apply normalize_angle_fixed, normalize_angle_range.
  - apply normalize_angle_range.
Qed.

(** C3, counterexample.  The angle π is sent to -π, which is outside
    (-π, π]. *)
Lemma normalize_angle_not_in_left_open_interval :
  normalize_angle PI = (- PI)%R
  ∧ ¬ (- PI < normalize_angle PI <= PI)%R.
Proof.
  split; [apply normalize_angle_PI |].
  rewrite normalize_angle_PI. lra.
Qed.

(** ** The tensor operations on well-shaped operands *)

Section Torch_facts.
Local Open Scope R_scope.

Lemma mapM_total {A B} (f : A → option B) (g : A → B) (l : list A) :
  Forall (λ x, f x = Some (g x)) l → mapM f l = Some (map g l).
Proof.
  intros H. apply mapM_Some_2.
  induction H; simpl; constructor; auto.
Qed.

Lemma bcast2_same_length {A B C} (f : A → B → C) xs ys :
  length xs = length ys → bcast2 f xs ys = Some (zip_with f xs ys).
Proof. intros H. unfold bcast2. rewrite H, Nat.eqb_refl. done. Qed.

Lemma iadd_same_length lhs rhs :
  length rhs = length lhs → iadd lhs rhs = Some (zip_with Rplus lhs rhs).
Proof. intros H. unfold iadd. rewrite H, Nat.eqb_refl. done. Qed.

Lemma expand_same_length {A} n (t : list A) : length t = n → expand n t = Some t.
Proof. intros H. unfold expand. rewrite H, Nat.eqb_refl. done. Qed.

Lemma select_col_total c t :
  Forall (λ row : list R, (c < length row)%nat) t →
  select_col c t = Some (map (λ row, nth c row 0) t).
Proof.
  intros H. apply mapM_total. eapply Forall_impl; [exact H |].
  intros row Hrow. simpl.
  destruct (lookup_lt_is_Some_2 row c Hrow) as [x Hx].
  rewrite Hx. f_equal. symmetry. by apply nth_lookup_Some with (d := 0) in Hx.
Qed.

Lemma sub_rows_total t v :
  Forall (λ row : list R, length row = length v) t →
  sub_rows t v = Some (map (λ row, zip_with Rminus row v) t).
Proof.
  intros H. apply mapM_total. eapply Forall_impl; [exact H |].
  intros row Hrow. by apply bcast2_same_length.
Qed.

Lemma cat_last_4 (a b c d : list (list R)) :
  length b = length a → length c = length a → length d = length a →
  cat_last [a; b; c; d]
  = Some (zip_with app a (zip_with app b (zip_with app c d))).
Proof.
  intros Hb Hc Hd. simpl.
  rewrite Hc, Hd, Nat.eqb_refl. simpl.
  rewrite length_zip_with, Hb, Hc, Hd, Nat.min_id, Nat.eqb_refl. simpl.
  rewrite !length_zip_with, Hb, Hc, Hd, !Nat.min_id, Nat.eqb_refl. done.
Qed.
End Torch_facts.

(** ** Observations *)

Section Observation_facts.
Context {Sim : Type} `{!Framework Sim}.
Local Open Scope R_scope.

Lemma column_tensor (g : R → R) (h : list R → R) (t : list (list R)) :
  tmap2 g (unsqueeze1 (map h t)) = map (λ row, [g (h row)]) t.
Proof.
  unfold tmap2, unsqueeze1. induction t as [| row t IH]; simpl; [done |].
  by rewrite IH.
Qed.

Lemma tmap2_columns {A} (g : R → R) (x : A → R) (t : list A) :
  tmap2 g (map (λ row, [x row]) t) = map (λ row, [g (x row)]) t.
Proof. unfold tmap2. rewrite map_map. done. Qed.

Lemma cat_columns {A} (a b c d : list A → list R) (P V : list (list A)) :
  length V = length P →
  zip_with app (map a P) (zip_with app (map b P) (zip_with app (map c V) (map d V)))
  = zip_with (λ p v, a p ++ b p ++ c v ++ d v) P V.
Proof.
  revert V. induction P as [| p P IH]; intros [| v V] Hlen; simpl in *;
    try done.
  rewrite IH; [done | lia].
Qed.

(** On well-shaped buffers [_get_observations] returns, and row [i] of its
    tensor is [observation_row] of rows [i] of the joint buffers. *)
Lemma get_observations_rows (e : Env Sim) si ei :
  observation_shape e si ei →
  _get_observations e
  = Some {["pendulum" :=
             zip_with (observation_row (cfg e) si ei)
                      (joint_pos (robot_data e)) (joint_vel (robot_data e))]}.
Proof.
  intros [Hs He Hrows Hpos Hvel]. unfold _get_observations.
  rewrite Hs, He. cbn [mbind option_bind].
  rewrite (select_col_total si (joint_pos _)),
          (select_col_total ei (joint_pos _)),
          (select_col_total si (joint_vel _)),
          (select_col_total ei (joint_vel _));
    try (eapply Forall_impl; [eassumption | simpl; tauto]).
  cbn [mbind option_bind].
  rewrite !column_tensor, !tmap2_columns.
  rewrite cat_last_4; rewrite ?length_map; try done.
  cbn [mbind option_bind]. rewrite cat_columns by done. reflexivity.
Qed.

End Observation_facts.

(** C7.  On every joint state [_get_observations] returns an observation
    whose rows are [angle; angle; velocity; velocity], where each velocity is
    the joint velocity divided by [max_velocity] and clamped to [-1, 1], and
    so lies in [-1, 1]. *)
Theorem observation_velocities_clamped
    {Sim : Type} `{!Framework Sim} (e : Env Sim) (si ei : nat) :
  observation_shape e si ei →
  ∃ obs, _get_observations e = Some {["pendulum" := obs]}
    ∧ length obs = length (joint_vel (robot_data e))
    ∧ ∀ (i : nat) (row : list R), obs !! i = Some row →
        ∃ (v : list R) (a b v1 v2 : R),
          joint_vel (robot_data e) !! i = Some v
          ∧ row = [a; b; v1; v2]
          ∧ v1 = (clamp (nth si v 0 / max_velocity (cfg e)) (-1) 1)%R
          ∧ v2 = (clamp (nth ei v 0 / max_velocity (cfg e)) (-1) 1)%R
          ∧ (-1 <= v1 <= 1)%R ∧ (-1 <= v2 <= 1)%R.
Proof.
  intros Hshape. eexists. split; [by apply get_observations_rows |].
  split.
  - rewrite length_zip_with, (os_rows _ _ _ Hshape). lia.
  - intros i row Hrow.
    apply lookup_zip_with_Some in Hrow as (p & v & -> & Hp & Hv).
    exists v. do 4 eexists. split; [done |]. split; [reflexivity |].
    repeat split; apply clamp_range; lra.
Qed.

(** ** Rewards *)

(** Lengths of tensors built with [map] and [zip_with]. *)
Ltac tensor_length :=
  unfold norm_last, sum_last, tmap2;
  repeat rewrite ?length_zip_with, ?length_map;
  lia.

Section Reward_facts.
Context {Sim : Type} `{!Framework Sim}.
Local Open Scope R_scope.

Lemma normalized_goal_length c : length (normalized_goal c) = length (goal_state c).
Proof.
  unfold normalized_goal.
  rewrite length_app, length_map, length_take, length_drop. lia.
Qed.

Lemma diag_length w : length (diag w) = length w.
Proof. unfold diag. by rewrite length_imap. Qed.

Lemma diag_hd_length w : length (hd [] (diag w)) = length w.
Proof. unfold diag. destruct w; simpl; [done |]. by rewrite length_imap. Qed.

Lemma quad_form_square n x Q y :
  length x = n → length Q = n → length (hd [] Q) = n → length y = n →
  quad_form x Q y = Some (quad_sum n n x Q y).
Proof.
  intros <- HQ Hhd Hy. unfold quad_form, bdim.
  rewrite HQ, Hhd, Hy, Nat.eqb_refl. done.
Qed.

Lemma einsum_square n x Q :
  Forall (λ row : list R, length row = n) x →
  length Q = n → length (hd [] Q) = n →
  einsum_bi_ij_bj x Q x = Some (map (λ er, quad_sum n n er Q er) x).
Proof.
  intros Hx HQ Hhd. unfold einsum_bi_ij_bj.
  rewrite bcast2_same_length by done. cbn [mbind option_bind].
  apply mapM_Some_2.
  induction Hx as [| row x Hrow Hx IH]; simpl; constructor; [| done].
  by apply quad_form_square.
Qed.

(** On well-shaped inputs [_get_rewards_locals] returns, and its local
    variables are the tensors of [reward_equations]. *)
Lemma get_rewards_locals_shape (e : Env Sim) si ei act :
  reward_shape e si ei act →
  ∃ L, _get_rewards_locals e = Some L
    ∧ reward_equations e
        (zip_with (observation_row (cfg e) si ei)
                  (joint_pos (robot_data e)) (joint_vel (robot_data e)))
        act L.
Proof.
  intros [Hobs Hgoal Hw Hact Hrows Hcount].
  pose proof (os_rows _ _ _ Hobs) as Hvel.
  unfold _get_rewards_locals.
  rewrite (get_observations_rows e si ei Hobs). cbn [mbind option_bind].
  rewrite lookup_singleton_eq. cbn [mbind option_bind].
  fold (normalized_goal (cfg e)).
  set (obs := zip_with _ _ _).
  assert (Hobs4 : Forall (λ row : list R, length row = length (normalized_goal (cfg e))) obs).
  { rewrite normalized_goal_length, Hgoal. subst obs.
    apply Forall_forall. intros row Hin.
    apply list_elem_of_lookup in Hin as [i Hi].
    apply lookup_zip_with_Some in Hi as (p & v & -> & _ & _). done. }
  rewrite (sub_rows_total obs _ Hobs4). cbn [mbind option_bind].
  set (err := map _ obs).
  assert (Herr4 : Forall (λ row : list R, length row = 4%nat) err).
  { subst err. apply Forall_fmap. eapply Forall_impl; [exact Hobs4 |].
    intros row Hrow. simpl. rewrite length_zip_with, Hrow.
    rewrite normalized_goal_length, Hgoal. done. }
  rewrite (einsum_square 4 err) by
    (try done; rewrite ?diag_length, ?diag_hd_length; done).
  cbn [mbind option_bind]. rewrite Hact. cbn [mbind option_bind].
  assert (Hobslen : length obs = length (joint_pos (robot_data e))).
  { subst obs. rewrite length_zip_with. lia. }
  assert (Herrlen : length err = length (joint_pos (robot_data e))).
  { subst err. by rewrite length_map. }
  repeat (rewrite bcast2_same_length by tensor_length;
          cbn [mbind option_bind]).
  rewrite iadd_same_length by tensor_length.
  cbn [mbind option_bind].
  rewrite bcast2_same_length by tensor_length.
  cbn [mbind option_bind].
  eexists. split; [reflexivity |].
  constructor; cbn [rw_goal_tensor rw_state rw_error rw_Q rw_state_cost rw_action
    rw_action_cost rw_total_cost rw_base_reward0 rw_error_norm rw_bonus
    rw_stable_condition rw_stable_count rw_angle_dist rw_angle_shaping
    rw_base_reward rw_reward]; try reflexivity.
  - unfold sum_last, tmap2. by rewrite !map_map.
  - unfold sum_last, tmap2. by rewrite !map_map.
Qed.
End Reward_facts.

Section Reward_rows.
Context {Sim : Type} `{!Framework Sim}.
Local Open Scope R_scope.

(** Row [i] of the tensors of [_get_rewards], from row [i] of the
    observation [o], of the action [a] and of the counter [s]. *)
Lemma reward_equations_row (e : Env Sim) obs act L (i : nat) o a s :
  reward_equations e obs act L →
  obs !! i = Some o → act !! i = Some a → _stable_count e !! i = Some s →
  let er := error_row (cfg e) o in
  let c := R_ltb (norm_row er) (success_threshold (cfg e)) in
  let shaping := map (λ d, 1 - tanh d) (map Rabs (take 2 er)) in
  let cost := quad_sum 4 4 er (diag (reward_state_weights (cfg e))) er in
  let base :=
    - (reward_scale (cfg e)
       * (cost + reward_action_weight (cfg e) * sum_list (map (λ x, x * x) a)))
    - time_penalty (cfg e) + sum_list shaping * 0.01 in
  rw_error L !! i = Some er
  ∧ rw_state_cost L !! i = Some cost
  ∧ rw_error_norm L !! i = Some (norm_row er)
  ∧ rw_stable_condition L !! i = Some c
  ∧ rw_bonus L !! i = Some (if c then bonus_reward (cfg e) else 0)
  ∧ rw_stable_count L !! i = Some (if c then wrap32 (s + 1) else 0%Z)
  ∧ rw_angle_shaping L !! i = Some shaping
  ∧ rw_base_reward L !! i = Some base
  ∧ rw_reward L !! i = Some (base + (if c then bonus_reward (cfg e) else 0)).
Proof.
  intros HL Ho Ha Hs er c shaping cost base.
  destruct HL as [_ _ Herr HQ Hsc _ Hac Htc Hb0 Hn Hbonus Hcond Hcount Hdist Hshape Hbase Hrew].
  assert (E1 : rw_error L !! i = Some er)
    by (rewrite Herr, list_lookup_fmap, Ho; done).
  assert (E2 : rw_state_cost L !! i = Some cost)
    by (rewrite Hsc, list_lookup_fmap, E1, HQ; done).
  assert (E3 : rw_error_norm L !! i = Some (norm_row er))
    by (rewrite Hn, list_lookup_fmap, E1; done).
  assert (E4 : rw_stable_condition L !! i = Some c)
    by (rewrite Hcond, list_lookup_fmap, E3; done).
  assert (E5 : rw_bonus L !! i = Some (if c then bonus_reward (cfg e) else 0))
    by (rewrite Hbonus, list_lookup_fmap, E3; done).
  assert (E6 : rw_stable_count L !! i = Some (if c then wrap32 (s + 1) else 0%Z))
    by (rewrite Hcount, lookup_zip_with, E4, Hs; done).
  assert (E7 : rw_angle_shaping L !! i = Some shaping)
    by (rewrite Hshape, Hdist, !list_lookup_fmap, E1; done).
  assert (E8 : rw_base_reward L !! i = Some base).
  { rewrite Hbase, lookup_zip_with, Hb0, !list_lookup_fmap, E7, Htc,
      lookup_zip_with, E2, Hac, list_lookup_fmap, Ha. done. }
  assert (E9 : rw_reward L !! i
               = Some (base + (if c then bonus_reward (cfg e) else 0)))
    by (rewrite Hrew, lookup_zip_with, E8, E5; done).
  done.
Qed.

Lemma reward_equations_length (e : Env Sim) obs act L :
  reward_equations e obs act L →
  length act = length obs → length (_stable_count e) = length obs →
  length (rw_reward L) = length obs ∧ length (rw_stable_count L) = length obs.
Proof.
  intros [_ _ Herr HQ Hsc _ Hac Htc Hb0 Hn Hbonus Hcond Hcount Hdist Hshape Hbase Hrew] Ha Hs.
  rewrite Hrew, Hcount, Hbase, Hbonus, Hcond, Hb0, Hshape, Hdist, Htc, Hn, Hsc,
    Hac, Herr.
  split; tensor_length.
Qed.
End Reward_rows.

(** ** Termination *)

Section Done_facts.
Context {Sim : Type} `{!Framework Sim}.
Local Open Scope R_scope.

(** On well-shaped inputs [_get_dones_locals] returns; its error is taken
    against the goal as configured. *)
Lemma get_dones_locals_shape (e : Env Sim) si ei :
  observation_shape e si ei → length (goal_state (cfg e)) = 4%nat →
  let obs := zip_with (observation_row (cfg e) si ei)
               (joint_pos (robot_data e)) (joint_vel (robot_data e)) in
  let norms := map (λ o, norm_row (zip_with Rminus o (goal_state (cfg e)))) obs in
  _get_dones_locals e
  = Some {| dn_state := obs; dn_goal := goal_state (cfg e);
            dn_error_norm := norms;
            dn_success := map (λ n, R_ltb n (success_threshold (cfg e))) norms;
            dn_sustained_stability :=
              map (λ c, bool_decide (sustain_steps (cfg e) ≤ c)%Z) (_stable_count e);
            dn_time_out :=
              map (λ t, bool_decide (max_episode_length (sim e) - 1 ≤ t)%Z)
                  (episode_length_buf (sim e)) |}.
Proof.
  intros Hobs Hgoal obs norms. unfold _get_dones_locals.
  rewrite (get_observations_rows e si ei Hobs). cbn [mbind option_bind].
  rewrite lookup_singleton_eq. cbn [mbind option_bind].
  fold obs.
  rewrite sub_rows_total.
  - cbn [mbind option_bind]. unfold norm_last. rewrite map_map. done.
  - rewrite Hgoal. subst obs. apply Forall_forall. intros row Hin.
    apply list_elem_of_lookup in Hin as [i Hi].
    apply lookup_zip_with_Some in Hi as (p & v & -> & _ & _). done.
Qed.
End Done_facts.

(** C2.  [_get_dones] returns the same tensor as [dones] and as [time_outs]:
    entry [i] holds exactly when [episode_length_buf[i] >= max_episode_length - 1].
    The success and sustained predicates are computed and dropped, and the
    environment is left as it was. *)
Theorem dones_are_time_outs
    {Sim : Type} `{!Framework Sim} (e : Env Sim) (si ei : nat) :
  observation_shape e si ei → length (goal_state (cfg e)) = 4%nat →
  ∃ (L : DoneLocals) (d : list bool),
    _get_dones_locals e = Some L
    ∧ _get_dones e = Some (({["pendulum" := d]}, {["pendulum" := d]}), e)
    ∧ length (dn_success L) = length (joint_pos (robot_data e))
    ∧ length (dn_sustained_stability L) = length (_stable_count e)
    ∧ length d = length (episode_length_buf (sim e))
    ∧ ∀ (i : nat) (t : Z), episode_length_buf (sim e) !! i = Some t →
        ∃ b : bool, d !! i = Some b
          ∧ (b = true ↔ (t >= max_episode_length (sim e) - 1)%Z).
Proof.
  intros Hobs Hgoal.
  pose proof (get_dones_locals_shape e si ei Hobs Hgoal) as HL.
  cbv zeta in HL. eexists. eexists. split; [exact HL |].
  unfold _get_dones. rewrite HL. cbn [mbind option_bind dn_time_out].
  split; [reflexivity |].
  cbn [dn_success dn_sustained_stability].
  repeat split.
  - rewrite !length_map, length_zip_with, (os_rows _ _ _ Hobs). lia.
  - by rewrite length_map.
  - by rewrite length_map.
  - intros i t Ht. eexists. rewrite list_lookup_fmap, Ht. split; [done |].
    rewrite bool_decide_eq_true. lia.
Qed.

(** ** The claims on rewards *)

Lemma wrap32_small (z : Z) : (- 2 ^ 31 ≤ z < 2 ^ 31)%Z → wrap32 z = z.
Proof. intros Hz. unfold wrap32. rewrite Z.mod_small; lia. Qed.

(** C10.  In one call of [_get_rewards] the bonus and the counter follow the
    same test: with [c] the entry of [stable_condition] at row [i], the row's
    bonus is [bonus_reward] if [c] and 0 otherwise, it is added to the row's
    reward, and the row's counter becomes its successor (in int32) if [c] and
    0 otherwise. *)
Theorem bonus_agrees_with_stable_count
    {Sim : Type} `{!Framework Sim} (e : Env Sim) (si ei : nat)
    (act : list (list R)) (i : nat) (s : Z) :
  reward_shape e si ei act →
  _stable_count e !! i = Some s →
  ∃ (L : RewardLocals) (e' : Env Sim) (c : bool) (base : R),
    _get_rewards_locals e = Some L
    ∧ _get_rewards e = Some ({["pendulum" := rw_reward L]}, e')
    ∧ rw_stable_condition L !! i = Some c
    ∧ (c = true ↔ ∃ n, rw_error_norm L !! i = Some n
                       ∧ (n < success_threshold (cfg e))%R)
    ∧ rw_bonus L !! i = Some (if c then bonus_reward (cfg e) else 0%R)
    ∧ rw_base_reward L !! i = Some base
    ∧ rw_reward L !! i = Some (base + (if c then bonus_reward (cfg e) else 0))%R
    ∧ _stable_count e' !! i = Some (if c then wrap32 (s + 1) else 0%Z).
Proof.
  intros Hshape Hs.
  destruct (get_rewards_locals_shape e si ei act Hshape) as (L & HL & Heq).
  pose proof (rs_obs _ _ _ _ Hshape) as Hobs.
  assert (Hi : (i < length (joint_pos (robot_data e)))%nat).
  { rewrite <- (rs_count _ _ _ _ Hshape). by eapply lookup_lt_Some. }
  destruct (lookup_lt_is_Some_2 (joint_pos (robot_data e)) i Hi) as [p Hp].
  destruct (lookup_lt_is_Some_2 (joint_vel (robot_data e)) i) as [v Hv];
    [rewrite (os_rows _ _ _ Hobs); done |].
  destruct (lookup_lt_is_Some_2 act i) as [a Ha];
    [rewrite (rs_action_rows _ _ _ _ Hshape); done |].
  assert (Ho : zip_with (observation_row (cfg e) si ei)
                 (joint_pos (robot_data e)) (joint_vel (robot_data e)) !! i
               = Some (observation_row (cfg e) si ei p v))
    by (rewrite lookup_zip_with, Hp, Hv; done).
  destruct (reward_equations_row e _ act L i _ a s Heq Ho Ha Hs)
    as (_ & _ & E3 & E4 & E5 & E6 & _ & E8 & E9).
  eexists L, _, _, _. split; [exact HL |].
  split; [unfold _get_rewards; rewrite HL; reflexivity |].
  split; [exact E4 |].
  split.
  { rewrite R_ltb_true, E3. split.
    - intros Hlt. eexists. split; [reflexivity | exact Hlt].
    - intros (n & [= <-] & Hlt). exact Hlt. }
  split; [exact E5 |]. split; [exact E8 |]. split; [exact E9 |].
  exact E6.
Qed.

(** C4.  One call of [_get_rewards] updates the counter of row [i] from the
    row's own error norm: it goes up by exactly 1 when the norm is below
    [success_threshold] and becomes 0 otherwise.  [_get_dones] leaves the
    counters alone, so the update happens once per step.  The counter is an
    int32: the statement is for a counter below the largest int32. *)
Theorem stable_count_update
    {Sim : Type} `{!Framework Sim} (e : Env Sim) (si ei : nat)
    (act : list (list R)) (i : nat) (p v : list R) (s : Z) :
  reward_shape e si ei act →
  joint_pos (robot_data e) !! i = Some p →
  joint_vel (robot_data e) !! i = Some v →
  _stable_count e !! i = Some s →
  (- 2 ^ 31 ≤ s < 2 ^ 31 - 1)%Z →
  ∃ (r : gmap string (list R)) (e' : Env Sim)
    (d : gmap string (list bool) * gmap string (list bool)),
    _get_rewards e = Some (r, e')
    ∧ ((norm_row (error_row (cfg e) (observation_row (cfg e) si ei p v))
        < success_threshold (cfg e))%R
       → _stable_count e' !! i = Some (s + 1)%Z)
    ∧ (¬ (norm_row (error_row (cfg e) (observation_row (cfg e) si ei p v))
          < success_threshold (cfg e))%R
       → _stable_count e' !! i = Some 0%Z)
    ∧ length (_stable_count e') = length (_stable_count e)
    ∧ _get_dones e = Some (d, e).
Proof.
  intros Hshape Hp Hv Hs Hrange.
  destruct (get_rewards_locals_shape e si ei act Hshape) as (L & HL & Heq).
  pose proof (rs_obs _ _ _ _ Hshape) as Hobs.
  destruct (lookup_lt_is_Some_2 act i) as [a Ha].
  { rewrite (rs_action_rows _ _ _ _ Hshape). by eapply lookup_lt_Some. }
  assert (Ho : zip_with (observation_row (cfg e) si ei)
                 (joint_pos (robot_data e)) (joint_vel (robot_data e)) !! i
               = Some (observation_row (cfg e) si ei p v))
    by (rewrite lookup_zip_with, Hp, Hv; done).
  destruct (reward_equations_row e _ act L i _ a s Heq Ho Ha Hs)
    as (_ & _ & _ & _ & _ & E6 & _).
  destruct (reward_equations_length e _ act L Heq) as [_ Hlen].
  { rewrite length_zip_with, (os_rows _ _ _ Hobs),
      (rs_action_rows _ _ _ _ Hshape). lia. }
  { rewrite length_zip_with, (os_rows _ _ _ Hobs), (rs_count _ _ _ _ Hshape). lia. }
  pose proof (get_dones_locals_shape e si ei Hobs (rs_goal _ _ _ _ Hshape)) as Hd.
  cbv zeta in Hd.
  eexists _, _, _. unfold _get_rewards. rewrite HL. cbn [mbind option_bind].
  split; [reflexivity |]. cbn [set_stable_count _stable_count].
  rewrite E6. repeat split.
  - intros Hlt. apply R_ltb_true in Hlt. rewrite Hlt.
    rewrite wrap32_small; [done | lia].
  - intros Hnlt. apply R_ltb_false in Hnlt. by rewrite Hnlt.
  - rewrite Hlen, length_zip_with, (os_rows _ _ _ Hobs), (rs_count _ _ _ _ Hshape).
    lia.
  - unfold _get_dones. rewrite Hd. reflexivity.
Qed.

(** ** The counter along a run *)

Section Run_facts.
Context {Sim : Type} `{!Framework Sim}.

Lemma bcast2_Forall {A B C} (f : A → B → C) (Q : B → Prop) (Q' : C → Prop)
    xs ys zs :
  bcast2 f xs ys = Some zs →
  Forall Q ys → (∀ x y, Q y → Q' (f x y)) → Forall Q' zs.
Proof.
  intros Hb Hys Hf. unfold bcast2 in Hb.
  destruct (length xs =? length ys)%nat.
  - injection Hb as <-. clear -Hys Hf. revert xs.
    induction Hys as [| y ys Hy Hys IH]; intros [| x xs]; simpl;
      constructor; auto.
  - destruct (length xs =? 1)%nat.
    + destruct (head xs) as [x |]; [| done]. injection Hb as <-.
      apply Forall_fmap. eapply Forall_impl; [exact Hys |]. simpl. auto.
    + destruct (length ys =? 1)%nat; [| done].
      destruct ys as [| y ys]; [done |]. injection Hb as <-.
      apply Forall_cons in Hys as [Hy _].
      apply Forall_fmap, Forall_forall. simpl. auto.
Qed.

Lemma index_fill_Forall {A} (P : A → Prop) (t : list A) ids x t' :
  index_fill t ids x = Some t' → Forall P t → P x → Forall P t'.
Proof.
  revert t. induction ids as [| i ids IH]; intros t Hfill Ht Hx.
  - by injection Hfill as <-.
  - cbn [index_fill] in Hfill.
    destruct (resolve_index (length t) i) as [k |]; [| done].
    cbn [mbind option_bind] in Hfill.
    eapply IH; [exact Hfill | | done]. by apply Forall_insert.
Qed.

(** The binds of a successful computation, one after the other. *)
Ltac bind_inv H :=
  repeat match type of H with
         | (?x ≫= _) = Some _ =>
             let E := fresh "E" in
             destruct x eqn:E; [cbn [mbind option_bind] in H | discriminate H]
         end.

Lemma get_rewards_count (e : Env Sim) r e' :
  _get_rewards e = Some (r, e') →
  ∃ cond : list bool,
    bcast2 (λ (c : bool) s, if c then wrap32 (s + 1) else 0%Z)
           cond (_stable_count e)
    = Some (_stable_count e').
Proof.
  unfold _get_rewards. intros H.
  destruct (_get_rewards_locals e) as [L |] eqn:HL; [| done].
  cbn [mbind option_bind] in H. injection H as _ <-.
  unfold _get_rewards_locals in HL. bind_inv HL. injection HL as <-.
  cbn [set_stable_count _stable_count rw_stable_count]. eauto.
Qed.

Lemma apply_action_count (e e' : Env Sim) :
  _apply_action e = Some e' → _stable_count e' = _stable_count e.
Proof.
  unfold _apply_action. intros H.
  destruct (actions e !! "pendulum"); [| done]. cbn [mbind option_bind] in H.
  repeat (destruct (decide _) in H); bind_inv H; by injection H as <-.
Qed.

Lemma get_dones_count (e : Env Sim) d e' :
  _get_dones e = Some (d, e') → e' = e.
Proof.
  unfold _get_dones. intros H.
  destruct (_get_dones_locals e); [| done]. by injection H as _ <-.
Qed.

Lemma reset_idx_count (e : Env Sim) env_ids e' :
  _reset_idx env_ids e = Some e' →
  index_fill (_stable_count e) (default (robot_ALL_INDICES e) env_ids) 0%Z
  = Some (_stable_count e').
Proof.
  unfold _reset_idx. intros H. bind_inv H. by injection H as <-.
Qed.

(** After [n] calls of [_get_rewards], with [n] below 2^31, every counter is
    between 0 and [n]: the int32 has not wrapped around. *)
Lemma stable_count_bounded_from_init (n : nat) (e : Env Sim) :
  run n e → (Z.of_nat n < 2 ^ 31)%Z →
  Forall (λ s, (0 ≤ s ≤ Z.of_nat n)%Z) (_stable_count e).
Proof.
  induction 1 as [c rd al eo s | n e rd s Hrun IH | n e a Hrun IH
                 | n e e' Hrun IH Hstep | n e d e' Hrun IH Hstep
                 | n e r e' Hrun IH Hstep | n e ids e' Hrun IH Hstep];
    intros Hn.
  - cbn. apply Forall_replicate. lia.
  - by apply IH.
  - by apply IH.
  - rewrite (apply_action_count _ _ Hstep). by apply IH.
  - rewrite (get_dones_count _ _ _ Hstep). by apply IH.
  - destruct (get_rewards_count _ _ _ Hstep) as [cond Hcond].
    eapply bcast2_Forall; [exact Hcond | apply IH; lia |].
    intros [] s Hs; cbn beta iota; [| lia].
    rewrite wrap32_small; lia.
  - eapply index_fill_Forall;
      [exact (reset_idx_count _ _ _ Hstep) | by apply IH | lia].
Qed.

(** So the counters met in the first 2^31 − 2 steps are in the range where
    adding 1 is exact. *)
Lemma stable_count_in_range (n : nat) (e : Env Sim) (i : nat) (s : Z) :
  run n e → (Z.of_nat n < 2 ^ 31 - 1)%Z → _stable_count e !! i = Some s →
  (- 2 ^ 31 ≤ s < 2 ^ 31 - 1)%Z.
Proof.
  intros Hrun Hn Hs.
  assert (Hb := stable_count_bounded_from_init n e Hrun ltac:(lia)).
  pose proof (Forall_lookup_1 _ _ _ _ Hb Hs) as H. simpl in H. lia.
Qed.

(** At the largest int32 the following increment wraps around. *)
Lemma stable_count_wraps_at_max : wrap32 (2147483647 + 1) = (-2147483648)%Z.
Proof. reflexivity. Qed.
End Run_facts.

(** C9.  The reward is a function of the observation batch, the action
    batch, the configuration and the counter: two environments that agree on
    these return the same rewards and the same new counters, whatever their
    joint states, the state of the simulator (its random generator, its
    episode counters) and the other buffers are. *)
Theorem rewards_deterministic
    {Sim : Type} `{!Framework Sim} (e1 e2 : Env Sim) :
  cfg e1 = cfg e2 →
  _get_observations e1 = _get_observations e2 →
  actions e1 !! "pendulum" = actions e2 !! "pendulum" →
  _stable_count e1 = _stable_count e2 →
  fst <$> _get_rewards e1 = fst <$> _get_rewards e2
  ∧ (_stable_count ∘ snd) <$> _get_rewards e1
    = (_stable_count ∘ snd) <$> _get_rewards e2
  ∧ (sim ∘ snd) <$> _get_rewards e1 = (λ _, sim e1) <$> _get_rewards e2.
Proof.
  intros Hcfg Hobs Hact Hcount.
  assert (HL : _get_rewards_locals e1 = _get_rewards_locals e2).
  { unfold _get_rewards_locals. by rewrite Hcfg, Hobs, Hact, Hcount. }
  unfold _get_rewards. rewrite HL.
  destruct (_get_rewards_locals e2); done.
Qed.

(** C1 (as amended).  In [_get_rewards] the first two entries of the goal
    are normalized, into [-π, π), before the error is computed, the other
    entries are kept, and the error is the observation minus this goal. *)
Theorem reward_error_uses_normalized_goal
    {Sim : Type} `{!Framework Sim} (e : Env Sim) (si ei : nat)
    (act : list (list R)) :
  reward_shape e si ei act →
  ∃ (L : RewardLocals) (obs : list (list R)),
    _get_rewards_locals e = Some L
    ∧ _get_observations e = Some {["pendulum" := obs]}
    ∧ (∀ k : nat, (k < 2)%nat →
         rw_goal_tensor L !! k = normalize_angle <$> goal_state (cfg e) !! k)
    ∧ (∀ (k : nat) (g : R), (k < 2)%nat → rw_goal_tensor L !! k = Some g →
         (- PI <= g < PI)%R)
    ∧ (∀ k : nat, (2 ≤ k)%nat → rw_goal_tensor L !! k = goal_state (cfg e) !! k)
    ∧ rw_error L = map (λ o, zip_with Rminus o (rw_goal_tensor L)) obs
    ∧ rw_error_norm L = map norm_row (rw_error L).
Proof.
  intros Hshape.
  destruct (get_rewards_locals_shape e si ei act Hshape) as (L & HL & Heq).
  pose proof (rs_goal _ _ _ _ Hshape) as Hgoal.
  destruct (goal_state (cfg e)) as [| g0 [| g1 [| g2 [| g3 [| ? ?]]]]] eqn:Hg;
    try done.
  assert (HG : rw_goal_tensor L = [normalize_angle g0; normalize_angle g1; g2; g3]).
  { rewrite (re_goal_tensor _ _ _ _ Heq). unfold normalized_goal. by rewrite Hg. }
  eexists L, _. split; [exact HL |].
  split; [exact (get_observations_rows e si ei (rs_obs _ _ _ _ Hshape)) |].
  rewrite HG. refine (conj _ (conj _ (conj _ (conj _ _)))).
  - intros [| [| k]] Hk; (done || lia).
  - intros [| [| k]] x Hk Hx; simpl in Hx; try lia;
      injection Hx as <-; apply normalize_angle_range.
  - intros [| [| k]] Hk; (done || lia).
  - rewrite (re_error _ _ _ _ Heq). unfold error_row, normalized_goal.
    by rewrite Hg.
  - exact (re_error_norm _ _ _ _ Heq).
Qed.

Section Goal_row.
Local Open Scope R_scope.

Lemma norm_row_zero : norm_row [0; 0; 0; 0] = 0.
Proof.
  unfold norm_row. simpl.
  replace (0 * 0 + (0 * 0 + (0 * 0 + (0 * 0 + 0)))) with 0 by lra.
  apply sqrt_0.
Qed.

Lemma quad_sum_zero Q : quad_sum 4 4 [0; 0; 0; 0] Q [0; 0; 0; 0] = 0.
Proof. unfold quad_sum, bnth. simpl. lra. Qed.

Lemma shaping_zero :
  sum_list (map (λ d, 1 - tanh d) (map Rabs (take 2 [0; 0; 0; 0]))) = 2.
Proof. simpl. rewrite Rabs_R0, tanh_0. lra. Qed.

Lemma singleton_pendulum_inj {A} (x y : A) :
  Some ({["pendulum" := x]} : gmap string A) = Some {["pendulum" := y]} → x = y.
Proof.
  intros Heq. apply (inj Some) in Heq.
  apply (f_equal (λ m : gmap string A, m !! "pendulum")) in Heq.
  rewrite !lookup_singleton_eq in Heq. congruence.
Qed.
End Goal_row.

(** The reward of a row that sits on the default goal. *)
Lemma goal_row_reward
    {Sim : Type} `{!Framework Sim} (e : Env Sim) (si ei : nat)
    (act obs : list (list R)) (i : nat) (a : list R) :
  reward_shape e si ei act →
  goal_state (cfg e) = [- PI; 0; 0; 0]%R →
  reward_state_weights (cfg e) = [1; 2; 0.1; 0.1]%R →
  (0 < success_threshold (cfg e))%R →
  _get_observations e = Some {["pendulum" := obs]} →
  obs !! i = Some [- PI; 0; 0; 0]%R →
  act !! i = Some a →
  ∃ (L : RewardLocals) (sh : list R),
    _get_rewards_locals e = Some L
    ∧ _get_rewards e
      = Some ({["pendulum" := rw_reward L]}, set_stable_count e (rw_stable_count L))
    ∧ rw_error L !! i = Some [0; 0; 0; 0]%R
    ∧ rw_state_cost L !! i = Some 0%R
    ∧ rw_bonus L !! i = Some (bonus_reward (cfg e))
    ∧ rw_angle_shaping L !! i = Some sh
    ∧ (sum_list sh * 0.01 = 2 * (1 - tanh 0) * 0.01)%R
    ∧ (sum_list sh * 0.01 = 0.02)%R
    ∧ rw_reward L !! i
      = Some (- (reward_scale (cfg e)
                 * (reward_action_weight (cfg e) * sum_list (map (λ x, x * x) a)))
              - time_penalty (cfg e) + 0.02 + bonus_reward (cfg e))%R.
Proof.
  intros Hshape Hgoal Hw Hthr Hobs Ho Ha.
  destruct (get_rewards_locals_shape e si ei act Hshape) as (L & HL & Heq).
  pose proof (get_observations_rows e si ei (rs_obs _ _ _ _ Hshape)) as Hobs'.
  rewrite Hobs in Hobs'. apply singleton_pendulum_inj in Hobs'. subst obs.
  destruct (lookup_lt_is_Some_2 (_stable_count e) i) as [s Hs].
  { rewrite (rs_count _ _ _ _ Hshape), <- (rs_action_rows _ _ _ _ Hshape).
    by eapply lookup_lt_Some. }
  destruct (reward_equations_row e _ act L i _ a s Heq Ho Ha Hs)
    as (E1 & E2 & E3 & E4 & E5 & _ & E7 & _ & E9).
  assert (Herr : error_row (cfg e) [- PI; 0; 0; 0]%R = [0; 0; 0; 0]%R).
  { unfold error_row, normalized_goal. rewrite Hgoal. simpl.
    rewrite normalize_angle_neg_PI, normalize_angle_0.
    repeat f_equal; lra. }
  rewrite Herr in *. rewrite quad_sum_zero in *. rewrite norm_row_zero in *.
  assert (Hc : R_ltb 0 (success_threshold (cfg e)) = true)
    by (by apply R_ltb_true).
  rewrite Hc in *. rewrite shaping_zero in E9.
  eexists L, _. split; [exact HL |].
  split; [unfold _get_rewards; rewrite HL; reflexivity |].
  split; [exact E1 |]. split; [exact E2 |].
  split; [exact E5 |]. split; [exact E7 |].
  rewrite shaping_zero, tanh_0. split; [lra |]. split; [lra |].
  rewrite E9. f_equal. lra.
Qed.

(** C6 (as amended).  With goal [-π, 0, 0, 0], weights [1, 2, 0.1, 0.1] and a
    positive [success_threshold], a row whose observation equals the goal
    has error [0, 0, 0, 0], state cost 0, bonus [bonus_reward] and angle
    shaping 2·(1 − tanh 0)·0.01 = 0.02; its reward is
    −reward_scale·reward_action_weight·Σ action² − time_penalty + 0.02
    + bonus_reward. *)
Theorem reward_at_goal
    {Sim : Type} `{!Framework Sim} (e : Env Sim) (si ei : nat)
    (act obs : list (list R)) (i : nat) (a : list R) :
  reward_shape e si ei act →
  goal_state (cfg e) = [- PI; 0; 0; 0]%R →
  reward_state_weights (cfg e) = [1; 2; 0.1; 0.1]%R →
  (0 < success_threshold (cfg e))%R →
  _get_observations e = Some {["pendulum" := obs]} →
  obs !! i = Some [- PI; 0; 0; 0]%R →
  act !! i = Some a →
  ∃ (L : RewardLocals) (sh : list R),
    _get_rewards_locals e = Some L
    ∧ _get_rewards e
      = Some ({["pendulum" := rw_reward L]}, set_stable_count e (rw_stable_count L))
    ∧ rw_error L !! i = Some [0; 0; 0; 0]%R
    ∧ rw_state_cost L !! i = Some 0%R
    ∧ rw_bonus L !! i = Some (bonus_reward (cfg e))
    ∧ rw_angle_shaping L !! i = Some sh
    ∧ (sum_list sh * 0.01 = 2 * (1 - tanh 0) * 0.01)%R
    ∧ (sum_list sh * 0.01 = 0.02)%R
    ∧ rw_reward L !! i
      = Some (- (reward_scale (cfg e)
                 * (reward_action_weight (cfg e) * sum_list (map (λ x, x * x) a)))
              - time_penalty (cfg e) + 0.02 + bonus_reward (cfg e))%R.
Proof. apply goal_row_reward. Qed.

(** ** Reset *)

Section Index_facts.
Local Open Scope R_scope.

Lemma resolve_index_in_range (n : nat) (i : Z) :
  (0 ≤ i < Z.of_nat n)%Z → resolve_index n i = Some (Z.to_nat i).
Proof. intros Hi. unfold resolve_index. by rewrite decide_True. Qed.

Lemma index_rows_total {A} (P : A → Prop) (t : list A) (ids : list Z) :
  Forall (λ i, (0 ≤ i < Z.of_nat (length t))%Z) ids → Forall P t →
  ∃ rows, index_rows t ids = Some rows
    ∧ length rows = length ids ∧ Forall P rows.
Proof.
  intros Hids HP. unfold index_rows.
  induction Hids as [| i ids Hi Hids IH].
  - exists []. done.
  - destruct IH as (rows & Hrows & Hlen & Hall).
    destruct (lookup_lt_is_Some_2 t (Z.to_nat i)) as [x Hx]; [lia |].
    exists (x :: rows). cbn [mapM]. rewrite resolve_index_in_range by done.
    cbn [mbind option_bind]. rewrite Hx. cbn [mbind option_bind].
    rewrite Hrows. cbn [mbind option_bind mret option_ret].
    split; [done |]. split; [simpl; lia |].
    constructor; [| done].
    exact (Forall_lookup_1 P t _ _ HP Hx).
Qed.

Lemma foldl_insert_length {A} (row : list A) (cvs : list (nat * A)) :
  length (foldl (λ r cv, <[cv.1 := cv.2]> r) row cvs) = length row.
Proof.
  revert row. induction cvs as [| cv cvs IH]; intros row; simpl; [done |].
  by rewrite IH, length_insert.
Qed.

Lemma iadd_cols_row_total (w : nat) (row : list R) (cols : list nat) (s : list R) :
  length row = w → Forall (λ c, (c < w)%nat) cols → length s = length cols →
  ∃ row', iadd_cols_row row cols s = Some row' ∧ length row' = w.
Proof.
  intros Hrow Hcols Hs. unfold iadd_cols_row.
  destruct (mapM (λ c, row !! c) cols) as [tmp |] eqn:Htmp.
  - cbn [mbind option_bind].
    rewrite iadd_same_length
      by (apply length_mapM in Htmp; lia).
    cbn [mbind option_bind]. eexists. split; [done |].
    by rewrite foldl_insert_length.
  - apply mapM_None_1, Exists_exists in Htmp as (c & Hc & Hnone).
    rewrite Forall_forall in Hcols. specialize (Hcols c Hc).
    apply lookup_ge_None_1 in Hnone. lia.
Qed.

Lemma iadd_cols_total (w : nat) (t : list (list R)) (cols : list nat)
    (s : list (list R)) :
  Forall (λ row : list R, length row = w) t →
  Forall (λ c, (c < w)%nat) cols →
  length s = length t →
  Forall (λ row : list R, length row = length cols) s →
  ∃ t', iadd_cols t cols s = Some t'
    ∧ length t' = length t ∧ Forall (λ row : list R, length row = w) t'.
Proof.
  intros Ht Hcols Hlen Hs. unfold iadd_cols.
  rewrite expand_same_length by done. cbn [mbind option_bind].
  revert s Hlen Hs. induction Ht as [| row t Hrow Ht IH]; intros s Hlen Hs.
  - destruct s; [| done]. exists []. done.
  - destruct s as [| srow s]; [done |].
    apply Forall_cons in Hs as [Hsrow Hs].
    destruct (IH s) as (t' & Ht' & Hlen' & Hw'); [simpl in Hlen; lia | done |].
    destruct (iadd_cols_row_total w row cols srow) as (row' & Hrow' & Hw);
      try done.
    exists (row' :: t'). cbn [zip zip_with mapM fst snd].
    rewrite Hrow'. cbn [mbind option_bind].
    rewrite Ht'. cbn [mbind option_bind mret option_ret].
    split; [done |]. split; [simpl; lia |]. by constructor.
Qed.

Lemma iadd_prefix_total (k : nat) (t s : list (list R)) :
  Forall (λ row : list R, (k ≤ length row)%nat) t →
  length s = length t →
  Forall (λ row : list R, length row = k) s →
  ∃ t', iadd_prefix k t s = Some t' ∧ length t' = length t.
Proof.
  intros Ht Hlen Hs. unfold iadd_prefix.
  rewrite expand_same_length by done. cbn [mbind option_bind].
  revert s Hlen Hs. induction Ht as [| row t Hrow Ht IH]; intros s Hlen Hs.
  - destruct s; [| done]. exists []. done.
  - destruct s as [| srow s]; [done |].
    apply Forall_cons in Hs as [Hsrow Hs].
    destruct (IH s) as (t' & Ht' & Hlen'); [simpl in Hlen; lia | done |].
    eexists (_ :: t'). cbn [zip zip_with mapM fst snd].
    rewrite iadd_same_length by (rewrite length_take; lia).
    cbn [mbind option_bind].
    rewrite Ht'. cbn [mbind option_bind mret option_ret].
    split; [done |]. simpl; lia.
Qed.

Lemma index_put_loop_frame (w : nat) (t : list (list R)) (ids : list Z)
    (vals : list (list R)) :
  Forall (λ i, (0 ≤ i < Z.of_nat (length t))%Z) ids →
  length vals = length ids →
  Forall (λ row : list R, length row = w) vals →
  Forall (λ row : list R, length row = w) t →
  ∃ t', index_put_loop t ids vals = Some t'
    ∧ length t' = length t
    ∧ ∀ j : nat, Z.of_nat j ∉ ids → t' !! j = t !! j.
Proof.
  revert t vals. induction ids as [| i ids IH]; intros t vals Hids Hlen Hvals Ht.
  - exists t. done.
  - destruct vals as [| v vals]; [done |].
    apply Forall_cons in Hids as [Hi Hids].
    apply Forall_cons in Hvals as [Hv Hvals].
    destruct (lookup_lt_is_Some_2 t (Z.to_nat i)) as [old Hold]; [lia |].
    assert (Hw : length old = w) by exact (Forall_lookup_1 _ t _ _ Ht Hold).
    destruct (IH (<[Z.to_nat i := v]> t) vals) as (t' & Ht' & Hlen' & Hframe).
    + by rewrite length_insert.
    + simpl in Hlen. lia.
    + done.
    + by apply Forall_insert.
    + exists t'. cbn [index_put_loop].
      rewrite resolve_index_in_range by done. cbn [mbind option_bind].
      rewrite Hold. cbn [mbind option_bind].
      rewrite expand_same_length by congruence. cbn [mbind option_bind].
      split; [done |]. split; [by rewrite Hlen', length_insert |].
      intros j Hj. apply not_elem_of_cons in Hj as [Hne Hnin].
      rewrite Hframe by done.
      apply list_lookup_insert_ne. intros Heq. apply Hne.
      rewrite <- Heq, Z2Nat.id by lia. done.
Qed.

Lemma index_put_rows_frame (w : nat) (t : list (list R)) (ids : list Z)
    (vals : list (list R)) :
  Forall (λ i, (0 ≤ i < Z.of_nat (length t))%Z) ids →
  length vals = length ids →
  Forall (λ row : list R, length row = w) vals →
  Forall (λ row : list R, length row = w) t →
  ∃ t', index_put_rows t ids vals = Some t'
    ∧ length t' = length t
    ∧ ∀ j : nat, Z.of_nat j ∉ ids → t' !! j = t !! j.
Proof.
  intros Hids Hlen Hvals Ht. unfold index_put_rows.
  rewrite expand_same_length by done. cbn [mbind option_bind].
  by apply (index_put_loop_frame w).
Qed.

Lemma index_fill_frame {A} (t : list A) (ids : list Z) (x : A) :
  Forall (λ i, (0 ≤ i < Z.of_nat (length t))%Z) ids →
  ∃ t', index_fill t ids x = Some t'
    ∧ length t' = length t
    ∧ (∀ j : nat, Z.of_nat j ∉ ids → t' !! j = t !! j)
    ∧ (∀ j : nat, Z.of_nat j ∈ ids → (j < length t)%nat → t' !! j = Some x).
Proof.
  revert t. induction ids as [| i ids IH]; intros t Hids.
  - exists t. repeat split; try done. intros j Hj.
    by apply elem_of_nil in Hj.
  - apply Forall_cons in Hids as [Hi Hids].
    destruct (IH (<[Z.to_nat i := x]> t)) as (t' & Ht' & Hlen' & Hframe & Hset).
    { by rewrite length_insert. }
    exists t'. cbn [index_fill].
    rewrite resolve_index_in_range by done. cbn [mbind option_bind].
    split; [done |]. split; [by rewrite Hlen', length_insert |]. split.
    + intros j Hj. apply not_elem_of_cons in Hj as [Hne Hnin].
      rewrite Hframe by done.
      apply list_lookup_insert_ne. intros Heq. apply Hne.
      rewrite <- Heq, Z2Nat.id by lia. done.
    + intros j Hj Hlt.
      destruct (decide (Z.of_nat j ∈ ids)) as [Hin | Hnin].
      * apply Hset; [done | by rewrite length_insert].
      * rewrite Hframe by done.
        apply elem_of_cons in Hj as [Hij | Hin]; [| done].
        rewrite <- Hij, Nat2Z.id. by apply list_lookup_insert_eq.
Qed.
End Index_facts.

Section Base_reset_facts.
Context {Sim : Type} `{!Framework Sim}.


(** The base class reset returns on indices of the environments. *)
Lemma call_super_reset_idx_in_range (e : Env Sim) (ids : list Z) :
  Forall (λ i, (0 ≤ i < Z.of_nat (length (joint_pos (robot_data e))))%Z) ids →
  call_super_reset_idx ids e = Some (super_reset_idx ids (sim e)).
Proof.
  intros Hids. unfold call_super_reset_idx.
  rewrite (mapM_total _ Z.to_nat); [done |].
  eapply Forall_impl; [exact Hids |].
  intros i Hi. by apply resolve_index_in_range.
Qed.

End Base_reset_facts.

(** C5.  For row indices within [0, N), [_reset_idx] returns, and every row
    that is not selected keeps its [joint_pos], its [joint_vel] and its
    [_stable_count]; the counters of the selected rows are 0. *)
Theorem reset_leaves_other_rows
    {Sim : Type} `{!Framework Sim} (e : Env Sim) (env_ids : option (list Z))
    (w : nat) :
  sample_uniform_shaped →
  reset_shape e w →
  Forall (λ i, (0 ≤ i < Z.of_nat (length (joint_pos (robot_data e))))%Z)
         (default (robot_ALL_INDICES e) env_ids) →
  ∃ e' : Env Sim,
    _reset_idx env_ids e = Some e'
    ∧ length (joint_pos (robot_data e')) = length (joint_pos (robot_data e))
    ∧ length (joint_vel (robot_data e')) = length (joint_vel (robot_data e))
    ∧ length (_stable_count e') = length (_stable_count e)
    ∧ (∀ j : nat, Z.of_nat j ∉ default (robot_ALL_INDICES e) env_ids →
         joint_pos (robot_data e') !! j = joint_pos (robot_data e) !! j
         ∧ joint_vel (robot_data e') !! j = joint_vel (robot_data e) !! j
         ∧ _stable_count e' !! j = _stable_count e !! j)
    ∧ (∀ j : nat, Z.of_nat j ∈ default (robot_ALL_INDICES e) env_ids →
         _stable_count e' !! j = Some 0%Z).
Proof.
  intros Hsample Hshape Hids.
  destruct Hshape as [Hvel Hdpos Hdvel Hroot Horig Hcount Hposw Hvelw Hdposw
    Hdvelw Hsh Hel Hrootw Horigw Hshr Helr].
  unfold _reset_idx. set (ids := default (robot_ALL_INDICES e) env_ids) in *.
  rewrite (call_super_reset_idx_in_range e ids Hids). cbn [mbind option_bind].
  destruct (index_rows_total (λ row : list R, length row = w)
              (default_joint_pos (robot_data e)) ids)
    as (jp0 & -> & Hjp0len & Hjp0w); [by rewrite Hdpos | done |].
  cbn [mbind option_bind].
  destruct (lookup_lt_is_Some_2 (initial_shoulder_angle_range (cfg e)) 0)
    as [lo ->]; [lia |].
  destruct (lookup_lt_is_Some_2 (initial_shoulder_angle_range (cfg e)) 1)
    as [hi ->]; [lia |].
  cbn [mbind option_bind].
  match goal with |- context [sample_uniform ?a ?b ?n ?m ?s] =>
    destruct (Hsample a b n m s) as [Hu1 Hu1w];
    set (us := sample_uniform a b n m s) in *
  end.
  destruct (iadd_cols_total w jp0 (_shoulder_dof_idx e) us.1)
    as (jp1 & -> & Hjp1len & Hjp1w); try done.
  cbn [mbind option_bind].
  destruct (lookup_lt_is_Some_2 (initial_elbow_angle_range (cfg e)) 0)
    as [lo' ->]; [lia |].
  destruct (lookup_lt_is_Some_2 (initial_elbow_angle_range (cfg e)) 1)
    as [hi' ->]; [lia |].
  cbn [mbind option_bind].
  match goal with |- context [sample_uniform ?a ?b ?n ?m ?s] =>
    destruct (Hsample a b n m s) as [Hu2 Hu2w];
    set (us' := sample_uniform a b n m s) in *
  end.
  destruct (iadd_cols_total w jp1 (_elbow_dof_idx e) us'.1)
    as (jp2 & -> & Hjp2len & Hjp2w); try done.
  cbn [mbind option_bind].
  destruct (index_rows_total (λ row : list R, length row = w)
              (default_joint_vel (robot_data e)) ids)
    as (jv0 & -> & Hjv0len & Hjv0w); [by rewrite Hdvel | done |].
  cbn [mbind option_bind].
  destruct (index_rows_total (λ row : list R, (3 ≤ length row)%nat)
              (default_root_state (robot_data e)) ids)
    as (root0 & -> & Hroot0len & Hroot0w); [by rewrite Hroot | done |].
  cbn [mbind option_bind].
  destruct (index_rows_total (λ row : list R, length row = 3%nat)
              (scene_env_origins e) ids)
    as (orig & -> & Horiglen & Horigw'); [by rewrite Horig | done |].
  cbn [mbind option_bind].
  destruct (iadd_prefix_total 3 root0 orig)
    as (root1 & -> & Hroot1len); [done | lia | done |].
  cbn [mbind option_bind].
  destruct (index_put_rows_frame w (joint_pos (robot_data e)) ids jp2)
    as (pos' & -> & Hpos'len & Hpos'frame); [done | lia | done | done |].
  cbn [mbind option_bind].
  destruct (index_put_rows_frame w (joint_vel (robot_data e)) ids jv0)
    as (vel' & -> & Hvel'len & Hvel'frame);
    [by rewrite Hvel | lia | done | done |].
  cbn [mbind option_bind].
  destruct (index_fill_frame (_stable_count e) ids 0%Z)
    as (count' & -> & Hcount'len & Hcount'frame & Hcount'set);
    [by rewrite Hcount |].
  cbn [mbind option_bind].
  eexists. split; [reflexivity |].
  cbn [robot_data joint_pos joint_vel _stable_count].
  repeat split; try done.
  - by apply Hpos'frame.
  - by apply Hvel'frame.
  - by apply Hcount'frame.
  - intros j Hin. apply Hcount'set; [done |].
    rewrite Forall_forall in Hids. specialize (Hids _ Hin). lia.
Qed.

(** ** Actions *)

(** On every framework [_apply_action] scales the batch by [torque_scale]
    and hands it to [set_joint_effort_target], for the elbow joint (acrobot),
    the shoulder joint (pendubot) or all joints (double_pendulum), and raises
    exactly when that call raises; with any other [robot_type] it does
    nothing. *)
Lemma apply_action_forwards
    {Sim : Type} `{!Framework Sim} (e : Env Sim) (a : list (list R)) :
  actions e !! "pendulum" = Some a →
  (robot_type (cfg e) = "acrobot" →
     _apply_action e
     = set_sim e <$> set_joint_effort_target
                       (tmap2 (λ x, x * torque_scale (cfg e))%R a)
                       (Some (_elbow_dof_idx e)) (sim e))
  ∧ (robot_type (cfg e) = "pendubot" →
     _apply_action e
     = set_sim e <$> set_joint_effort_target
                       (tmap2 (λ x, x * torque_scale (cfg e))%R a)
                       (Some (_shoulder_dof_idx e)) (sim e))
  ∧ (robot_type (cfg e) = "double_pendulum" →
     _apply_action e
     = set_sim e <$> set_joint_effort_target
                       (tmap2 (λ x, x * torque_scale (cfg e))%R a)
                       None (sim e))
  ∧ (robot_type (cfg e) ≠ "acrobot" → robot_type (cfg e) ≠ "pendubot" →
     robot_type (cfg e) ≠ "double_pendulum" → _apply_action e = Some e).
Proof.
  intros Ha. unfold _apply_action. rewrite Ha. cbn [mbind option_bind].
  repeat split.
  - intros ->. rewrite decide_True by done.
    by destruct (set_joint_effort_target _ _ _).
  - intros ->. rewrite decide_False, decide_True by done.
    by destruct (set_joint_effort_target _ _ _).
  - intros ->. rewrite !decide_False, decide_True by done.
    by destruct (set_joint_effort_target _ _ _).
  - intros H1 H2 H3. by rewrite !decide_False.
Qed.


(** On the example simulator the single-joint mode does reject a batch of
    width 2: the error is the shape error of the indexed assignment in
    [set_joint_effort_target], not a check of the environment. *)
Lemma apply_action_rejects_width_2 :
  robot_type (cfg example_env_wide) = "acrobot"
  ∧ _apply_action example_env_wide = None.
Proof. split; [reflexivity |]. unfold _apply_action. cbn. reflexivity. Qed.

Section Effort_target_facts.
Local Open Scope R_scope.




End Effort_target_facts.


(** ** The example environments *)

Lemma example_env_observation_shape : observation_shape example_env 0 1.
Proof. constructor; first [reflexivity | repeat constructor]. Qed.

Lemma example_env_reward_shape :
  reward_shape example_env 0 1 [[2]; [0]]%R.
Proof.
  constructor; try reflexivity. apply example_env_observation_shape.
Qed.

Lemma example_env_pi_reward_shape :
  reward_shape example_env_pi 0 1 [[0]]%R.
Proof.
  constructor; try reflexivity.
  constructor; first [reflexivity | repeat constructor].
Qed.

Lemma example_env_reset_shape : reset_shape example_env 2.
Proof. constructor; try reflexivity; repeat constructor. Qed.

Lemma torch_sample_uniform_shaped : sample_uniform_shaped (Sim := TorchSim).
Proof.
  intros lower upper n m s. cbn. split.
  - by rewrite length_map, length_seq.
  - apply Forall_forall. intros row Hrow.
    apply list_elem_of_fmap in Hrow as (i & -> & _).
    by rewrite length_map, length_seq.
Qed.

Lemma clamp_zero (m : R) : clamp (0 / m) (-1) 1 = 0%R.
Proof.
  unfold Rdiv. rewrite Rmult_0_l. unfold clamp, Rmin, Rmax.
  repeat destruct (Rle_dec _ _); lra.
Qed.

Lemma observation_row_at_goal c :
  observation_row c 0 1 [- PI; 0]%R [0; 0]%R = [- PI; 0; 0; 0]%R.
Proof.
  unfold observation_row. simpl.
  by rewrite normalize_angle_neg_PI, normalize_angle_0, clamp_zero.
Qed.

Lemma observation_row_at_PI c :
  observation_row c 0 1 [PI; 0]%R [0; 0]%R = [- PI; 0; 0; 0]%R.
Proof.
  unfold observation_row. simpl.
  by rewrite normalize_angle_PI, normalize_angle_0, clamp_zero.
Qed.

Lemma example_env_observations :
  _get_observations example_env
  = Some {["pendulum" :=
             [[- PI; 0; 0; 0]%R;
              observation_row default_cfg 0 1 [1; 2]%R [10; -3]%R]]}.
Proof.
  rewrite (get_observations_rows _ 0 1 example_env_observation_shape).
  cbn [example_env _pre_physics_step set_actions __init__ cfg robot_data
       example_data joint_pos joint_vel zip_with].
  by rewrite observation_row_at_goal.
Qed.

Lemma example_env_pi_observations :
  _get_observations example_env_pi = Some {["pendulum" := [[- PI; 0; 0; 0]%R]]}.
Proof.
  rewrite (get_observations_rows _ 0 1 (rs_obs _ _ _ _ example_env_pi_reward_shape)).
  cbn [example_env_pi _pre_physics_step set_actions __init__ cfg robot_data
       joint_pos joint_vel zip_with].
  by rewrite observation_row_at_PI.
Qed.

Lemma norm_row_first (a : R) : norm_row [a; 0; 0; 0]%R = Rabs a.
Proof.
  unfold norm_row. simpl.
  replace (a * a + (0 * 0 + (0 * 0 + (0 * 0 + 0))))%R with (Rsqr a)
    by (unfold Rsqr; lra).
  apply sqrt_Rsqr_abs.
Qed.

(** C1, counterexample.  With the goal configured as [π, 0, 0, 0] and a row
    at rest at the angle π: the normalized goal angle is -π, outside (-π, π];
    and [_get_dones] takes its error against the goal as configured, so on
    the one observation the error norm is 0 in [_get_rewards] (the row counts
    as stable) and 2π in [_get_dones] (no success). *)
Lemma dones_error_uses_raw_goal :
  ∃ (L : RewardLocals) (D : DoneLocals),
    _get_rewards_locals example_env_pi = Some L
    ∧ _get_dones_locals example_env_pi = Some D
    ∧ rw_state L = [[- PI; 0; 0; 0]%R] ∧ dn_state D = [[- PI; 0; 0; 0]%R]
    ∧ rw_goal_tensor L = [- PI; 0; 0; 0]%R
    ∧ ¬ (∀ g : R, rw_goal_tensor L !! 0%nat = Some g → (- PI < g <= PI)%R)
    ∧ dn_goal D = [PI; 0; 0; 0]%R
    ∧ rw_error_norm L = [0%R] ∧ dn_error_norm D = [(2 * PI)%R]
    ∧ dn_error_norm D ≠ rw_error_norm L
    ∧ rw_stable_condition L = [true] ∧ dn_success D = [false].
Proof.
  pose proof PI_RGT_0 as Hpi.
  destruct (get_rewards_locals_shape _ 0 1 _ example_env_pi_reward_shape)
    as (L & HL & Heq).
  pose proof (get_dones_locals_shape example_env_pi 0 1
                (rs_obs _ _ _ _ example_env_pi_reward_shape) eq_refl) as HD.
  cbv zeta in HD.
  cbn [example_env_pi _pre_physics_step set_actions __init__ cfg robot_data
       joint_pos joint_vel zip_with] in Heq, HD.
  rewrite observation_row_at_PI in Heq, HD.
  assert (HG : rw_goal_tensor L = [- PI; 0; 0; 0]%R).
  { rewrite (re_goal_tensor _ _ _ _ Heq). unfold normalized_goal. cbn.
    by rewrite normalize_angle_PI, normalize_angle_0. }
  assert (Hn : rw_error_norm L = [0%R]).
  { rewrite (re_error_norm _ _ _ _ Heq), (re_error _ _ _ _ Heq).
    unfold error_row. rewrite <- (re_goal_tensor _ _ _ _ Heq), HG. cbn.
    f_equal. replace (- PI - - PI)%R with 0%R by lra.
    replace (0 - 0)%R with 0%R by lra. apply norm_row_zero. }
  assert (Hdn : map (λ o : list R,
                  norm_row (zip_with Rminus o
                     (goal_state (with_goal_state [PI; 0; 0; 0]%R default_cfg))))
                  [[- PI; 0; 0; 0]%R] = [(2 * PI)%R]).
  { cbn. f_equal. replace (0 - 0)%R with 0%R by lra.
    rewrite norm_row_first, Rabs_left by lra. lra. }
  rewrite Hdn in HD.
  eexists L, _. split; [exact HL |]. split; [exact HD |].
  cbn [dn_state dn_goal dn_error_norm dn_success].
  split; [exact (re_state _ _ _ _ Heq) |]. split; [reflexivity |].
  split; [exact HG |].
  split.
  { rewrite HG. intros H. specialize (H _ eq_refl). lra. }
  split; [reflexivity |]. split; [exact Hn |]. split; [reflexivity |].
  split.
  { rewrite Hn. intros [= H]. lra. }
  split.
  - rewrite (re_stable_condition _ _ _ _ Heq), Hn. cbn. f_equal.
    apply R_ltb_true. lra.
  - cbn. f_equal. apply R_ltb_false. pose proof PI2_1. lra.
Qed.

(** C6, counterexample.  The first row of the example sits on the goal and
    carries the action 2: its reward is lower than
    −time_penalty + 0.02 + bonus_reward by the action cost, 0.4. *)
Lemma reward_at_goal_with_action :
  ∃ (L : RewardLocals) (r : R),
    _get_rewards_locals example_env = Some L
    ∧ _get_rewards example_env
      = Some ({["pendulum" := rw_reward L]},
              set_stable_count example_env (rw_stable_count L))
    ∧ rw_state L !! 0%nat = Some [- PI; 0; 0; 0]%R
    ∧ rw_goal_tensor L = [- PI; 0; 0; 0]%R
    ∧ rw_action L !! 0%nat = Some [2%R]
    ∧ rw_reward L !! 0%nat = Some r
    ∧ r = (- 0.4 - time_penalty default_cfg + 0.02 + bonus_reward default_cfg)%R
    ∧ r ≠ (- time_penalty default_cfg + 0.02 + bonus_reward default_cfg)%R.
Proof.
  destruct (goal_row_reward example_env 0 1 [[2]; [0]]%R
              [[- PI; 0; 0; 0]%R;
               observation_row default_cfg 0 1 [1; 2]%R [10; -3]%R]
              0 [2%R] example_env_reward_shape eq_refl eq_refl)
    as (L & sh & HL & Hret & _ & _ & _ & _ & _ & _ & Hr);
    [cbn; lra | exact example_env_observations | reflexivity | reflexivity |].
  destruct (get_rewards_locals_shape _ 0 1 _ example_env_reward_shape)
    as (L' & HL' & Heq).
  assert (L' = L) as -> by congruence.
  eexists L, _. split; [exact HL |]. split; [exact Hret |].
  split.
  { rewrite (re_state _ _ _ _ Heq).
    cbn [example_env _pre_physics_step set_actions __init__ cfg robot_data
         example_data joint_pos joint_vel zip_with].
    by rewrite observation_row_at_goal. }
  split.
  { rewrite (re_goal_tensor _ _ _ _ Heq). unfold normalized_goal. cbn.
    by rewrite normalize_angle_neg_PI, normalize_angle_0. }
  split; [by rewrite (re_action _ _ _ _ Heq) |].
  split; [exact Hr |].
  cbn. split; lra.
Qed.

(** ** The theorems at the example environments *)

Lemma observation_velocities_clamped_witness :
  observation_shape example_env 0 1
  ∧ ∃ obs, _get_observations example_env = Some {["pendulum" := obs]}
      ∧ length obs = length (joint_vel (robot_data example_env))
      ∧ ∀ (i : nat) (row : list R), obs !! i = Some row →
          ∃ (v : list R) (a b v1 v2 : R),
            joint_vel (robot_data example_env) !! i = Some v
            ∧ row = [a; b; v1; v2]
            ∧ v1 = (clamp (nth 0 v 0 / max_velocity (cfg example_env)) (-1) 1)%R
            ∧ v2 = (clamp (nth 1 v 0 / max_velocity (cfg example_env)) (-1) 1)%R
            ∧ (-1 <= v1 <= 1)%R ∧ (-1 <= v2 <= 1)%R.
Proof.
  split; [exact example_env_observation_shape |].
  exact (observation_velocities_clamped example_env 0 1
           example_env_observation_shape).
Defined.

Lemma dones_are_time_outs_witness :
  observation_shape example_env 0 1
  ∧ length (goal_state (cfg example_env)) = 4%nat
  ∧ ∃ (L : DoneLocals) (d : list bool),
      _get_dones_locals example_env = Some L
      ∧ _get_dones example_env
        = Some (({["pendulum" := d]}, {["pendulum" := d]}), example_env)
      ∧ length (dn_success L) = length (joint_pos (robot_data example_env))
      ∧ length (dn_sustained_stability L) = length (_stable_count example_env)
      ∧ length d = length (episode_length_buf (sim example_env))
      ∧ ∀ (i : nat) (t : Z),
          episode_length_buf (sim example_env) !! i = Some t →
          ∃ b : bool, d !! i = Some b
            ∧ (b = true ↔ (t >= max_episode_length (sim example_env) - 1)%Z).
Proof.
  split; [exact example_env_observation_shape |]. split; [reflexivity |].
  exact (dones_are_time_outs example_env 0 1
           example_env_observation_shape eq_refl).
Defined.

Lemma bonus_agrees_with_stable_count_witness :
  reward_shape example_env 0 1 [[2]; [0]]%R
  ∧ _stable_count example_env !! 0%nat = Some 0%Z
  ∧ ∃ (L : RewardLocals) (e' : Env TorchSim) (c : bool) (base : R),
      _get_rewards_locals example_env = Some L
      ∧ _get_rewards example_env = Some ({["pendulum" := rw_reward L]}, e')
      ∧ rw_stable_condition L !! 0%nat = Some c
      ∧ (c = true ↔ ∃ n, rw_error_norm L !! 0%nat = Some n
                         ∧ (n < success_threshold (cfg example_env))%R)
      ∧ rw_bonus L !! 0%nat
        = Some (if c then bonus_reward (cfg example_env) else 0%R)
      ∧ rw_base_reward L !! 0%nat = Some base
      ∧ rw_reward L !! 0%nat
        = Some (base + (if c then bonus_reward (cfg example_env) else 0))%R
      ∧ _stable_count e' !! 0%nat = Some (if c then wrap32 (0 + 1) else 0%Z).
Proof.
  split; [exact example_env_reward_shape |]. split; [reflexivity |].
  exact (bonus_agrees_with_stable_count example_env 0 1 [[2]; [0]]%R 0 0
           example_env_reward_shape eq_refl).
Defined.

Lemma stable_count_update_witness :
  reward_shape example_env 0 1 [[2]; [0]]%R
  ∧ (- 2 ^ 31 ≤ 0 < 2 ^ 31 - 1)%Z
  ∧ ∃ (r : gmap string (list R)) (e' : Env TorchSim)
      (d : gmap string (list bool) * gmap string (list bool)),
      _get_rewards example_env = Some (r, e')
      ∧ ((norm_row (error_row (cfg example_env)
                      (observation_row (cfg example_env) 0 1
                         [- PI; 0]%R [0; 0]%R))
          < success_threshold (cfg example_env))%R
         → _stable_count e' !! 0%nat = Some (0 + 1)%Z)
      ∧ (¬ (norm_row (error_row (cfg example_env)
                        (observation_row (cfg example_env) 0 1
                           [- PI; 0]%R [0; 0]%R))
            < success_threshold (cfg example_env))%R
         → _stable_count e' !! 0%nat = Some 0%Z)
      ∧ length (_stable_count e') = length (_stable_count example_env)
      ∧ _get_dones example_env = Some (d, example_env).
Proof.
  assert (Hrange : (- 2 ^ 31 ≤ 0 < 2 ^ 31 - 1)%Z) by lia.
  split; [exact example_env_reward_shape |]. split; [exact Hrange |].
  exact (stable_count_update example_env 0 1 [[2]; [0]]%R 0
           [- PI; 0]%R [0; 0]%R 0 example_env_reward_shape
           eq_refl eq_refl eq_refl Hrange).
Defined.

Lemma example_env_fast_observations :
  _get_observations example_env = _get_observations example_env_fast.
Proof.
  rewrite (get_observations_rows example_env 0 1 example_env_observation_shape).
  assert (Hshape : observation_shape example_env_fast 0 1)
    by (constructor; first [reflexivity | repeat constructor]).
  rewrite (get_observations_rows example_env_fast 0 1 Hshape).
  do 2 f_equal. cbn. unfold observation_row. cbn.
  assert (Hclamp : clamp (10 / 5) (-1) 1 = clamp (20 / 5) (-1) 1).
  { unfold clamp, Rmax, Rmin.
    repeat match goal with |- context [Rle_dec ?a ?b] => destruct (Rle_dec a b) end;
      lra. }
  by rewrite Hclamp.
Qed.

Lemma rewards_deterministic_witness :
  joint_vel (robot_data example_env) ≠ joint_vel (robot_data example_env_fast)
  ∧ sim example_env ≠ sim example_env_fast
  ∧ actions example_env ≠ actions example_env_fast
  ∧ fst <$> _get_rewards example_env = fst <$> _get_rewards example_env_fast
  ∧ (_stable_count ∘ snd) <$> _get_rewards example_env
    = (_stable_count ∘ snd) <$> _get_rewards example_env_fast
  ∧ (sim ∘ snd) <$> _get_rewards example_env
    = (λ _, sim example_env) <$> _get_rewards example_env_fast.
Proof.
  split.
  { intros H. apply (f_equal (λ t : list (list R), nth 0 (nth 1 t []) 0%R)) in H.
    cbn in H. lra. }
  split; [intros H; discriminate (f_equal ts_cursor H) |].
  split.
  { intros H. apply (f_equal (λ m : gmap string (list (list R)), m !! "other")) in H.
    by cbn in H. }
  exact (rewards_deterministic example_env example_env_fast
           eq_refl example_env_fast_observations eq_refl eq_refl).
Defined.


Lemma reward_error_uses_normalized_goal_witness :
  reward_shape example_env 0 1 [[2]; [0]]%R
  ∧ ∃ (L : RewardLocals) (obs : list (list R)),
      _get_rewards_locals example_env = Some L
      ∧ _get_observations example_env = Some {["pendulum" := obs]}
      ∧ (∀ k : nat, (k < 2)%nat →
           rw_goal_tensor L !! k
           = normalize_angle <$> goal_state (cfg example_env) !! k)
      ∧ (∀ (k : nat) (g : R), (k < 2)%nat → rw_goal_tensor L !! k = Some g →
           (- PI <= g < PI)%R)
      ∧ (∀ k : nat, (2 ≤ k)%nat →
           rw_goal_tensor L !! k = goal_state (cfg example_env) !! k)
      ∧ rw_error L = map (λ o, zip_with Rminus o (rw_goal_tensor L)) obs
      ∧ rw_error_norm L = map norm_row (rw_error L).
Proof.
  split; [exact example_env_reward_shape |].
  exact (reward_error_uses_normalized_goal example_env 0 1 [[2]; [0]]%R
           example_env_reward_shape).
Defined.

Lemma reward_at_goal_witness :
  reward_shape example_env 0 1 [[2]; [0]]%R
  ∧ (0 < success_threshold (cfg example_env))%R
  ∧ ∃ (L : RewardLocals) (sh : list R),
      _get_rewards_locals example_env = Some L
      ∧ _get_rewards example_env
        = Some ({["pendulum" := rw_reward L]},
                set_stable_count example_env (rw_stable_count L))
      ∧ rw_error L !! 0%nat = Some [0; 0; 0; 0]%R
      ∧ rw_state_cost L !! 0%nat = Some 0%R
      ∧ rw_bonus L !! 0%nat = Some (bonus_reward (cfg example_env))
      ∧ rw_angle_shaping L !! 0%nat = Some sh
      ∧ (sum_list sh * 0.01 = 2 * (1 - tanh 0) * 0.01)%R
      ∧ (sum_list sh * 0.01 = 0.02)%R
      ∧ rw_reward L !! 0%nat
        = Some (- (reward_scale (cfg example_env)
                   * (reward_action_weight (cfg example_env)
                      * sum_list (map (λ x, x * x) [2])))
                - time_penalty (cfg example_env) + 0.02
                + bonus_reward (cfg example_env))%R.
Proof.
  assert (Hthr : (0 < success_threshold (cfg example_env))%R) by (cbn; lra).
  split; [exact example_env_reward_shape |]. split; [exact Hthr |].
  exact (reward_at_goal example_env 0 1 [[2]; [0]]%R _ 0 [2%R]
           example_env_reward_shape eq_refl eq_refl Hthr
           example_env_observations eq_refl eq_refl).
Defined.

Lemma reset_leaves_other_rows_witness :
  reset_shape example_env 2
  ∧ ∃ e' : Env TorchSim,
      _reset_idx (Some [1%Z]) example_env = Some e'
      ∧ length (joint_pos (robot_data e'))
        = length (joint_pos (robot_data example_env))
      ∧ length (joint_vel (robot_data e'))
        = length (joint_vel (robot_data example_env))
      ∧ length (_stable_count e') = length (_stable_count example_env)
      ∧ (∀ j : nat, Z.of_nat j ∉ [1%Z] →
           joint_pos (robot_data e') !! j = joint_pos (robot_data example_env) !! j
           ∧ joint_vel (robot_data e') !! j
             = joint_vel (robot_data example_env) !! j
           ∧ _stable_count e' !! j = _stable_count example_env !! j)
      ∧ (∀ j : nat, Z.of_nat j ∈ [1%Z] → _stable_count e' !! j = Some 0%Z).
Proof.
  assert (Hids : Forall (λ i, (0 ≤ i < Z.of_nat
                   (length (joint_pos (robot_data example_env))))%Z) [1%Z])
    by (repeat constructor; cbn; lia).
  split; [exact example_env_reset_shape |].
  exact (reset_leaves_other_rows example_env (Some [1%Z]) 2
           torch_sample_uniform_shaped example_env_reset_shape Hids).
Defined.


(** * Further properties of the environment *)

(** ** Angles modulo 2π *)

Section Angle_facts.
Local Open Scope R_scope.

Lemma Int_part_shift (r : R) (k : Z) : Int_part (r + IZR k) = (Int_part r + k)%Z.
Proof.
  symmetry. apply Int_part_spec. rewrite plus_IZR.
  destruct (base_Int_part r) as [Hlo Hhi]. lra.
Qed.

Lemma remainder_shift (a b : R) (k : Z) :
  0 < b → remainder (a + IZR k * b) b = remainder a b.
Proof.
  intros Hb. unfold remainder.
  replace ((a + IZR k * b) / b) with (a / b + IZR k) by (field; lra).
  rewrite Int_part_shift, plus_IZR. lra.
Qed.

Lemma normalize_angle_shift (x : R) (k : Z) :
  normalize_angle (x + 2 * PI * IZR k) = normalize_angle x.
Proof.
  unfold normalize_angle. pose proof PI_RGT_0.
  replace (x + 2 * PI * IZR k + PI) with (x + PI + IZR k * (2 * PI)) by lra.
  rewrite remainder_shift by lra. done.
Qed.

Lemma normalize_angle_offset (x : R) :
  ∃ k : Z, normalize_angle x = x - 2 * PI * IZR k.
Proof.
  exists (Int_part ((x + PI) / (2 * PI))). unfold normalize_angle, remainder. lra.
Qed.
End Angle_facts.

(** X1.  Two angles are normalized to the same value exactly when they differ
    by a whole number of turns: [normalize_angle] picks one representative
    of every angle modulo 2π. *)
Theorem normalize_angle_eq_iff (x y : R) :
  normalize_angle x = normalize_angle y ↔ ∃ k : Z, (x - y = 2 * PI * IZR k)%R.
Proof.
  split.
  - intros Heq.
    destruct (normalize_angle_offset x) as [kx Hx].
    destruct (normalize_angle_offset y) as [ky Hy].
    exists (kx - ky)%Z. rewrite minus_IZR. lra.
  - intros [k Hk].
    replace x with (y + 2 * PI * IZR k)%R by lra.
    apply normalize_angle_shift.
Qed.

(** ** More on observations *)

Section Observation_more.
Context {Sim : Type} `{!Framework Sim}.
Local Open Scope R_scope.

Lemma select_col_Some c (t : list (list R)) v :
  select_col c t = Some v →
  Forall (λ row : list R, (c < length row)%nat) t ∧ length v = length t.
Proof.
  unfold select_col. intros H. split.
  - apply mapM_Some_1 in H. clear -H.
    induction H as [| row y t v Hrow _ IH]; constructor; [| done].
    by eapply lookup_lt_Some.
  - symmetry. by eapply length_mapM.
Qed.

Lemma cat_last_4_Some (a b c d r : list (list R)) :
  cat_last [a; b; c; d] = Some r →
  length b = length a ∧ length c = length a ∧ length d = length a.
Proof.
  cbn [cat_last mbind option_bind].
  destruct (length c =? length d)%nat eqn:Hcd; [| done].
  cbn [mbind option_bind].
  destruct (length b =? length (zip_with app c d))%nat eqn:Hb; [| done].
  cbn [mbind option_bind].
  destruct (length a =? _)%nat eqn:Ha; [| done].
  intros _. apply Nat.eqb_eq in Hcd, Hb, Ha.
  rewrite !length_zip_with in *. lia.
Qed.

(** X2.  [_get_observations] returns (raises no index or shape error) exactly
    when both joint index lists are non-empty, the two joint buffers have the
    same number of rows and every row holds the two indexed joints. *)
Theorem observations_return_iff_shape (e : Env Sim) :
  is_Some (_get_observations e) ↔ ∃ si ei : nat, observation_shape e si ei.
Proof.
  split.
  - intros [obs Hobs]. unfold _get_observations in Hobs.
    destruct (_shoulder_dof_idx e !! 0%nat) as [si |] eqn:Hsi; [| done].
    cbn [mbind option_bind] in Hobs.
    destruct (select_col si (joint_pos _)) as [sp |] eqn:Hsp; [| done].
    cbn [mbind option_bind] in Hobs.
    destruct (_elbow_dof_idx e !! 0%nat) as [ei |] eqn:Hei; [| done].
    cbn [mbind option_bind] in Hobs.
    destruct (select_col ei (joint_pos _)) as [ep |] eqn:Hep; [| done].
    cbn [mbind option_bind] in Hobs.
    destruct (select_col si (joint_vel _)) as [sv |] eqn:Hsv; [| done].
    cbn [mbind option_bind] in Hobs.
    destruct (select_col ei (joint_vel _)) as [ev |] eqn:Hev; [| done].
    cbn [mbind option_bind] in Hobs.
    destruct (cat_last _) as [r |] eqn:Hcat; [| done].
    apply cat_last_4_Some in Hcat as (_ & Hlen & _).
    apply select_col_Some in Hsp as [Hsp Hspl], Hep as [Hep Hepl],
        Hsv as [Hsv Hsvl], Hev as [Hev Hevl].
    unfold tmap2, unsqueeze1 in Hlen. rewrite !length_map in Hlen.
    exists si, ei. constructor; try done.
    + lia.
    + rewrite Forall_forall in *. split; auto.
    + rewrite Forall_forall in *. split; auto.
  - intros (si & ei & Hshape).
    rewrite (get_observations_rows e si ei Hshape). by eexists.
Qed.

(** X3.  The observation has one row [angle; angle; velocity; velocity] per
    row of [joint_pos]; each angle is the joint angle normalized, lies in
    [-π, π) and differs from the joint angle by a whole number of turns. *)
Theorem observation_angles_normalized (e : Env Sim) (si ei : nat) :
  observation_shape e si ei →
  ∃ obs, _get_observations e = Some {["pendulum" := obs]}
    ∧ length obs = length (joint_pos (robot_data e))
    ∧ ∀ (i : nat) (row : list R), obs !! i = Some row →
        ∃ (p : list R) (a b v1 v2 : R),
          joint_pos (robot_data e) !! i = Some p
          ∧ row = [a; b; v1; v2]
          ∧ a = normalize_angle (nth si p 0)
          ∧ b = normalize_angle (nth ei p 0)
          ∧ (- PI <= a < PI) ∧ (- PI <= b < PI)
          ∧ (∃ k : Z, nth si p 0 = a + 2 * PI * IZR k)
          ∧ (∃ k : Z, nth ei p 0 = b + 2 * PI * IZR k).
Proof.
  intros Hshape. eexists. split; [by apply get_observations_rows |].
  split.
  - rewrite length_zip_with, (os_rows _ _ _ Hshape). lia.
  - intros i row Hrow.
    apply lookup_zip_with_Some in Hrow as (p & v & -> & Hp & Hv).
    exists p. do 4 eexists. split; [done |]. split; [reflexivity |].
    split; [done |]. split; [done |].
    split; [apply normalize_angle_range |].
    split; [apply normalize_angle_range |].
    split.
    + exists (Int_part ((nth si p 0 + PI) / (2 * PI))).
      unfold normalize_angle, remainder. lra.
    + exists (Int_part ((nth ei p 0 + PI) / (2 * PI))).
      unfold normalize_angle, remainder. lra.
Qed.

(** X4.  Turning the shoulder or elbow joints of any rows by whole turns
    leaves the observation as it is. *)
Theorem observation_periodic (e1 e2 : Env Sim) (si ei : nat) :
  observation_shape e1 si ei →
  cfg e1 = cfg e2 →
  _shoulder_dof_idx e1 = _shoulder_dof_idx e2 →
  _elbow_dof_idx e1 = _elbow_dof_idx e2 →
  joint_vel (robot_data e1) = joint_vel (robot_data e2) →
  Forall2 (λ p1 p2 : list R,
             length p1 = length p2
             ∧ (∃ k : Z, nth si p2 0 = nth si p1 0 + 2 * PI * IZR k)
             ∧ (∃ k : Z, nth ei p2 0 = nth ei p1 0 + 2 * PI * IZR k))
          (joint_pos (robot_data e1)) (joint_pos (robot_data e2)) →
  is_Some (_get_observations e1)
  ∧ _get_observations e2 = _get_observations e1.
Proof.
  intros Hshape Hcfg Hsi Hei Hvel Hpos.
  assert (Hshape2 : observation_shape e2 si ei).
  { destruct Hshape as [H1 H2 H3 H4 H5]. constructor.
    - by rewrite <- Hsi.
    - by rewrite <- Hei.
    - rewrite <- Hvel, H3. by eapply Forall2_length.
    - clear -H4 Hpos. induction Hpos as [| p1 p2 l1 l2 (Hl & _) _ IH].
      + constructor.
      + apply Forall_cons in H4 as [Hp H4]. constructor; [lia | auto].
    - by rewrite <- Hvel. }
  rewrite (get_observations_rows e1 si ei Hshape),
    (get_observations_rows e2 si ei Hshape2).
  split; [by eexists |]. do 2 f_equal. rewrite <- Hvel, <- Hcfg.
  generalize (joint_vel (robot_data e1)). clear -Hpos.
  induction Hpos as [| p1 p2 l1 l2 (Hl & [k Hk] & [k' Hk']) _ IH];
    intros [| v vs]; cbn [zip_with]; try done.
  rewrite IH. f_equal. unfold observation_row.
  rewrite Hk, Hk', !normalize_angle_shift. done.
Qed.
End Observation_more.

(** ** More on rewards *)

Section Cost_facts.
Local Open Scope R_scope.

Lemma quad_sum_diag (w0 w1 w2 w3 e0 e1 e2 e3 : R) :
  quad_sum 4 4 [e0; e1; e2; e3] (diag [w0; w1; w2; w3]) [e0; e1; e2; e3]
  = w0 * (e0 * e0) + w1 * (e1 * e1) + w2 * (e2 * e2) + w3 * (e3 * e3).
Proof. unfold quad_sum, diag, bnth. simpl. ring. Qed.

Lemma sum_squares_nonneg (l : list R) : 0 <= sum_list (map (λ x, x * x) l).
Proof.
  induction l as [| x l IH]; simpl; [lra |].
  pose proof (Rle_0_sqr x) as Hx. unfold Rsqr in Hx. lra.
Qed.

Lemma square_le_sum_squares (l : list R) (x : R) :
  x ∈ l → x * x <= sum_list (map (λ x, x * x) l).
Proof.
  induction l as [| y l IH]; intros Hin; [by apply elem_of_nil in Hin |].
  simpl. apply elem_of_cons in Hin as [-> | Hin].
  - pose proof (sum_squares_nonneg l). lra.
  - specialize (IH Hin). pose proof (Rle_0_sqr y) as Hy. unfold Rsqr in Hy. lra.
Qed.

Lemma Rabs_le_norm_row (l : list R) (x : R) : x ∈ l → Rabs x <= norm_row l.
Proof.
  intros Hin. unfold norm_row.
  rewrite <- sqrt_Rsqr_abs. apply sqrt_le_1_alt. unfold Rsqr.
  by apply square_le_sum_squares.
Qed.

Lemma tanh_bounds (d : R) : 0 <= d → 0 <= tanh d < 1.
Proof.
  intros Hd. unfold tanh, sinh, cosh.
  pose proof (exp_pos d) as Ha. pose proof (exp_pos (- d)) as Hb.
  assert (Hab : exp (- d) <= exp d).
  { destruct (Req_dec d 0) as [-> | Hne].
    - rewrite Ropp_0. lra.
    - left. apply exp_increasing. lra. }
  set (a := exp d) in *. set (b := exp (- d)) in *.
  replace ((a - b) / 2 / ((a + b) / 2)) with ((a - b) / (a + b)) by (field; lra).
  split.
  - apply Rmult_le_pos; [lra |]. left. apply Rinv_0_lt_compat. lra.
  - apply Rmult_lt_reg_r with (a + b); [lra |].
    replace ((a - b) / (a + b) * (a + b)) with (a - b) by (field; lra). lra.
Qed.

Lemma shaping_bounds (er : list R) :
  (1 ≤ length er)%nat →
  0 < sum_list (map (λ d, 1 - tanh d) (map Rabs (take 2 er))) <= 2.
Proof.
  intros Hlen. destruct er as [| x [| y er]]; simpl in *; [lia | |].
  - pose proof (tanh_bounds (Rabs x) (Rabs_pos x)). lra.
  - pose proof (tanh_bounds (Rabs x) (Rabs_pos x)).
    pose proof (tanh_bounds (Rabs y) (Rabs_pos y)). lra.
Qed.
End Cost_facts.

Section Reward_more.
Context {Sim : Type} `{!Framework Sim}.
Local Open Scope R_scope.

(** Row [i] of a well-shaped environment. *)
Lemma reward_row_exists (e : Env Sim) si ei act (i : nat) :
  reward_shape e si ei act → (i < length (joint_pos (robot_data e)))%nat →
  ∃ L obs o a s,
    _get_rewards_locals e = Some L
    ∧ reward_equations e obs act L
    ∧ _get_observations e = Some {["pendulum" := obs]}
    ∧ obs !! i = Some o ∧ length o = 4%nat
    ∧ act !! i = Some a ∧ _stable_count e !! i = Some s.
Proof.
  intros Hshape Hi.
  destruct (get_rewards_locals_shape e si ei act Hshape) as (L & HL & Heq).
  pose proof (rs_obs _ _ _ _ Hshape) as Hobs.
  destruct (lookup_lt_is_Some_2 (joint_pos (robot_data e)) i Hi) as [p Hp].
  destruct (lookup_lt_is_Some_2 (joint_vel (robot_data e)) i) as [v Hv];
    [rewrite (os_rows _ _ _ Hobs); done |].
  destruct (lookup_lt_is_Some_2 act i) as [a Ha];
    [rewrite (rs_action_rows _ _ _ _ Hshape); done |].
  destruct (lookup_lt_is_Some_2 (_stable_count e) i) as [s Hs];
    [rewrite (rs_count _ _ _ _ Hshape); done |].
  eexists L, _, (observation_row (cfg e) si ei p v), a, s.
  split; [done |]. split; [exact Heq |].
  split; [by apply get_observations_rows |].
  split; [by rewrite lookup_zip_with, Hp, Hv |]. done.
Qed.

Lemma error_row_length c o :
  length o = 4%nat → length (goal_state c) = 4%nat → length (error_row c o) = 4%nat.
Proof.
  intros Ho Hg. unfold error_row.
  rewrite length_zip_with, Ho, normalized_goal_length, Hg. done.
Qed.

(** X5.  The quadratic form [einsum("bi, ij, bj->b", error, Q, error)] with
    the diagonal [Q] is, row by row, the sum of the squared errors weighted
    by [reward_state_weights]; it is not negative when the weights are not. *)
Theorem state_cost_weighted_squares (e : Env Sim) (si ei : nat)
    (act : list (list R)) (i : nat) :
  reward_shape e si ei act → (i < length (joint_pos (robot_data e)))%nat →
  ∃ (L : RewardLocals) (er : list R),
    _get_rewards_locals e = Some L
    ∧ rw_error L !! i = Some er
    ∧ rw_state_cost L !! i
      = Some (sum_list (zip_with (λ w x, w * (x * x))
                                 (reward_state_weights (cfg e)) er))
    ∧ (Forall (λ w, 0 <= w) (reward_state_weights (cfg e)) →
       0 <= sum_list (zip_with (λ w x, w * (x * x))
                               (reward_state_weights (cfg e)) er)).
Proof.
  intros Hshape Hi.
  destruct (reward_row_exists e si ei act i Hshape Hi)
    as (L & obs & o & a & s & HL & Heq & _ & Ho & Hlen & Ha & Hs).
  destruct (reward_equations_row e obs act L i o a s Heq Ho Ha Hs)
    as (E1 & E2 & _).
  pose proof (error_row_length (cfg e) o Hlen (rs_goal _ _ _ _ Hshape)) as Hel.
  pose proof (rs_weights _ _ _ _ Hshape) as Hw.
  destruct (error_row (cfg e) o) as [| e0 [| e1 [| e2 [| e3 [| ? ?]]]]];
    try done.
  destruct (reward_state_weights (cfg e)) as [| w0 [| w1 [| w2 [| w3 [| ? ?]]]]];
    try done.
  eexists L, _. split; [done |]. split; [exact E1 |].
  rewrite E2, quad_sum_diag. split.
  - f_equal. simpl. lra.
  - intros Hpos. simpl.
    apply Forall_cons in Hpos as [H0 Hpos]. apply Forall_cons in Hpos as [H1 Hpos].
    apply Forall_cons in Hpos as [H2 Hpos]. apply Forall_cons in Hpos as [H3 _].
    pose proof (Rle_0_sqr e0). pose proof (Rle_0_sqr e1).
    pose proof (Rle_0_sqr e2). pose proof (Rle_0_sqr e3). unfold Rsqr in *.
    nra.
Qed.

(** X6.  The shaping term added to every row's base reward is positive and
    at most 0.02. *)
Theorem angle_shaping_bounds (e : Env Sim) (si ei : nat)
    (act : list (list R)) (i : nat) :
  reward_shape e si ei act → (i < length (joint_pos (robot_data e)))%nat →
  ∃ (L : RewardLocals) (sh : list R) (b0 b : R),
    _get_rewards_locals e = Some L
    ∧ rw_angle_shaping L !! i = Some sh
    ∧ rw_base_reward0 L !! i = Some b0
    ∧ rw_base_reward L !! i = Some b
    ∧ b = b0 + sum_list sh * 0.01
    ∧ 0 < sum_list sh * 0.01 <= 0.02.
Proof.
  intros Hshape Hi.
  destruct (reward_row_exists e si ei act i Hshape Hi)
    as (L & obs & o & a & s & HL & Heq & _ & Ho & Hlen & Ha & Hs).
  destruct (reward_equations_row e obs act L i o a s Heq Ho Ha Hs)
    as (E1 & E2 & _ & _ & _ & _ & E7 & E8 & _).
  pose proof (error_row_length (cfg e) o Hlen (rs_goal _ _ _ _ Hshape)) as Hel.
  pose proof (shaping_bounds (error_row (cfg e) o) ltac:(lia)) as Hb.
  eexists L, _, _, _. split; [done |]. split; [exact E7 |].
  split.
  { rewrite (re_base_reward0 _ _ _ _ Heq), list_lookup_fmap,
      (re_total_cost _ _ _ _ Heq), lookup_zip_with, E2,
      (re_action_cost _ _ _ _ Heq), list_lookup_fmap, Ha. reflexivity. }
  split; [exact E8 |]. split; [reflexivity |].
  lra.
Qed.

(** X7.  With weights, action weight and scale that are not negative, a
    row's reward is at most 0.02 − time_penalty, plus the bonus when the row
    meets the stable condition. *)
Theorem reward_upper_bound (e : Env Sim) (si ei : nat)
    (act : list (list R)) (i : nat) :
  reward_shape e si ei act → (i < length (joint_pos (robot_data e)))%nat →
  Forall (λ w, 0 <= w) (reward_state_weights (cfg e)) →
  0 <= reward_action_weight (cfg e) →
  0 <= reward_scale (cfg e) →
  ∃ (L : RewardLocals) (r : R) (c : bool),
    _get_rewards_locals e = Some L
    ∧ rw_reward L !! i = Some r
    ∧ rw_stable_condition L !! i = Some c
    ∧ r <= - time_penalty (cfg e) + 0.02
           + (if c then bonus_reward (cfg e) else 0).
Proof.
  intros Hshape Hi Hw Haw Hsc.
  destruct (reward_row_exists e si ei act i Hshape Hi)
    as (L & obs & o & a & s & HL & Heq & _ & Ho & Hlen & Ha & Hs).
  destruct (reward_equations_row e obs act L i o a s Heq Ho Ha Hs)
    as (_ & _ & _ & E4 & _ & _ & _ & _ & E9).
  pose proof (error_row_length (cfg e) o Hlen (rs_goal _ _ _ _ Hshape)) as Hel.
  pose proof (shaping_bounds (error_row (cfg e) o) ltac:(lia)) as Hb.
  pose proof (rs_weights _ _ _ _ Hshape) as Hwl.
  eexists L, _, _. split; [done |]. split; [exact E9 |]. split; [exact E4 |].
  assert (Hcost : 0 <= quad_sum 4 4 (error_row (cfg e) o)
                         (diag (reward_state_weights (cfg e)))
                         (error_row (cfg e) o)).
  { destruct (error_row (cfg e) o) as [| e0 [| e1 [| e2 [| e3 [| ? ?]]]]];
      try done.
    destruct (reward_state_weights (cfg e))
      as [| w0 [| w1 [| w2 [| w3 [| ? ?]]]]]; try done.
    rewrite quad_sum_diag.
    apply Forall_cons in Hw as [H0 Hw]. apply Forall_cons in Hw as [H1 Hw].
    apply Forall_cons in Hw as [H2 Hw]. apply Forall_cons in Hw as [H3 _].
    pose proof (Rle_0_sqr e0). pose proof (Rle_0_sqr e1).
    pose proof (Rle_0_sqr e2). pose proof (Rle_0_sqr e3). unfold Rsqr in *.
    nra. }
  pose proof (sum_squares_nonneg a) as Hact.
  set (q := quad_sum _ _ _ _ _) in *.
  set (sa := sum_list (map _ a)) in *.
  set (sh := sum_list (map _ (map Rabs _))) in *.
  assert (0 <= reward_action_weight (cfg e) * sa) by (apply Rmult_le_pos; lra).
  assert (0 <= reward_scale (cfg e) * (q + reward_action_weight (cfg e) * sa))
    by (apply Rmult_le_pos; lra).
  lra.
Qed.

(** X8.  A row that meets the stable condition has every error component
    below [success_threshold] in absolute value; a row with every component
    below half the threshold meets it. *)
Theorem stable_row_components (e : Env Sim) (si ei : nat)
    (act : list (list R)) (i : nat) :
  reward_shape e si ei act → (i < length (joint_pos (robot_data e)))%nat →
  ∃ (L : RewardLocals) (er : list R) (c : bool),
    _get_rewards_locals e = Some L
    ∧ rw_error L !! i = Some er
    ∧ rw_stable_condition L !! i = Some c
    ∧ (c = true → Forall (λ x, Rabs x < success_threshold (cfg e)) er)
    ∧ (Forall (λ x, Rabs x < success_threshold (cfg e) / 2) er → c = true).
Proof.
  intros Hshape Hi.
  destruct (reward_row_exists e si ei act i Hshape Hi)
    as (L & obs & o & a & s & HL & Heq & _ & Ho & Hlen & Ha & Hs).
  destruct (reward_equations_row e obs act L i o a s Heq Ho Ha Hs)
    as (E1 & _ & _ & E4 & _).
  pose proof (error_row_length (cfg e) o Hlen (rs_goal _ _ _ _ Hshape)) as Hel.
  eexists L, _, _. split; [done |]. split; [exact E1 |]. split; [exact E4 |].
  split.
  - intros Hc. apply R_ltb_true in Hc. apply Forall_forall. intros x Hx.
    pose proof (Rabs_le_norm_row _ x Hx). lra.
  - intros Hsmall. apply R_ltb_true.
    destruct (error_row (cfg e) o) as [| e0 [| e1 [| e2 [| e3 [| ? ?]]]]];
      try done.
    apply Forall_cons in Hsmall as [H0 Hsmall].
    apply Forall_cons in Hsmall as [H1 Hsmall].
    apply Forall_cons in Hsmall as [H2 Hsmall].
    apply Forall_cons in Hsmall as [H3 _].
    set (t := success_threshold (cfg e)) in *.
    assert (Ht : 0 < t) by (pose proof (Rabs_pos e0); lra).
    unfold norm_row. simpl.
    rewrite <- (sqrt_square t) by lra.
    apply sqrt_lt_1_alt.
    assert (Hsq : ∀ x, Rabs x < t / 2 → 0 <= x * x < t * t / 4).
    { intros x Hx. pose proof (Rle_0_sqr x) as Hx0. unfold Rsqr in Hx0.
      split; [done |].
      replace (x * x) with (Rabs x * Rabs x)
        by (unfold Rabs; destruct (Rcase_abs x); lra).
      pose proof (Rabs_pos x). nra. }
    pose proof (Hsq e0 H0). pose proof (Hsq e1 H1).
    pose proof (Hsq e2 H2). pose proof (Hsq e3 H3). lra.
Qed.

(** X9.  When the configured goal angles already lie in [-π, π), as the
    default ones do, [_get_dones] and [_get_rewards] use the same goal: the
    error norms agree and [success] is the stable condition. *)
Theorem dones_success_agrees_on_normalized_goal (e : Env Sim) (si ei : nat)
    (act : list (list R)) :
  reward_shape e si ei act →
  (∀ (k : nat) (g : R), (k < 2)%nat → goal_state (cfg e) !! k = Some g →
     - PI <= g < PI) →
  ∃ (L : RewardLocals) (D : DoneLocals),
    _get_rewards_locals e = Some L
    ∧ _get_dones_locals e = Some D
    ∧ dn_goal D = rw_goal_tensor L
    ∧ dn_error_norm D = rw_error_norm L
    ∧ dn_success D = rw_stable_condition L.
Proof.
  intros Hshape Hgoal.
  destruct (get_rewards_locals_shape e si ei act Hshape) as (L & HL & Heq).
  pose proof (get_dones_locals_shape e si ei (rs_obs _ _ _ _ Hshape)
                (rs_goal _ _ _ _ Hshape)) as HD.
  cbv zeta in HD.
  assert (HG : normalized_goal (cfg e) = goal_state (cfg e)).
  { unfold normalized_goal. pose proof (rs_goal _ _ _ _ Hshape) as Hlen.
    destruct (goal_state (cfg e)) as [| g0 [| g1 gs]]; try done.
    cbn. rewrite !normalize_angle_fixed; [done | |].
    - apply (Hgoal 1%nat); [lia | done].
    - apply (Hgoal 0%nat); [lia | done]. }
  eexists L, _. split; [done |]. split; [exact HD |].
  cbn [dn_goal dn_error_norm dn_success].
  rewrite (re_goal_tensor _ _ _ _ Heq), (re_stable_condition _ _ _ _ Heq),
    (re_error_norm _ _ _ _ Heq), (re_error _ _ _ _ Heq), HG.
  rewrite map_map. unfold error_row. rewrite HG. done.
Qed.
End Reward_more.

(** ** Sustained stability *)

(** The binds of a successful computation, one after the other. *)
Ltac option_binds H :=
  repeat match type of H with
         | (?x ≫= _) = Some _ =>
             let E := fresh "E" in
             destruct x eqn:E; [cbn [mbind option_bind] in H | discriminate H]
         end.

Section Streak_facts.
Context {Sim : Type} `{!Framework Sim}.

Lemma bcast2_lookup {A B C} (f : A → B → C) xs ys zs (i : nat) x y :
  bcast2 f xs ys = Some zs → xs !! i = Some x → ys !! i = Some y →
  zs !! i = Some (f x y).
Proof.
  intros Hb Hx Hy. unfold bcast2 in Hb.
  destruct (length xs =? length ys)%nat.
  { injection Hb as <-. by rewrite lookup_zip_with, Hx, Hy. }
  destruct (length xs =? 1)%nat eqn:H1.
  { apply Nat.eqb_eq in H1. destruct xs as [| x0 [| ? ?]]; try done.
    cbn in Hb. injection Hb as <-.
    destruct i; [| done]. injection Hx as ->.
    by rewrite list_lookup_fmap, Hy. }
  destruct (length ys =? 1)%nat eqn:H2; [| done].
  apply Nat.eqb_eq in H2. destruct ys as [| y0 [| ? ?]]; try done.
  cbn in Hb. injection Hb as <-.
  destruct i; [| done]. injection Hy as ->.
  by rewrite list_lookup_fmap, Hx.
Qed.

Lemma get_rewards_locals_count (e : Env Sim) L :
  _get_rewards_locals e = Some L →
  bcast2 (λ (c : bool) s, if c then wrap32 (s + 1) else 0%Z)
         (rw_stable_condition L) (_stable_count e)
  = Some (rw_stable_count L).
Proof.
  unfold _get_rewards_locals. intros HL. option_binds HL.
  injection HL as <-. cbn [rw_stable_condition rw_stable_count]. done.
Qed.

Lemma get_dones_locals_sustained (e : Env Sim) D :
  _get_dones_locals e = Some D →
  dn_sustained_stability D
  = map (λ c, bool_decide (sustain_steps (cfg e) ≤ c)%Z) (_stable_count e).
Proof.
  unfold _get_dones_locals. intros HD. option_binds HD. by injection HD as <-.
Qed.

Lemma streak_count (i k : nat) (e0 e : Env Sim) (s : Z) :
  streak i k e0 e → _stable_count e0 !! i = Some s →
  (- 2 ^ 31 ≤ s)%Z → (s + Z.of_nat k < 2 ^ 31)%Z →
  _stable_count e !! i = Some (s + Z.of_nat k)%Z.
Proof.
  induction 1 as [e | k e0 e rd sm Hst IH | k e0 e a Hst IH
                 | k e0 e e' Hst IH Hstep | k e0 e d e' Hst IH Hstep
                 | k e0 e L r e' Hst IH HL Hc Hstep];
    intros Hs Hlo Hhi.
  - by rewrite Z.add_0_r.
  - by apply IH.
  - by apply IH.
  - rewrite (apply_action_count _ _ Hstep). by apply IH.
  - rewrite (get_dones_count _ _ _ Hstep). by apply IH.
  - unfold _get_rewards in Hstep. rewrite HL in Hstep.
    injection Hstep as _ <-. cbn [set_stable_count _stable_count].
    rewrite (bcast2_lookup _ _ _ _ i true (s + Z.of_nat k)%Z
               (get_rewards_locals_count e L HL) Hc); [| apply IH; (done || lia)].
    rewrite wrap32_small by lia. f_equal. lia.
Qed.

(** X10.  After [k] calls of [_get_rewards] in a row in which row [i] met the
    stable condition, with no reset in between, the row's counter has grown
    by [k], and the [sustained_stability] that [_get_dones] computes for the
    row holds exactly when the counter has reached [sustain_steps]. *)
Theorem sustained_after_streak (i k : nat) (e0 e : Env Sim) (s : Z) (D : DoneLocals) :
  streak i k e0 e → _stable_count e0 !! i = Some s →
  (- 2 ^ 31 ≤ s)%Z → (s + Z.of_nat k < 2 ^ 31)%Z →
  _get_dones_locals e = Some D →
  _stable_count e !! i = Some (s + Z.of_nat k)%Z
  ∧ ∃ b : bool, dn_sustained_stability D !! i = Some b
      ∧ (b = true ↔ (sustain_steps (cfg e) ≤ s + Z.of_nat k)%Z).
Proof.
  intros Hst Hs Hlo Hhi HD.
  pose proof (streak_count i k e0 e s Hst Hs Hlo Hhi) as Hcount.
  split; [done |].
  rewrite (get_dones_locals_sustained e D HD), list_lookup_fmap, Hcount.
  eexists. split; [done |]. by rewrite bool_decide_eq_true.
Qed.
End Streak_facts.

(** ** More on resets *)

Section Reset_more.
Context {Sim : Type} `{!Framework Sim}.
Local Open Scope R_scope.

Lemma index_rows_lookup {A} (t : list A) (ids : list Z) rows (p : nat) (i : Z) :
  index_rows t ids = Some rows → ids !! p = Some i →
  (0 ≤ i < Z.of_nat (length t))%Z →
  rows !! p = t !! Z.to_nat i.
Proof.
  unfold index_rows. intros Hrows Hp Hi.
  apply mapM_Some_1 in Hrows.
  destruct (Forall2_lookup_l _ _ _ _ _ Hrows Hp) as (row & Hrow & Hres).
  rewrite resolve_index_in_range in Hres by done.
  cbn [mbind option_bind] in Hres. congruence.
Qed.

Lemma index_rows_out_of_range {A} (t : list A) (ids : list Z) (i : Z) :
  i ∈ ids → ¬ (- Z.of_nat (length t) ≤ i < Z.of_nat (length t))%Z →
  index_rows t ids = None.
Proof.
  intros Hin Hout. unfold index_rows. apply mapM_None_2, Exists_exists.
  exists i. split; [done |]. unfold resolve_index.
  rewrite !decide_False by lia. done.
Qed.

Lemma iadd_cols_one (t : list (list R)) (c : nat) (s t' : list (list R))
    (p : nat) (row : list R) (u : R) :
  iadd_cols t [c] s = Some t' → length s = length t →
  t !! p = Some row → s !! p = Some [u] → (c < length row)%nat →
  t' !! p = Some (<[c := nth c row 0 + u]> row).
Proof.
  unfold iadd_cols. intros Ht' Hlen Hrow Hu Hc.
  rewrite expand_same_length in Ht' by done. cbn [mbind option_bind] in Ht'.
  apply mapM_Some_1 in Ht'.
  assert (Hz : zip t s !! p = Some (row, [u])).
  { apply lookup_zip_with_Some. eauto. }
  destruct (Forall2_lookup_l _ _ _ _ _ Ht' Hz) as (row' & Hrow' & Hres).
  rewrite Hrow'. rewrite <- Hres. unfold iadd_cols_row. cbn [fst snd mapM].
  destruct (lookup_lt_is_Some_2 row c Hc) as [x Hx]. rewrite Hx.
  cbn. f_equal. f_equal. f_equal.
  symmetry. by apply nth_lookup_Some with (d := 0) in Hx.
Qed.

Lemma index_put_loop_width (w : nat) (t : list (list R)) ids vals t' :
  index_put_loop t ids vals = Some t' →
  Forall (λ row : list R, length row = w) t →
  Forall (λ row : list R, length row = w) t'.
Proof.
  revert t vals. induction ids as [| i ids IH]; intros t vals Hput Ht.
  - by injection Hput as <-.
  - destruct vals as [| v vals]; [done |]. cbn [index_put_loop] in Hput.
    destruct (resolve_index (length t) i) as [k |]; [| done].
    cbn [mbind option_bind] in Hput.
    destruct (t !! k) as [old |] eqn:Hold; [| done].
    cbn [mbind option_bind] in Hput.
    destruct (expand (length old) v) as [v' |] eqn:Hv; [| done].
    cbn [mbind option_bind] in Hput.
    eapply IH; [exact Hput |]. apply Forall_insert; [done |].
    pose proof (Forall_lookup_1 _ _ _ _ Ht Hold) as Hw. simpl in Hw.
    unfold expand in Hv.
    destruct (length v =? length old)%nat eqn:E1.
    + injection Hv as <-. apply Nat.eqb_eq in E1. lia.
    + destruct (length v =? 1)%nat; [| done].
      destruct (head v); [| done]. injection Hv as <-.
      by rewrite length_replicate.
Qed.

Lemma index_put_loop_selected (w : nat) (t : list (list R)) (ids : list Z)
    (vals : list (list R)) t' (j : nat) :
  index_put_loop t ids vals = Some t' →
  Forall (λ i, (0 ≤ i < Z.of_nat (length t))%Z) ids →
  length vals = length ids →
  Forall (λ row : list R, length row = w) vals →
  Forall (λ row : list R, length row = w) t →
  Z.of_nat j ∈ ids →
  ∃ (p : nat) (v : list R),
    ids !! p = Some (Z.of_nat j) ∧ vals !! p = Some v ∧ t' !! j = Some v.
Proof.
  revert t vals. induction ids as [| i ids IH];
    intros t vals Hput Hids Hlen Hvals Ht Hj.
  - by apply elem_of_nil in Hj.
  - destruct vals as [| v vals]; [done |].
    apply Forall_cons in Hids as [Hi Hids].
    apply Forall_cons in Hvals as [Hv Hvals].
    cbn [index_put_loop] in Hput.
    rewrite resolve_index_in_range in Hput by done.
    cbn [mbind option_bind] in Hput.
    destruct (lookup_lt_is_Some_2 t (Z.to_nat i)) as [old Hold]; [lia |].
    rewrite Hold in Hput. cbn [mbind option_bind] in Hput.
    pose proof (Forall_lookup_1 _ _ _ _ Ht Hold) as Hw. simpl in Hw.
    rewrite expand_same_length in Hput by congruence.
    cbn [mbind option_bind] in Hput.
    destruct (decide (Z.of_nat j ∈ ids)) as [Hin | Hnin].
    + destruct (IH (<[Z.to_nat i := v]> t) vals Hput) as (p & x & Hp & Hx & Hres);
        try done.
      * by rewrite length_insert.
      * simpl in Hlen. lia.
      * by apply Forall_insert.
      * exists (S p), x. done.
    + apply elem_of_cons in Hj as [Hj | Hj]; [| done].
      exists 0%nat, v. split; [by rewrite Hj |]. split; [done |].
      destruct (index_put_loop_frame w (<[Z.to_nat i := v]> t) ids vals)
        as (t'' & Ht'' & _ & Hframe); try done.
      * by rewrite length_insert.
      * simpl in Hlen. lia.
      * by apply Forall_insert.
      * assert (t'' = t') as -> by congruence.
        rewrite Hframe by done. rewrite <- Hj, Nat2Z.id.
        apply list_lookup_insert_eq. rewrite <- Hj in Hi. lia.
Qed.

(** The intermediate tensors of a reset on well-shaped buffers. *)
Lemma reset_idx_steps (e : Env Sim) (env_ids : option (list Z)) (w : nat)
    (lo hi lo' hi' : R) :
  sample_uniform_shaped →
  reset_shape e w →
  initial_shoulder_angle_range (cfg e) !! 0%nat = Some lo →
  initial_shoulder_angle_range (cfg e) !! 1%nat = Some hi →
  initial_elbow_angle_range (cfg e) !! 0%nat = Some lo' →
  initial_elbow_angle_range (cfg e) !! 1%nat = Some hi' →
  let ids := default (robot_ALL_INDICES e) env_ids in
  let us := sample_uniform (lo * PI) (hi * PI) (length ids)
              (length (_shoulder_dof_idx e)) (super_reset_idx ids (sim e)) in
  let us' := sample_uniform (lo' * PI) (hi' * PI) (length ids)
               (length (_elbow_dof_idx e)) us.2 in
  Forall (λ i, (0 ≤ i < Z.of_nat (length (joint_pos (robot_data e))))%Z) ids →
  ∃ jp0 jp1 jp2 jv0 pos' vel' count' s',
    index_rows (default_joint_pos (robot_data e)) ids = Some jp0
    ∧ iadd_cols jp0 (_shoulder_dof_idx e) us.1 = Some jp1
    ∧ iadd_cols jp1 (_elbow_dof_idx e) us'.1 = Some jp2
    ∧ index_rows (default_joint_vel (robot_data e)) ids = Some jv0
    ∧ index_put_loop (joint_pos (robot_data e)) ids jp2 = Some pos'
    ∧ index_put_loop (joint_vel (robot_data e)) ids jv0 = Some vel'
    ∧ index_fill (_stable_count e) ids 0%Z = Some count'
    ∧ length jp0 = length ids ∧ length jp1 = length ids
    ∧ length jp2 = length ids ∧ length jv0 = length ids
    ∧ Forall (λ row : list R, length row = w) jp0
    ∧ Forall (λ row : list R, length row = w) jp1
    ∧ Forall (λ row : list R, length row = w) jp2
    ∧ Forall (λ row : list R, length row = w) jv0
    ∧ _reset_idx env_ids e
      = Some {| cfg := cfg e;
                robot_data :=
                  {| joint_pos := pos'; joint_vel := vel';
                     default_joint_pos := default_joint_pos (robot_data e);
                     default_joint_vel := default_joint_vel (robot_data e);
                     default_root_state := default_root_state (robot_data e) |};
                robot_ALL_INDICES := robot_ALL_INDICES e;
                scene_env_origins := scene_env_origins e;
                _shoulder_dof_idx := _shoulder_dof_idx e;
                _elbow_dof_idx := _elbow_dof_idx e;
                _stable_count := count';
                actions := actions e; sim := s' |}.
Proof.
  intros Hsample Hshape Hlo Hhi Hlo' Hhi' ids us us' Hids.
  destruct Hshape as [Hvel Hdpos Hdvel Hroot Horig Hcount Hposw Hvelw Hdposw
    Hdvelw Hsh Hel Hrootw Horigw Hshr Helr].
  unfold _reset_idx. fold ids.
  rewrite (call_super_reset_idx_in_range e ids Hids). cbn [mbind option_bind].
  rewrite Hlo, Hhi, Hlo', Hhi'.
  destruct (index_rows_total (λ row : list R, length row = w)
              (default_joint_pos (robot_data e)) ids)
    as (jp0 & Hjp0 & Hjp0len & Hjp0w); [by rewrite Hdpos | done |].
  rewrite Hjp0. cbn [mbind option_bind]. rewrite Hjp0len. fold us.
  destruct (Hsample (lo * PI) (hi * PI) (length ids)
              (length (_shoulder_dof_idx e)) (super_reset_idx ids (sim e)))
    as [Hu1 Hu1w]. fold us in Hu1, Hu1w.
  destruct (iadd_cols_total w jp0 (_shoulder_dof_idx e) us.1)
    as (jp1 & Hjp1 & Hjp1len & Hjp1w); try done; [lia |].
  rewrite Hjp1. cbn [mbind option_bind]. rewrite Hjp1len, Hjp0len. fold us'.
  destruct (Hsample (lo' * PI) (hi' * PI) (length ids)
              (length (_elbow_dof_idx e)) us.2) as [Hu2 Hu2w].
  fold us' in Hu2, Hu2w.
  destruct (iadd_cols_total w jp1 (_elbow_dof_idx e) us'.1)
    as (jp2 & Hjp2 & Hjp2len & Hjp2w); try done; [lia |].
  rewrite Hjp2. cbn [mbind option_bind].
  destruct (index_rows_total (λ row : list R, length row = w)
              (default_joint_vel (robot_data e)) ids)
    as (jv0 & Hjv0 & Hjv0len & Hjv0w); [by rewrite Hdvel | done |].
  rewrite Hjv0. cbn [mbind option_bind].
  destruct (index_rows_total (λ row : list R, (3 ≤ length row)%nat)
              (default_root_state (robot_data e)) ids)
    as (root0 & -> & Hroot0len & Hroot0w); [by rewrite Hroot | done |].
  cbn [mbind option_bind].
  destruct (index_rows_total (λ row : list R, length row = 3%nat)
              (scene_env_origins e) ids)
    as (orig & -> & Horiglen & Horigw'); [by rewrite Horig | done |].
  cbn [mbind option_bind].
  destruct (iadd_prefix_total 3 root0 orig)
    as (root1 & -> & Hroot1len); [done | lia | done |].
  cbn [mbind option_bind].
  unfold index_put_rows.
  rewrite (expand_same_length (length ids) jp2) by lia.
  rewrite (expand_same_length (length ids) jv0) by lia.
  cbn [mbind option_bind].
  destruct (index_put_loop_frame w (joint_pos (robot_data e)) ids jp2)
    as (pos' & Hpos' & _); [done | lia | done | done |].
  rewrite Hpos'. cbn [mbind option_bind].
  destruct (index_put_loop_frame w (joint_vel (robot_data e)) ids jv0)
    as (vel' & Hvel' & _); [by rewrite Hvel | lia | done | done |].
  rewrite Hvel'. cbn [mbind option_bind].
  destruct (index_fill_frame (_stable_count e) ids 0%Z)
    as (count' & Hcount' & _); [by rewrite Hcount |].
  rewrite Hcount'. cbn [mbind option_bind].
  eexists jp0, jp1, jp2, jv0, pos', vel', count', _.
  repeat (split; [first [done | lia] |]). reflexivity.
Qed.

(** X11.  With one shoulder and one elbow joint, a reset gives every selected
    row the default joint positions, the shoulder and elbow angles each
    moved by one of the offsets sampled between the configured bounds times
    π, the default joint velocities, and a counter of 0. *)
Theorem reset_selected_rows (e : Env Sim) (env_ids : option (list Z)) (w si ei : nat)
    (lo hi lo' hi' : R) :
  sample_uniform_shaped →
  reset_shape e w →
  _shoulder_dof_idx e = [si] → _elbow_dof_idx e = [ei] → si ≠ ei →
  initial_shoulder_angle_range (cfg e) !! 0%nat = Some lo →
  initial_shoulder_angle_range (cfg e) !! 1%nat = Some hi →
  initial_elbow_angle_range (cfg e) !! 0%nat = Some lo' →
  initial_elbow_angle_range (cfg e) !! 1%nat = Some hi' →
  let ids := default (robot_ALL_INDICES e) env_ids in
  let us := sample_uniform (lo * PI) (hi * PI) (length ids) 1
              (super_reset_idx ids (sim e)) in
  let us' := sample_uniform (lo' * PI) (hi' * PI) (length ids) 1 us.2 in
  Forall (λ i, (0 ≤ i < Z.of_nat (length (joint_pos (robot_data e))))%Z) ids →
  ∃ e' : Env Sim,
    _reset_idx env_ids e = Some e'
    ∧ ∀ j : nat, Z.of_nat j ∈ ids →
        ∃ (p : nat) (d row' : list R) (u u' : R),
          ids !! p = Some (Z.of_nat j)
          ∧ default_joint_pos (robot_data e) !! j = Some d
          ∧ us.1 !! p = Some [u] ∧ us'.1 !! p = Some [u']
          ∧ joint_pos (robot_data e') !! j = Some row'
          ∧ row' !! si = Some (nth si d 0 + u)
          ∧ row' !! ei = Some (nth ei d 0 + u')
          ∧ (∀ c : nat, c ≠ si → c ≠ ei → row' !! c = d !! c)
          ∧ joint_vel (robot_data e') !! j
            = default_joint_vel (robot_data e) !! j
          ∧ _stable_count e' !! j = Some 0%Z.
Proof.
  intros Hsample Hshape Hsi Hei Hne Hlo Hhi Hlo' Hhi' ids us us' Hids.
  destruct (reset_idx_steps e env_ids w lo hi lo' hi' Hsample Hshape
              Hlo Hhi Hlo' Hhi' Hids)
    as (jp0 & jp1 & jp2 & jv0 & pos' & vel' & count' & s' & Hjp0 & Hjp1 & Hjp2
        & Hjv0 & Hpos' & Hvel' & Hcount' & L0 & L1 & L2 & Lv & W0 & W1 & W2
        & Wv & Hreset).
  rewrite Hsi in Hjp1, Hjp2. rewrite Hei in Hjp2.
  cbn [length] in Hjp1, Hjp2.
  fold ids in Hjp0, Hjp1, Hjp2, Hjv0, Hpos', Hvel', Hcount', L0, L1, L2, Lv.
  fold us in Hjp1, Hjp2. fold us' in Hjp2.
  destruct Hshape as [Hvel Hdpos Hdvel Hroot Horig Hcount Hposw Hvelw Hdposw
    Hdvelw Hsh Hel Hrootw Horigw Hshr Helr].
  rewrite Hsi in Hsh. rewrite Hei in Hel.
  apply Forall_cons in Hsh as [Hsiw _]. apply Forall_cons in Hel as [Heiw _].
  destruct (Hsample (lo * PI) (hi * PI) (length ids) 1%nat
              (super_reset_idx ids (sim e))) as [Hu1 Hu1w].
  destruct (Hsample (lo' * PI) (hi' * PI) (length ids) 1%nat us.2) as [Hu2 Hu2w].
  fold us in Hu1, Hu1w. fold us' in Hu2, Hu2w.
  eexists. split; [exact Hreset |]. cbn [robot_data joint_pos joint_vel _stable_count].
  intros j Hj.
  assert (Hjr : (0 ≤ Z.of_nat j < Z.of_nat (length (joint_pos (robot_data e))))%Z).
  { rewrite Forall_forall in Hids. by apply Hids. }
  destruct (index_put_loop_selected w _ ids jp2 pos' j Hpos')
    as (p & row' & Hp & Hrow' & Hres); [done | lia | done | done | done |].
  destruct (index_put_loop_selected w _ ids jv0 vel' j Hvel')
    as (p' & vrow & Hp' & Hvrow & Hvres);
    [by rewrite Hvel | lia | done | done | done |].
  pose proof (index_rows_lookup _ ids jp0 p _ Hjp0 Hp) as Hd.
  rewrite Hdpos, Nat2Z.id in Hd. specialize (Hd Hjr).
  pose proof (index_rows_lookup _ ids jv0 p' _ Hjv0 Hp') as Hdv.
  rewrite Hdvel, Nat2Z.id in Hdv. specialize (Hdv Hjr).
  destruct (lookup_lt_is_Some_2 (default_joint_pos (robot_data e)) j) as [d Hdj];
    [lia |].
  assert (Hdw : length d = w) by exact (Forall_lookup_1 _ _ _ _ Hdposw Hdj).
  assert (Hplt : (p < length ids)%nat) by (by eapply lookup_lt_Some).
  destruct (lookup_lt_is_Some_2 us.1 p) as [urow Hurow]; [lia |].
  destruct (lookup_lt_is_Some_2 us'.1 p) as [urow' Hurow']; [lia |].
  pose proof (Forall_lookup_1 _ _ _ _ Hu1w Hurow) as Hul. simpl in Hul.
  pose proof (Forall_lookup_1 _ _ _ _ Hu2w Hurow') as Hul'. simpl in Hul'.
  destruct urow as [| u [| ? ?]]; try done.
  destruct urow' as [| u' [| ? ?]]; try done.
  rewrite Hdj in Hd.
  pose proof (iadd_cols_one jp0 si us.1 jp1 p d u Hjp1 ltac:(lia) Hd Hurow
                ltac:(lia)) as Hrow1.
  assert (Hw1 : length (<[si := nth si d 0 + u]> d) = w)
    by (by rewrite length_insert).
  pose proof (iadd_cols_one jp1 ei us'.1 jp2 p _ u' Hjp2 ltac:(lia) Hrow1 Hurow'
                ltac:(lia)) as Hrow2.
  rewrite Hrow2 in Hrow'. injection Hrow' as <-.
  exists p, d, (<[ei := nth ei (<[si := nth si d 0 + u]> d) 0 + u']>
                 (<[si := nth si d 0 + u]> d)), u, u'.
  split; [done |]. split; [done |]. split; [done |]. split; [done |].
  split; [exact Hres |].
  split.
  { rewrite list_lookup_insert_ne by done.
    apply list_lookup_insert_eq. lia. }
  split.
  { rewrite list_lookup_insert_eq by lia. do 2 f_equal.
    destruct (lookup_lt_is_Some_2 d ei ltac:(lia)) as [x Hx].
    assert (Hx' : <[si := nth si d 0 + u]> d !! ei = Some x)
      by (by rewrite list_lookup_insert_ne).
    apply nth_lookup_Some with (d := 0) in Hx, Hx'. congruence. }
  split.
  { intros c Hc1 Hc2. by rewrite !list_lookup_insert_ne. }
  split; [by rewrite Hvres, <- Hvrow, Hdv |].
  destruct (index_fill_frame (_stable_count e) ids 0%Z)
    as (count'' & Hc'' & _ & _ & Hset); [by rewrite Hcount |].
  assert (count'' = count') as -> by congruence.
  apply Hset; [done | lia].
Qed.


(** X13.  A reset keeps the buffers well-shaped, so that observations,
    rewards and further resets go through afterwards, and leaves the
    configuration, the actions and the default buffers as they are. *)
Theorem reset_keeps_shapes (e : Env Sim) (env_ids : option (list Z)) (w : nat) :
  sample_uniform_shaped →
  reset_shape e w →
  Forall (λ i, (0 ≤ i < Z.of_nat (length (joint_pos (robot_data e))))%Z)
         (default (robot_ALL_INDICES e) env_ids) →
  ∃ e' : Env Sim,
    _reset_idx env_ids e = Some e'
    ∧ reset_shape e' w
    ∧ (∀ si ei, observation_shape e si ei → observation_shape e' si ei)
    ∧ (∀ si ei act, reward_shape e si ei act → reward_shape e' si ei act)
    ∧ cfg e' = cfg e ∧ actions e' = actions e
    ∧ default_joint_pos (robot_data e') = default_joint_pos (robot_data e)
    ∧ default_joint_vel (robot_data e') = default_joint_vel (robot_data e).
Proof.
  intros Hsample Hshape Hids.
  destruct (lookup_lt_is_Some_2 (initial_shoulder_angle_range (cfg e)) 0)
    as [lo Hlo]; [pose proof (rt_shoulder_range _ _ Hshape); lia |].
  destruct (lookup_lt_is_Some_2 (initial_shoulder_angle_range (cfg e)) 1)
    as [hi Hhi]; [pose proof (rt_shoulder_range _ _ Hshape); lia |].
  destruct (lookup_lt_is_Some_2 (initial_elbow_angle_range (cfg e)) 0)
    as [lo' Hlo']; [pose proof (rt_elbow_range _ _ Hshape); lia |].
  destruct (lookup_lt_is_Some_2 (initial_elbow_angle_range (cfg e)) 1)
    as [hi' Hhi']; [pose proof (rt_elbow_range _ _ Hshape); lia |].
  destruct (reset_idx_steps e env_ids w lo hi lo' hi' Hsample Hshape
              Hlo Hhi Hlo' Hhi' Hids)
    as (jp0 & jp1 & jp2 & jv0 & pos' & vel' & count' & s' & Hjp0 & Hjp1 & Hjp2
        & Hjv0 & Hpos' & Hvel' & Hcount' & L0 & L1 & L2 & Lv & W0 & W1 & W2
        & Wv & Hreset).
  destruct Hshape as [Hvel Hdpos Hdvel Hroot Horig Hcount Hposw Hvelw Hdposw
    Hdvelw Hsh Hel Hrootw Horigw Hshr Helr].
  set (ids := default (robot_ALL_INDICES e) env_ids) in *.
  destruct (index_put_loop_frame w (joint_pos (robot_data e)) ids jp2)
    as (pos'' & Hpos'' & Hposlen & _); [done | lia | done | done |].
  assert (pos'' = pos') as -> by congruence.
  destruct (index_put_loop_frame w (joint_vel (robot_data e)) ids jv0)
    as (vel'' & Hvel'' & Hvellen & _); [by rewrite Hvel | lia | done | done |].
  assert (vel'' = vel') as -> by congruence.
  destruct (index_fill_frame (_stable_count e) ids 0%Z)
    as (count'' & Hc'' & Hcountlen & _); [by rewrite Hcount |].
  assert (count'' = count') as -> by congruence.
  pose proof (index_put_loop_width w _ _ _ _ Hpos' Hposw) as Hposw'.
  pose proof (index_put_loop_width w _ _ _ _ Hvel' Hvelw) as Hvelw'.
  assert (Hobs : ∀ si ei, observation_shape e si ei →
            observation_shape
              {| cfg := cfg e;
                 robot_data :=
                   {| joint_pos := pos'; joint_vel := vel';
                      default_joint_pos := default_joint_pos (robot_data e);
                      default_joint_vel := default_joint_vel (robot_data e);
                      default_root_state := default_root_state (robot_data e) |};
                 robot_ALL_INDICES := robot_ALL_INDICES e;
                 scene_env_origins := scene_env_origins e;
                 _shoulder_dof_idx := _shoulder_dof_idx e;
                 _elbow_dof_idx := _elbow_dof_idx e;
                 _stable_count := count';
                 actions := actions e; sim := s' |} si ei).
  { intros si ei [H1 H2 H3 H4 H5].
    assert (Hcols : joint_pos (robot_data e) = [] ∨ (si < w ∧ ei < w)%nat).
    { destruct (joint_pos (robot_data e)) as [| row rest]; [by left |]. right.
      apply Forall_cons in H4 as [? _]. apply Forall_cons in Hposw as [? _].
      lia. }
    constructor; cbn [_shoulder_dof_idx _elbow_dof_idx robot_data joint_pos
                       joint_vel]; try done.
    - lia.
    - destruct Hcols as [Hnil | Hlt].
      + rewrite Hnil in Hposlen. destruct pos'; [constructor | done].
      + eapply Forall_impl; [exact Hposw' |]. simpl. lia.
    - destruct Hcols as [Hnil | Hlt].
      + rewrite Hnil in Hvel. rewrite Hvel in Hvellen.
        destruct vel'; [constructor | done].
      + eapply Forall_impl; [exact Hvelw' |]. simpl. lia. }
  eexists. split; [exact Hreset |]. split.
  { constructor; cbn [robot_data joint_pos joint_vel default_joint_pos
      default_joint_vel default_root_state scene_env_origins _stable_count
      _shoulder_dof_idx _elbow_dof_idx cfg]; try done; lia. }
  split; [exact Hobs |]. split; [| done].
  intros si ei act [R1 R2 R3 R4 R5 R6].
  constructor; cbn [cfg actions robot_data joint_pos _stable_count]; try done.
  - by apply Hobs.
  - lia.
  - lia.
Qed.
End Reset_more.
(** ** The further properties at the example environments *)

Lemma observation_angles_normalized_witness :
  observation_shape example_env 0 1
  ∧ ∃ obs, _get_observations example_env = Some {["pendulum" := obs]}
      ∧ length obs = length (joint_pos (robot_data example_env))
      ∧ ∀ (i : nat) (row : list R), obs !! i = Some row →
          ∃ (p : list R) (a b v1 v2 : R),
            joint_pos (robot_data example_env) !! i = Some p
            ∧ row = [a; b; v1; v2]
            ∧ a = normalize_angle (nth 0 p 0%R)
            ∧ b = normalize_angle (nth 1 p 0%R)
            ∧ (- PI <= a < PI)%R ∧ (- PI <= b < PI)%R
            ∧ (∃ k : Z, nth 0 p 0%R = (a + 2 * PI * IZR k)%R)
            ∧ (∃ k : Z, nth 1 p 0%R = (b + 2 * PI * IZR k)%R).
Proof.
  split; [exact example_env_observation_shape |].
  exact (observation_angles_normalized example_env 0 1
           example_env_observation_shape).
Defined.

Lemma example_env_turned_joint_pos :
  Forall2 (λ p1 p2 : list R,
             length p1 = length p2
             ∧ (∃ k : Z, nth 0 p2 0%R = (nth 0 p1 0 + 2 * PI * IZR k)%R)
             ∧ (∃ k : Z, nth 1 p2 0%R = (nth 1 p1 0 + 2 * PI * IZR k)%R))
          (joint_pos (robot_data example_env))
          (joint_pos (robot_data example_env_turned)).
Proof.
  repeat constructor; cbn.
  - by exists 1%Z.
  - by exists 0%Z.
  - by exists 0%Z.
  - by exists (-1)%Z.
Qed.

Lemma observation_periodic_witness :
  joint_pos (robot_data example_env_turned) !! 0%nat
  = Some [- PI + 2 * PI * 1; 0 + 2 * PI * 0]%R
  ∧ is_Some (_get_observations example_env)
  ∧ _get_observations example_env_turned = _get_observations example_env.
Proof.
  split; [reflexivity |].
  exact (observation_periodic example_env example_env_turned 0 1
           example_env_observation_shape eq_refl eq_refl eq_refl eq_refl
           example_env_turned_joint_pos).
Defined.

Lemma example_env_rows : (0 < length (joint_pos (robot_data example_env)))%nat.
Proof. cbn. lia. Qed.

Lemma state_cost_weighted_squares_witness :
  reward_shape example_env 0 1 [[2]; [0]]%R
  ∧ ∃ (L : RewardLocals) (er : list R),
      _get_rewards_locals example_env = Some L
      ∧ rw_error L !! 0%nat = Some er
      ∧ rw_state_cost L !! 0%nat
        = Some (sum_list (zip_with (λ w x, w * (x * x))%R
                            (reward_state_weights (cfg example_env)) er))
      ∧ (Forall (λ w, 0 <= w)%R (reward_state_weights (cfg example_env)) →
         (0 <= sum_list (zip_with (λ w x, w * (x * x))%R
                           (reward_state_weights (cfg example_env)) er))%R).
Proof.
  split; [exact example_env_reward_shape |].
  exact (state_cost_weighted_squares example_env 0 1 [[2]; [0]]%R 0
           example_env_reward_shape example_env_rows).
Defined.

Lemma angle_shaping_bounds_witness :
  reward_shape example_env 0 1 [[2]; [0]]%R
  ∧ ∃ (L : RewardLocals) (sh : list R) (b0 b : R),
      _get_rewards_locals example_env = Some L
      ∧ rw_angle_shaping L !! 0%nat = Some sh
      ∧ rw_base_reward0 L !! 0%nat = Some b0
      ∧ rw_base_reward L !! 0%nat = Some b
      ∧ b = (b0 + sum_list sh * 0.01)%R
      ∧ (0 < sum_list sh * 0.01 <= 0.02)%R.
Proof.
  split; [exact example_env_reward_shape |].
  exact (angle_shaping_bounds example_env 0 1 [[2]; [0]]%R 0
           example_env_reward_shape example_env_rows).
Defined.

Lemma example_env_weights_nonneg :
  Forall (λ w, 0 <= w)%R (reward_state_weights (cfg example_env))
  ∧ (0 <= reward_action_weight (cfg example_env))%R
  ∧ (0 <= reward_scale (cfg example_env))%R.
Proof. cbn. repeat split; repeat constructor; lra. Qed.

Lemma reward_upper_bound_witness :
  reward_shape example_env 0 1 [[2]; [0]]%R
  ∧ ∃ (L : RewardLocals) (r : R) (c : bool),
      _get_rewards_locals example_env = Some L
      ∧ rw_reward L !! 0%nat = Some r
      ∧ rw_stable_condition L !! 0%nat = Some c
      ∧ (r <= - time_penalty (cfg example_env) + 0.02
              + (if c then bonus_reward (cfg example_env) else 0))%R.
Proof.
  split; [exact example_env_reward_shape |].
  exact (reward_upper_bound example_env 0 1 [[2]; [0]]%R 0
           example_env_reward_shape example_env_rows
           (proj1 example_env_weights_nonneg)
           (proj1 (proj2 example_env_weights_nonneg))
           (proj2 (proj2 example_env_weights_nonneg))).
Defined.

Lemma stable_row_components_witness :
  reward_shape example_env 0 1 [[2]; [0]]%R
  ∧ ∃ (L : RewardLocals) (er : list R) (c : bool),
      _get_rewards_locals example_env = Some L
      ∧ rw_error L !! 0%nat = Some er
      ∧ rw_stable_condition L !! 0%nat = Some c
      ∧ (c = true →
         Forall (λ x, Rabs x < success_threshold (cfg example_env))%R er)
      ∧ (Forall (λ x, Rabs x < success_threshold (cfg example_env) / 2)%R er →
         c = true).
Proof.
  split; [exact example_env_reward_shape |].
  exact (stable_row_components example_env 0 1 [[2]; [0]]%R 0
           example_env_reward_shape example_env_rows).
Defined.

Lemma example_env_goal_normalized :
  ∀ (k : nat) (g : R), (k < 2)%nat →
    goal_state (cfg example_env) !! k = Some g → (- PI <= g < PI)%R.
Proof.
  pose proof PI_RGT_0. intros [| [| k]] g Hk Hg; cbn in Hg; try lia;
    injection Hg as <-; lra.
Qed.

Lemma dones_success_agrees_on_normalized_goal_witness :
  reward_shape example_env 0 1 [[2]; [0]]%R
  ∧ ∃ (L : RewardLocals) (D : DoneLocals),
      _get_rewards_locals example_env = Some L
      ∧ _get_dones_locals example_env = Some D
      ∧ dn_goal D = rw_goal_tensor L
      ∧ dn_error_norm D = rw_error_norm L
      ∧ dn_success D = rw_stable_condition L.
Proof.
  split; [exact example_env_reward_shape |].
  exact (dones_success_agrees_on_normalized_goal example_env 0 1 [[2]; [0]]%R
           example_env_reward_shape example_env_goal_normalized).
Defined.

(** One stable step of the first row of the example. *)
Lemma example_env_streak :
  ∃ (e' : Env TorchSim) (D : DoneLocals),
    streak 0 1 example_env e' ∧ _get_dones_locals e' = Some D.
Proof.
  destruct (get_rewards_locals_shape _ 0 1 _ example_env_reward_shape)
    as (L & HL & Heq).
  pose proof example_env_observations as Hobs.
  rewrite (get_observations_rows _ 0 1 example_env_observation_shape) in Hobs.
  apply singleton_pendulum_inj in Hobs.
  rewrite Hobs in Heq.
  destruct (reward_equations_row example_env _ _ L 0 [- PI; 0; 0; 0]%R [2%R] 0%Z
              Heq eq_refl eq_refl eq_refl) as (_ & _ & _ & E4 & _).
  assert (Herr : error_row (cfg example_env) [- PI; 0; 0; 0]%R = [0; 0; 0; 0]%R).
  { unfold error_row, normalized_goal. cbn.
    rewrite normalize_angle_neg_PI, normalize_angle_0. repeat f_equal; lra. }
  rewrite Herr, norm_row_zero in E4.
  assert (Hc : R_ltb 0 (success_threshold (cfg example_env)) = true)
    by (apply R_ltb_true; cbn; lra).
  rewrite Hc in E4.
  set (e' := set_stable_count example_env (rw_stable_count L)).
  assert (Hshape' : observation_shape e' 0 1)
    by (constructor; first [reflexivity | repeat constructor]).
  exists e'. eexists. split.
  - eapply streak_get_rewards; [apply streak_start | exact HL | exact E4 |].
    unfold _get_rewards. rewrite HL. reflexivity.
  - exact (get_dones_locals_shape e' 0 1 Hshape' eq_refl).
Qed.

Lemma sustained_after_streak_witness :
  ∃ (e' : Env TorchSim) (D : DoneLocals),
    streak 0 1 example_env e'
    ∧ _get_dones_locals e' = Some D
    ∧ _stable_count e' !! 0%nat = Some (0 + Z.of_nat 1)%Z
    ∧ ∃ b : bool, dn_sustained_stability D !! 0%nat = Some b
        ∧ (b = true ↔ (sustain_steps (cfg e') ≤ 0 + Z.of_nat 1)%Z).
Proof.
  destruct example_env_streak as (e' & D & Hstreak & HD).
  exists e', D. split; [exact Hstreak |]. split; [exact HD |].
  assert (Hlo : (- 2 ^ 31 ≤ 0)%Z) by lia.
  assert (Hhi : (0 + Z.of_nat 1 < 2 ^ 31)%Z) by lia.
  exact (sustained_after_streak 0 1 example_env e' 0 D Hstreak eq_refl
           Hlo Hhi HD).
Defined.

Lemma example_env_ids_in_range :
  Forall (λ i, (0 ≤ i < Z.of_nat
            (length (joint_pos (robot_data example_env))))%Z) [1%Z].
Proof. repeat constructor; cbn; lia. Qed.

Lemma reset_selected_rows_witness :
  reset_shape example_env 2
  ∧ ∃ e' : Env TorchSim,
      _reset_idx (Some [1%Z]) example_env = Some e'
      ∧ ∀ j : nat, Z.of_nat j ∈ [1%Z] →
          ∃ (p : nat) (d row' : list R) (u u' : R),
            [1%Z] !! p = Some (Z.of_nat j)
            ∧ default_joint_pos (robot_data example_env) !! j = Some d
            ∧ (sample_uniform (-1 * PI) (1 * PI) 1 1
                 (super_reset_idx [1%Z] (sim example_env))).1 !! p = Some [u]
            ∧ (sample_uniform (-1 * PI) (1 * PI) 1 1
                 (sample_uniform (-1 * PI) (1 * PI) 1 1
                    (super_reset_idx [1%Z] (sim example_env))).2).1 !! p
              = Some [u']
            ∧ joint_pos (robot_data e') !! j = Some row'
            ∧ row' !! 0%nat = Some (nth 0 d 0 + u)%R
            ∧ row' !! 1%nat = Some (nth 1 d 0 + u')%R
            ∧ (∀ c : nat, c ≠ 0%nat → c ≠ 1%nat → row' !! c = d !! c)
            ∧ joint_vel (robot_data e') !! j
              = default_joint_vel (robot_data example_env) !! j
            ∧ _stable_count e' !! j = Some 0%Z.
Proof.
  split; [exact example_env_reset_shape |].
  assert (Hne : 0%nat ≠ 1%nat) by lia.
  exact (reset_selected_rows example_env (Some [1%Z]) 2 0 1
           (-1) 1 (-1) 1 torch_sample_uniform_shaped example_env_reset_shape
           eq_refl eq_refl Hne eq_refl eq_refl eq_refl eq_refl
           example_env_ids_in_range).
Defined.


Lemma reset_keeps_shapes_witness :
  reset_shape example_env 2
  ∧ ∃ e' : Env TorchSim,
      _reset_idx (Some [1%Z]) example_env = Some e'
      ∧ reset_shape e' 2
      ∧ (∀ si ei, observation_shape example_env si ei →
                  observation_shape e' si ei)
      ∧ (∀ si ei act, reward_shape example_env si ei act →
                      reward_shape e' si ei act)
      ∧ cfg e' = cfg example_env ∧ actions e' = actions example_env
      ∧ default_joint_pos (robot_data e')
        = default_joint_pos (robot_data example_env)
      ∧ default_joint_vel (robot_data e')
        = default_joint_vel (robot_data example_env).
Proof.
  split; [exact example_env_reset_shape |].
  exact (reset_keeps_shapes example_env (Some [1%Z]) 2
           torch_sample_uniform_shaped example_env_reset_shape
           example_env_ids_in_range).
Defined.

(** * Properties of the scripts *)

(** ** Strings *)

Section String_facts.

Lemma string_app_cons (a : ascii) (s t : string) :
  String a s +:+ t = String a (s +:+ t).
Proof. reflexivity. Qed.

Lemma string_app_nil_l (s : string) : "" +:+ s = s.
Proof. reflexivity. Qed.

Lemma string_app_nil_r (s : string) : s +:+ "" = s.
Proof. induction s as [| a s IH]; [done |]. by rewrite string_app_cons, IH. Qed.

Lemma string_app_assoc (a b c : string) : (a +:+ b) +:+ c = a +:+ b +:+ c.
Proof.
  induction a as [| x a IH]; [done |]. by rewrite !string_app_cons, IH.
Qed.

Lemma string_app_length (a b : string) :
  String.length (a +:+ b) = (String.length a + String.length b)%nat.
Proof.
  induction a as [| x a IH]; [done |]. rewrite string_app_cons. cbn. by rewrite IH.
Qed.

Lemma prefix_app (p r : string) : String.prefix p (p +:+ r) = true.
Proof.
  induction p as [| a p IH]; [by destruct r |].
  rewrite string_app_cons. cbn. by destruct (ascii_dec a a).
Qed.

Lemma prefix_inv (p s : string) :
  String.prefix p s = true → ∃ r, s = p +:+ r.
Proof.
  revert s. induction p as [| a p IH]; intros s Hp; [by exists s |].
  destruct s as [| b s]; [done |]. cbn in Hp.
  destruct (ascii_dec a b) as [-> |]; [| done].
  destruct (IH s Hp) as [r ->]. by exists r.
Qed.

Lemma prefix_nil_l (s : string) : String.prefix "" s = true.
Proof. by destruct s. Qed.

Lemma rev_app_spec (s t : string) :
  String.rev_app s t = String.rev s +:+ t.
Proof.
  unfold String.rev. revert t. induction s as [| a s IH]; intros t; [done |].
  cbn. rewrite IH, (IH (String a "")). by rewrite string_app_assoc.
Qed.

Lemma string_rev_app (s t : string) :
  String.rev (s +:+ t) = String.rev t +:+ String.rev s.
Proof.
  induction s as [| a s IH].
  - by rewrite string_app_nil_l, string_app_nil_r.
  - rewrite string_app_cons. unfold String.rev at 1 3. cbn.
    rewrite !rev_app_spec, IH. by rewrite string_app_assoc.
Qed.

Lemma startswith_app (p r : string) : startswith (p +:+ r) p = true.
Proof. apply prefix_app. Qed.

Lemma endswith_app (r p : string) : endswith (r +:+ p) p = true.
Proof. unfold endswith. rewrite string_rev_app. apply prefix_app. Qed.

Lemma skip_app (p r : string) : skip (String.length p) (p +:+ r) = r.
Proof.
  induction p as [| a p IH]; [by destruct r |].
  by rewrite string_app_cons.
Qed.
End String_facts.

(** ** Zero-padded decimals *)

Section Format_facts.

Lemma zeros_add (a b : nat) : zeros (a + b) = zeros a +:+ zeros b.
Proof.
  unfold zeros. induction a as [| a IH]; [done |].
  cbn. by rewrite string_app_cons, <- IH.
Qed.

Lemma pretty_N_char_ne_underscore (x : N) : pretty_N_char x ≠ "_"%char.
Proof. by destruct x as [| [[[[| |] | [| |] |] | [[| |] | [| |] |] |] | [[[| |] | [| |] |] | [[| |] | [| |] |] |] |]]. Qed.

Lemma pretty_N_char_ne_0 (x : N) :
  (0 < x < 10)%N → pretty_N_char x ≠ "0"%char.
Proof.
  intros Hx.
  destruct x as [| [[[[| |] | [| |] |] | [[| |] | [| |] |] |] | [[[| |] | [| |] |] | [[| |] | [| |] |] |] |]]; try done; lia.
Qed.

(** The digits [pretty_N_go] puts before its accumulator. *)
Lemma pretty_N_go_digits (x : N) (s : string) :
  ∃ d, pretty_N_go x s = d +:+ s
       ∧ Forall (λ a, a ≠ "_"%char) (String.list_ascii_of_string d)
       ∧ ((0 < x)%N → ∃ a d', d = String a d' ∧ a ≠ "0"%char).
Proof.
  revert s. induction (N.lt_wf_0 x) as [x _ IH]; intros s.
  destruct (decide (x = 0%N)) as [-> | Hx].
  { exists "". rewrite pretty_N_go_0. split; [done |]. split; [constructor | lia]. }
  rewrite pretty_N_go_step by lia.
  assert (Hmod : (x `mod` 10 < 10)%N) by (apply N.mod_lt; lia).
  destruct (decide (x `div` 10 = 0)%N) as [Hd | Hd].
  - rewrite Hd, pretty_N_go_0.
    exists (String (pretty_N_char (x `mod` 10)) "").
    split; [done |]. split.
    + repeat constructor. apply pretty_N_char_ne_underscore.
    + intros _. eexists _, _. split; [done |].
      apply pretty_N_char_ne_0.
      pose proof (N.div_mod x 10 ltac:(lia)) as Hdm. rewrite Hd in Hdm.
      generalize dependent (x `mod` 10)%N. intros. lia.
  - destruct (IH (x `div` 10)%N ltac:(apply N.div_lt; [by apply N.neq_0_lt_0 | reflexivity])
                (String (pretty_N_char (x `mod` 10)) s))
      as (d1 & Heq & Hall & Hlead).
    exists (d1 +:+ String (pretty_N_char (x `mod` 10)) "").
    split; [by rewrite Heq, string_app_assoc |]. split.
    + clear -Hall. induction d1 as [| a d1 IHd]; cbn.
      * repeat constructor. apply pretty_N_char_ne_underscore.
      * rewrite string_app_cons. cbn. inversion Hall; subst.
        constructor; auto.
    + intros _. destruct Hlead as (a & d' & -> & Ha); [by apply N.neq_0_lt_0 |].
      eexists a, _. by rewrite string_app_cons.
Qed.

Lemma pretty_nat_digits (i : nat) :
  Forall (λ a, a ≠ "_"%char) (String.list_ascii_of_string (pretty i))
  ∧ (pretty i = "0" ∨ ∃ a d, pretty i = String a d ∧ a ≠ "0"%char).
Proof.
  unfold pretty, pretty_nat, pretty, pretty_N.
  destruct (decide (N.of_nat i = 0%N)) as [_ | Hi].
  { split; [repeat constructor; done | by left]. }
  destruct (pretty_N_go_digits (N.of_nat i) "") as (d & -> & Hall & Hlead).
  rewrite string_app_nil_r. split; [done |]. right. apply Hlead. lia.
Qed.

Lemma format_03d_no_underscore (i : nat) :
  Forall (λ a, a ≠ "_"%char) (String.list_ascii_of_string (format_03d i)).
Proof.
  unfold format_03d, zeros. generalize (3 - String.length (pretty i))%nat as k.
  induction k as [| k IH]; cbn.
  - rewrite string_app_nil_l. apply pretty_nat_digits.
  - rewrite string_app_cons. cbn. constructor; [done | exact IH].
Qed.

Lemma zeros_pretty_inj (a b i j : nat) :
  (a ≤ b)%nat → zeros a +:+ pretty i = zeros b +:+ pretty j → i = j.
Proof.
  intros Hab Heq.
  replace b with (a + (b - a))%nat in Heq by lia.
  rewrite zeros_add, string_app_assoc in Heq.
  apply (inj (String.append _)) in Heq.
  destruct (b - a)%nat as [| k] eqn:Hk.
  { rewrite string_app_nil_l in Heq. by apply (inj pretty). }
  exfalso. change (zeros (S k)) with (String "0"%char (zeros k)) in Heq.
  rewrite string_app_cons in Heq.
  destruct (pretty_nat_digits i) as [_ [H0 | (c & d & Hcd & Hc)]].
  - rewrite H0 in Heq. injection Heq as Heq.
    destruct (pretty_nat_digits j) as [_ [Hj | (c & d & Hj & _)]];
      rewrite Hj in Heq; destruct k; discriminate Heq.
  - rewrite Hcd in Heq. by injection Heq as -> _.
Qed.

Lemma format_03d_inj (i j : nat) : format_03d i = format_03d j → i = j.
Proof.
  unfold format_03d. intros Heq.
  destruct (decide (3 - String.length (pretty i) ≤ 3 - String.length (pretty j))%nat).
  - by eapply zeros_pretty_inj.
  - symmetry. eapply (zeros_pretty_inj _ _ j i); [| done]. lia.
Qed.

(** Two strings without an underscore that are followed by one. *)
Lemma separator_inj (d d' r r' : string) :
  Forall (λ a, a ≠ "_"%char) (String.list_ascii_of_string d) →
  Forall (λ a, a ≠ "_"%char) (String.list_ascii_of_string d') →
  d +:+ "_" +:+ r = d' +:+ "_" +:+ r' → d = d'.
Proof.
  revert d'. induction d as [| a d IH]; intros [| a' d'] Hd Hd' Heq; cbn in *.
  - done.
  - rewrite string_app_cons, string_app_nil_l in Heq. injection Heq as <- _.
    by inversion Hd'.
  - rewrite string_app_cons, string_app_nil_l in Heq. injection Heq as -> _.
    by inversion Hd.
  - rewrite !string_app_cons in Heq. injection Heq as -> Heq.
    inversion Hd; inversion Hd'; subst. f_equal. eauto.
Qed.

(** An index formatted with [:03d] and followed by an underscore can be read
    back, whatever comes after. *)
Lemma format_03d_separator_inj (i j : nat) (r r' : string) :
  format_03d i +:+ "_" +:+ r = format_03d j +:+ "_" +:+ r' → i = j.
Proof.
  intros Heq. apply format_03d_inj.
  eapply separator_inj; eauto using format_03d_no_underscore.
Qed.
End Format_facts.

(** ** [itertools.product] *)

Section Product_facts.
Context {A : Type}.

Lemma bind_lookup_uniform {B} (f : A → list B) (l : list A) (m a k : nat) (x : A) :
  (∀ y, length (f y) = m) → l !! a = Some x → (k < m)%nat →
  (l ≫= f) !! (a * m + k)%nat = f x !! k.
Proof.
  intros Hm. revert a. induction l as [| y l IH]; intros a Ha Hk; [done |].
  cbn. destruct a as [| a]; simplify_eq/=.
  - rewrite lookup_app_l; [done | rewrite Hm; lia].
  - rewrite lookup_app_r by (rewrite Hm; lia). rewrite Hm.
    replace (m + a * m + k - m)%nat with (a * m + k)%nat by lia. by apply IH.
Qed.

Lemma length_bind_uniform {B} (f : A → list B) (l : list A) (m : nat) :
  (∀ y, length (f y) = m) → length (l ≫= f) = (length l * m)%nat.
Proof.
  intros Hm. induction l as [| y l IH]; [done |].
  cbn. rewrite length_app, Hm, IH. lia.
Qed.

Lemma product4_length (l : list A) :
  length (product4 l) = (length l * (length l * (length l * length l)))%nat.
Proof.
  unfold product4.
  rewrite (length_bind_uniform _ l (length l * (length l * length l))); [lia |].
  intros a. rewrite (length_bind_uniform _ l (length l * length l)); [lia |].
  intros b. rewrite (length_bind_uniform _ l (length l)); [lia |].
  intros c. rewrite (length_bind_uniform _ l 1); [lia | done].
Qed.

Lemma product4_lookup (l : list A) (a b c d : nat) (xa xb xc xd : A) :
  l !! a = Some xa → l !! b = Some xb → l !! c = Some xc → l !! d = Some xd →
  let n := length l in
  product4 l !! (a * (n * (n * n)) + (b * (n * n) + (c * n + d)))%nat
  = Some (xa, xb, xc, xd).
Proof.
  intros Ha Hb Hc Hd n. unfold product4.
  pose proof (lookup_lt_Some _ _ _ Ha). pose proof (lookup_lt_Some _ _ _ Hb).
  pose proof (lookup_lt_Some _ _ _ Hc). pose proof (lookup_lt_Some _ _ _ Hd).
  assert (Hl1 : ∀ (x y z : A), length (l ≫= λ d0, [(x, y, z, d0)]) = n).
  { intros. rewrite (length_bind_uniform _ l 1); [unfold n; lia | done]. }
  assert (Hl2 : ∀ (x y : A),
             length (l ≫= λ c0, l ≫= λ d0, [(x, y, c0, d0)]) = (n * n)%nat).
  { intros. by rewrite (length_bind_uniform _ l n). }
  assert (Hl3 : ∀ (x : A),
             length (l ≫= λ b0, l ≫= λ c0, l ≫= λ d0, [(x, b0, c0, d0)])
             = (n * (n * n))%nat).
  { intros. by rewrite (length_bind_uniform _ l (n * n)). }
  rewrite (bind_lookup_uniform _ l (n * (n * n)) a _ xa); [| done | done |].
  2: { fold n in H, H0, H1, H2. nia. }
  rewrite (bind_lookup_uniform _ l (n * n) b _ xb); [| done | done |].
  2: { fold n in H, H0, H1, H2. nia. }
  rewrite (bind_lookup_uniform _ l n c _ xc); [| done | done | done].
  replace d with (d * 1 + 0)%nat by lia.
  rewrite (bind_lookup_uniform _ l 1 d _ xd); [done | done | done | lia].
Qed.
End Product_facts.

(** ** grid_search_driver.py *)

Section Driver_facts.
Context {World : Type}.
Context (float_str : R → string).
Context (subprocess_run : list string → World → (string + CompletedProcess) * World).

Lemma driver_main_loop_spec (runs : list (nat * (R * R * R * R))) (w : World) :
  ∃ ok bad e w',
    GridSearchDriver.main_loop float_str subprocess_run runs w = (ok ++ bad, e, w')
    ∧ GridSearchDriver.launch_cmd <$> (ok ++ bad)
      = take (length (ok ++ bad))
             ((λ r, GridSearchDriver.cmd float_str r.1 r.2) <$> runs)
    ∧ Forall (λ l, ∃ w0, GridSearchDriver.launch_result l
                         = (subprocess_run (GridSearchDriver.launch_cmd l) w0).1)
             (ok ++ bad)
    ∧ Forall (λ l, ∃ p, GridSearchDriver.launch_result l = inr p
                        ∧ returncode p = 0%Z) ok
    ∧ match e with
      | None => bad = [] ∧ length ok = length runs
      | Some err =>
          ∃ l, bad = [l]
               ∧ match GridSearchDriver.launch_result l with
                 | inl message => err = GridSearchDriver.Propagated message
                 | inr p =>
                     returncode p ≠ 0%Z
                     ∧ err = GridSearchDriver.CalledProcessError
                               (returncode p) (GridSearchDriver.launch_cmd l)
                 end
      end.
Proof.
  revert w. induction runs as [| [i c] runs IH]; intros w.
  { exists [], [], None, w. cbn. repeat split; constructor. }
  cbn [GridSearchDriver.main_loop].
  destruct (subprocess_run (GridSearchDriver.cmd float_str i c) w) as [r w1] eqn:Hrun.
  assert (Hres : ∃ w0 : World,
             r = (subprocess_run (GridSearchDriver.cmd float_str i c) w0).1)
    by (exists w; by rewrite Hrun).
  destruct r as [message | completed].
  { eexists [], [_], _, w1. cbn. split; [done |]. split; [done |].
    split; [by repeat constructor |]. split; [constructor |]. by eexists. }
  destruct (decide (returncode completed = 0%Z)) as [Hz | Hnz].
  - destruct (IH w1) as (ok & bad & e & w' & Heq & Hcmds & Hres' & Hok & He).
    rewrite Heq.
    exists ({| GridSearchDriver.launch_cmd := GridSearchDriver.cmd float_str i c;
               GridSearchDriver.launch_result := inr completed |} :: ok),
      bad, e, w'.
    split; [done |]. split; [cbn in *; by rewrite Hcmds |].
    split; [by constructor |]. split; [constructor; eauto |].
    destruct e as [err |]; [done |]. destruct He as [-> He]. cbn. by rewrite He.
  - eexists [], [_], _, w1. cbn. split; [done |]. split; [done |].
    split; [by repeat constructor |]. split; [constructor |].
    eexists. split; [done |]. by cbn.
Qed.

(** X14.  The run names of two iterations of the driver differ, whatever the
    weights and their text are: the position, written with three digits or
    more, can be read back from the name.  So every run logs under a name of
    its own. *)
Theorem driver_run_names_distinct (i j : nat) (c c' : R * R * R * R) :
  i ≠ j →
  GridSearchDriver.run_name float_str i c
  ≠ GridSearchDriver.run_name float_str j c'.
Proof.
  intros Hij Heq. apply Hij.
  destruct c as [[[w1 w2] w3] w4], c' as [[[v1 v2] v3] v4].
  unfold GridSearchDriver.run_name in Heq.
  apply (inj (String.append _)) in Heq.
  by apply format_03d_separator_inj in Heq.
Qed.

(** X15.  When no training run fails, the driver launches 81 runs and stops
    without an exception.  The run at position 27a + 9b + 3c + d is the one
    for the weights of positions a, b, c and d in [WEIGHT_VALUES]: the base
    command, followed by the run name of that position and by the override of
    [env.reward_state_weights] with these four weights. *)
Theorem driver_covers_grid (w : World) :
  (∀ cmd w0, ∃ p, (subprocess_run cmd w0).1 = inr p ∧ returncode p = 0%Z) →
  ∃ ls w',
    GridSearchDriver.main float_str subprocess_run w = (ls, None, w')
    ∧ length ls = 81%nat
    ∧ ∀ (a b c d : nat) (wa wb wc wd : R),
        GridSearchDriver.WEIGHT_VALUES !! a = Some wa →
        GridSearchDriver.WEIGHT_VALUES !! b = Some wb →
        GridSearchDriver.WEIGHT_VALUES !! c = Some wc →
        GridSearchDriver.WEIGHT_VALUES !! d = Some wd →
        GridSearchDriver.launch_cmd <$> ls !! (27 * a + 9 * b + 3 * c + d)%nat
        = Some (GridSearchDriver.base_cmd
                ++ ["--run_name";
                    GridSearchDriver.run_name float_str
                      (27 * a + 9 * b + 3 * c + d) (wa, wb, wc, wd);
                    "env.reward_state_weights=[" +:+ float_str wa +:+ ","
                      +:+ float_str wb +:+ "," +:+ float_str wc +:+ ","
                      +:+ float_str wd +:+ "]"]).
Proof.
  intros Hsucc. unfold GridSearchDriver.main.
  destruct (driver_main_loop_spec (enumerate GridSearchDriver.all_combos) w)
    as (ok & bad & e & w' & Heq & Hcmds & Hres & Hok & He).
  assert (Hlen : length GridSearchDriver.all_combos = 81%nat)
    by (unfold GridSearchDriver.all_combos; by rewrite product4_length).
  destruct e as [err |].
  { exfalso. destruct He as (l & -> & Hl).
    apply Forall_app in Hres as [_ Hres]. apply Forall_singleton in Hres as [w0 Hw0].
    destruct (Hsucc (GridSearchDriver.launch_cmd l) w0) as (p & Hp & Hz).
    rewrite Hw0, Hp in Hl. by destruct Hl. }
  destruct He as [-> He]. rewrite app_nil_r in *.
  unfold enumerate in He, Hcmds. rewrite length_imap in He.
  exists ok, w'. split; [done |]. split; [lia |].
  intros a b c d wa wb wc wd Ha Hb Hc Hd.
  assert (Hl : (GridSearchDriver.launch_cmd <$> ok)
               !! (27 * a + 9 * b + 3 * c + d)%nat
             = ((λ r, GridSearchDriver.cmd float_str r.1 r.2)
                <$> imap pair GridSearchDriver.all_combos)
               !! (27 * a + 9 * b + 3 * c + d)%nat).
  { rewrite Hcmds, take_ge; [done |]. rewrite length_fmap, length_imap. lia. }
  rewrite <- list_lookup_fmap, Hl, list_lookup_fmap, list_lookup_imap.
  assert (Hp : GridSearchDriver.all_combos
               !! (a * 27 + (b * 9 + (c * 3 + d)))%nat = Some (wa, wb, wc, wd))
    by exact (product4_lookup GridSearchDriver.WEIGHT_VALUES a b c d
                wa wb wc wd Ha Hb Hc Hd).
  replace (27 * a + 9 * b + 3 * c + d)%nat
    with (a * 27 + (b * 9 + (c * 3 + d)))%nat by lia.
  by rewrite Hp.
Qed.

(** X16.  The driver stops at the first run that fails.  The commands it
    launches are the first ones of the 81, in their order; every launch but
    the last ended with exit code 0; and [main] raises exactly when the last
    launch raised or ended with another exit code, with the exception of that
    launch.  Without an exception all 81 runs were launched. *)
Theorem driver_stops_at_first_failure (w : World) :
  ∃ ok bad e w',
    GridSearchDriver.main float_str subprocess_run w = (ok ++ bad, e, w')
    ∧ GridSearchDriver.launch_cmd <$> (ok ++ bad)
      = take (length (ok ++ bad))
             (imap (GridSearchDriver.cmd float_str) GridSearchDriver.all_combos)
    ∧ Forall (λ l, ∃ p, GridSearchDriver.launch_result l = inr p
                        ∧ returncode p = 0%Z) ok
    ∧ match e with
      | None => bad = [] ∧ length ok = 81%nat
      | Some err =>
          ∃ l, bad = [l]
               ∧ match GridSearchDriver.launch_result l with
                 | inl message => err = GridSearchDriver.Propagated message
                 | inr p =>
                     returncode p ≠ 0%Z
                     ∧ err = GridSearchDriver.CalledProcessError
                               (returncode p) (GridSearchDriver.launch_cmd l)
                 end
      end.
Proof.
  unfold GridSearchDriver.main.
  destruct (driver_main_loop_spec (enumerate GridSearchDriver.all_combos) w)
    as (ok & bad & e & w' & Heq & Hcmds & Hres & Hok & He).
  exists ok, bad, e, w'. split; [done |]. split.
  { rewrite Hcmds. f_equal. }
  split; [done |]. destruct e as [err |]; [done |].
  destruct He as [-> He]. split; [done |].
  unfold enumerate in He. rewrite length_imap in He.
  unfold GridSearchDriver.all_combos in He. by rewrite product4_length in He.
Qed.
End Driver_facts.

(** ** play_grid.py *)

Section Search_facts.

Lemma prefix_trunc (p y t : string) :
  (String.length p ≤ String.length y)%nat →
  String.prefix p (y +:+ t) = true → String.prefix p y = true.
Proof.
  revert y. induction p as [| a p IH]; intros y Hlen Hp; [by destruct y |].
  destruct y as [| b y]; cbn in Hlen; [lia |].
  rewrite string_app_cons in Hp. cbn in *.
  destruct (ascii_dec a b); [| done]. apply IH; [lia | done].
Qed.

Lemma re_search_literal_cons (lit : string) (a : ascii) (s : string) :
  re_search_literal lit (String a s)
  = String.prefix lit (String a s) || re_search_literal lit s.
Proof. reflexivity. Qed.

Lemma re_search_group_cons (lit : string) cls (a : ascii) (s : string) :
  re_search_group lit cls (String a s)
  = match re_match_group lit cls (String a s) with
    | Some g => Some g
    | None => re_search_group lit cls s
    end.
Proof. reflexivity. Qed.

Lemma re_match_group_app (lit : string) cls (v rest : string) :
  v ≠ "" → span cls (v +:+ rest) = v →
  re_match_group lit cls (lit +:+ v +:+ rest) = Some v.
Proof.
  intros Hv Hspan. unfold re_match_group.
  rewrite prefix_app, skip_app, Hspan. by destruct v.
Qed.

Lemma re_search_group_app (lit : string) cls (v rest : string) :
  v ≠ "" → span cls (v +:+ rest) = v →
  re_search_group lit cls (lit +:+ v +:+ rest) = Some v.
Proof.
  intros Hv Hspan.
  pose proof (re_match_group_app lit cls v rest Hv Hspan) as Hm.
  destruct (lit +:+ v +:+ rest) as [| a s]; cbn [re_search_group]; by rewrite Hm.
Qed.

(** The leftmost match of [lit([cls]+)] in a text whose first occurrence of
    [lit] is the one shown. *)
Lemma re_search_group_first (lit : string) cls (pre v rest : string) :
  re_search_literal lit (pre +:+ String.substring 0 (String.length lit - 1) lit)
  = false →
  v ≠ "" → span cls (v +:+ rest) = v →
  re_search_group lit cls (pre +:+ lit +:+ v +:+ rest) = Some v.
Proof.
  intros Hpre Hv Hspan. induction pre as [| a pre IH].
  { rewrite string_app_nil_l. by apply re_search_group_app. }
  rewrite string_app_cons in Hpre. rewrite re_search_literal_cons in Hpre.
  apply orb_false_iff in Hpre as [Hhere Hlater].
  rewrite string_app_cons, re_search_group_cons.
  assert (Hm : re_match_group lit cls (String a (pre +:+ lit +:+ v +:+ rest))
               = None).
  { unfold re_match_group.
    destruct (String.prefix lit (String a (pre +:+ lit +:+ v +:+ rest)))
      eqn:Hp; [| done].
    exfalso. rewrite <- not_true_iff_false in Hhere. apply Hhere.
    assert (Hlit : ∃ t, lit = String.substring 0 (String.length lit - 1) lit +:+ t).
    { clear. generalize (String.length lit - 1)%nat as k. intros k.
      revert k. induction lit as [| b lit IH]; intros k; [exists ""; by destruct k |].
      destruct k as [| k]; cbn; [by eexists |].
      destruct (IH k) as [t Ht]. exists t. by rewrite string_app_cons, <- Ht. }
    destruct Hlit as [t Ht].
    apply (prefix_trunc _ _ (t +:+ v +:+ rest)).
    - cbn. rewrite string_app_length.
      assert (Hsub : ∀ k s, (k ≤ String.length s)%nat →
                String.length (String.substring 0 k s) = k).
      { clear. intros k s. revert k.
        induction s as [| b s IH]; intros [| k] Hk; cbn in *; try lia.
        rewrite IH; lia. }
      rewrite Hsub by lia. lia.
    - rewrite string_app_cons, !string_app_assoc.
      rewrite <- (string_app_assoc _ t), <- Ht. exact Hp. }
  rewrite Hm. by apply IH.
Qed.

(** Where a literal that continues the first one occurs, the pattern that
    asks for one more character of the class matches. *)
Lemma re_search_group_of_literal (lit more : string) cls (a : ascii) (s : string) :
  cls a = true →
  re_search_literal (lit +:+ String a more) s = true →
  is_Some (re_search_group lit cls s).
Proof.
  intros Ha. induction s as [| b s IH]; intros Hs.
  - cbn in Hs. rewrite orb_false_r in Hs. by destruct lit.
  - rewrite re_search_literal_cons in Hs. rewrite re_search_group_cons.
    destruct (re_match_group lit cls (String b s)) eqn:Hm; [done |].
    apply orb_true_iff in Hs as [Hs | Hs]; [| by apply IH].
    exfalso. apply prefix_inv in Hs as [r Hr]. rewrite Hr in Hm.
    unfold re_match_group in Hm.
    rewrite string_app_assoc, prefix_app, skip_app in Hm.
    rewrite string_app_cons in Hm. cbn in Hm. by rewrite Ha in Hm.
Qed.

Lemma time_str_first (pre v rest : string) :
  re_search_literal "TIME_TO_GOAL=" (pre +:+ "TIME_TO_GOAL") = false →
  v ≠ "" → span PlayGrid.time_class (v +:+ rest) = v →
  PlayGrid.time_str (pre +:+ "TIME_TO_GOAL=" +:+ v +:+ rest) = v.
Proof.
  intros Hpre Hv Hspan. unfold PlayGrid.time_str.
  by rewrite (re_search_group_first "TIME_TO_GOAL=" _ pre v rest Hpre Hv Hspan).
Qed.
End Search_facts.

(** X17.  The second search of [main], for the text TIME_TO_GOAL=FAIL, never
    decides the result: where that text occurs the first pattern matches,
    since F belongs to its class.  An output without a match of the first
    pattern gives the entry "ERROR: see logs". *)
Theorem play_grid_fail_search_is_dead (stdout : string) :
  PlayGrid.time_str stdout
  = match re_search_group "TIME_TO_GOAL=" PlayGrid.time_class stdout with
    | Some g => g
    | None => "ERROR: see logs"
    end.
Proof.
  unfold PlayGrid.time_str.
  destruct (re_search_group "TIME_TO_GOAL=" PlayGrid.time_class stdout) eqn:Hs;
    [done |].
  destruct (re_search_literal "TIME_TO_GOAL=FAIL" stdout) eqn:Hf; [| done].
  apply (re_search_group_of_literal "TIME_TO_GOAL=" "AIL" PlayGrid.time_class
           "F"%char stdout eq_refl) in Hf.
  rewrite Hs in Hf. by destruct Hf.
Qed.

(** X18.  From an output whose first occurrence of the text TIME_TO_GOAL= is
    followed by the characters [v] of the class and then by the end of the
    output or by a character outside the class (a line end), the entry read
    is [v]: nothing before or after it matters. *)
Theorem play_grid_reads_time (pre v rest : string) :
  re_search_literal "TIME_TO_GOAL=" (pre +:+ "TIME_TO_GOAL") = false →
  v ≠ "" → span PlayGrid.time_class (v +:+ rest) = v →
  PlayGrid.time_str (pre +:+ "TIME_TO_GOAL=" +:+ v +:+ rest) = v.
Proof. apply time_str_first. Qed.

Lemma StronglySorted_filter {A} (R : relation A) (P : A → Prop)
    `{!∀ x, Decision (P x)} (l : list A) :
  StronglySorted R l → StronglySorted R (filter P l).
Proof.
  induction 1 as [| a l Hs IH Ha]; [constructor |].
  rewrite filter_cons. destruct (decide (P a)); [| done].
  constructor; [done |]. apply Forall_forall. intros x Hx.
  apply list_elem_of_filter in Hx as [_ Hx].
  rewrite Forall_forall in Ha. auto.
Qed.

Section Play_grid_facts.
Context {World : Type}.
Context (os_listdir : string → World → option (list string)).
Context (os_path_isfile : string → World → bool).
Context (subprocess_run : list string → World → (string + CompletedProcess) * World).
Context (csv_write : string → list (list string) → World → option World).

Lemma play_grid_main_loop_spec (exp_dirs : list string) (w : World) :
  ∃ rows cmds w',
    PlayGrid.main_loop os_path_isfile subprocess_run exp_dirs w = (rows, cmds, w')
    ∧ Forall (λ row, length row = 2%nat) rows
    ∧ (λ row, hd "" row) <$> rows
      = filter (λ d, startswith d "acrobot_grid" && endswith d "_train") exp_dirs
    ∧ cmds `sublist_of` (PlayGrid.cmd <$> ((λ row, hd "" row) <$> rows)).
Proof.
  revert w. induction exp_dirs as [| d ds IH]; intros w.
  { exists [], [], w. by repeat split. }
  cbn [PlayGrid.main_loop]. rewrite filter_cons.
  destruct (startswith d "acrobot_grid"), (endswith d "_train"); cbn [negb orb andb];
    try (destruct (IH w) as (rows & cmds & w' & Heq & Hlen & Hcol & Hsub);
         exists rows, cmds, w'; rewrite decide_False by (by intros []); done).
  rewrite decide_True by done.
  destruct (os_path_isfile (PlayGrid.model_path d) w).
  - cbn [negb]. destruct (subprocess_run (PlayGrid.cmd d) w) as [r w1].
    destruct (IH w1) as (rows & cmds & w' & Heq & Hlen & Hcol & Hsub).
    rewrite Heq. eexists _, _, w'. split; [done |].
    split; [constructor; [by destruct r | done] |].
    split; [destruct r; cbn; by rewrite Hcol |].
    destruct r; cbn; by apply sublist_skip.
  - cbn [negb]. destruct (IH w) as (rows & cmds & w' & Heq & Hlen & Hcol & Hsub).
    rewrite Heq. eexists _, _, w'. split; [done |].
    split; [by constructor |]. split; [cbn; by rewrite Hcol |].
    cbn. by apply sublist_cons.
Qed.

(** X19.  When the directory can be listed and the file written, [main] ends
    without an exception, whatever the evaluation runs do.  The table is the
    header followed by one row of two entries for every name of the directory
    that starts with "acrobot_grid" and ends with "_train", in ascending
    order of the names; and every command run is the evaluation of one of
    these directories, in the order of the rows. *)
Theorem play_grid_table (w : World) (names : list string) :
  os_listdir PlayGrid.BASE_DIR w = Some names →
  (∀ rows w0, is_Some (csv_write PlayGrid.CSV_PATH rows w0)) →
  ∃ rows cmds w',
    PlayGrid.main os_listdir os_path_isfile subprocess_run csv_write w
    = Some (["Model Directory"; "Time to Goal (s)"] :: rows, cmds, w')
    ∧ Forall (λ row, length row = 2%nat) rows
    ∧ (λ row, hd "" row) <$> rows
      = filter (λ d, startswith d "acrobot_grid" && endswith d "_train")
               (sorted names)
    ∧ StronglySorted String.le ((λ row, hd "" row) <$> rows)
    ∧ (∀ d, d ∈ (λ row, hd "" row) <$> rows
            ↔ d ∈ names ∧ startswith d "acrobot_grid" = true
              ∧ endswith d "_train" = true)
    ∧ cmds `sublist_of` (PlayGrid.cmd <$> ((λ row, hd "" row) <$> rows)).
Proof.
  intros Hls Hcsv. unfold PlayGrid.main. rewrite Hls. cbn [mbind option_bind].
  destruct (play_grid_main_loop_spec (sorted names) w)
    as (rows & cmds & w' & Heq & Hlen & Hcol & Hsub).
  rewrite Heq.
  destruct (Hcsv (["Model Directory"; "Time to Goal (s)"] :: rows) w')
    as [w'' Hw]. rewrite Hw. cbn [mbind option_bind].
  exists rows, cmds, w''. split; [done |]. split; [done |]. split; [done |].
  split; [| split; [| done]].
  - rewrite Hcol. apply StronglySorted_filter.
    unfold sorted. apply (StronglySorted_merge_sort _); apply _.
  - intros d. rewrite Hcol, list_elem_of_filter.
    unfold sorted. rewrite merge_sort_Permutation.
    rewrite andb_True, !Is_true_true. tauto.
Qed.
End Play_grid_facts.

(** ** test.py *)

Section Play_facts.
Context {World : Type}.
Context (format_4f : R → string).
Context (agent_env_step : World → (list (list R) * list bool) * World).

Lemma world_after_shift (n : nat) (w : World) :
  Play.world_after agent_env_step n (agent_env_step w).2
  = Play.world_after agent_env_step (S n) w.
Proof.
  unfold Play.world_after. induction n as [| n IH]; [done |].
  rewrite (Nat.iter_succ (S n)), <- IH. reflexivity.
Qed.

Lemma round_shift (n : nat) (w : World) :
  Play.round agent_env_step n (agent_env_step w).2
  = Play.round agent_env_step (S n) w.
Proof. unfold Play.round. by rewrite world_after_shift. Qed.

Lemma play_loop_spec (c : DoublePendulumEnvCfg) (max_steps : Z) (fuel : nat)
    (s : Z) (w : World) :
  (Z.max 1 (max_steps - s) ≤ Z.of_nat fuel)%Z →
  ∃ (o : Play.Outcome) (n : nat),
    Play.loop agent_env_step c max_steps fuel s w
    = Some (o, Play.world_after agent_env_step (S n) w)
    ∧ (Z.of_nat (S n) ≤ Z.max 1 (max_steps - s))%Z
    ∧ (∀ k, (k < n)%nat →
            existsb (λ d : bool, d) (Play.round agent_env_step k w).2 = false
            ∧ Play.goal_check c (Play.round agent_env_step k w).1 = Some false)
    ∧ match o with
      | Play.Raised =>
          existsb (λ d : bool, d) (Play.round agent_env_step n w).2 = false
          ∧ Play.goal_check c (Play.round agent_env_step n w).1 = None
      | Play.Ended true m =>
          m = (s + Z.of_nat (S n))%Z
          ∧ existsb (λ d : bool, d) (Play.round agent_env_step n w).2 = false
          ∧ Play.goal_check c (Play.round agent_env_step n w).1 = Some true
      | Play.Ended false m =>
          m = (s + Z.of_nat (S n))%Z
          ∧ (existsb (λ d : bool, d) (Play.round agent_env_step n w).2 = true
             ∨ existsb (λ d : bool, d) (Play.round agent_env_step n w).2 = false
               ∧ Play.goal_check c (Play.round agent_env_step n w).1 = Some false
               ∧ (max_steps ≤ s + Z.of_nat (S n))%Z)
      end.
Proof.
  revert s w. induction fuel as [| fuel IH]; intros s w Hfuel; [lia |].
  cbn [Play.loop].
  destruct (agent_env_step w) as [[obs dones] w1] eqn:Hstep.
  assert (Hw1 : w1 = (agent_env_step w).2) by (by rewrite Hstep).
  assert (Hobs : obs = (Play.round agent_env_step 0 w).1)
    by (unfold Play.round, Play.world_after; cbn; by rewrite Hstep).
  assert (Hdones : dones = (Play.round agent_env_step 0 w).2)
    by (unfold Play.round, Play.world_after; cbn; by rewrite Hstep).
  assert (Hw1' : w1 = Play.world_after agent_env_step 1 w)
    by (by rewrite Hw1).
  destruct (existsb (λ d : bool, d) dones) eqn:Hdone.
  { exists (Play.Ended false (s + 1)), 0%nat.
    split; [by rewrite Hw1' |]. split; [lia |]. split; [intros; lia |].
    split; [lia |]. left. by rewrite <- Hdones. }
  destruct (Play.goal_check c obs) as [[|] |] eqn:Hgoal.
  - exists (Play.Ended true (s + 1)), 0%nat.
    split; [by rewrite Hw1' |]. split; [lia |]. split; [intros; lia |].
    split; [lia |]. by rewrite <- Hdones, <- Hobs.
  - destruct (decide (max_steps ≤ s + 1)%Z) as [Hmax | Hmax].
    + exists (Play.Ended false (s + 1)), 0%nat.
      split; [by rewrite Hw1' |]. split; [lia |]. split; [intros; lia |].
      split; [lia |]. right. rewrite <- Hdones, <- Hobs.
      split; [done |]. split; [done | lia].
    + destruct (IH (s + 1)%Z w1 ltac:(lia)) as (o & n & Hloop & Hn & Hearly & Ho).
      exists o, (S n).
      rewrite Hw1 in Hloop, Hearly, Ho.
      rewrite world_after_shift in Hloop. rewrite round_shift in Ho.
      rewrite <- Hw1 in Hloop.
      split; [exact Hloop |]. split; [lia |]. split.
      * intros [| k] Hk.
        -- by rewrite <- Hdones, <- Hobs.
        -- rewrite <- round_shift. apply Hearly. lia.
      * destruct o as [| [|] m]; [done | |].
        -- destruct Ho as [-> Ho]. split; [lia | done].
        -- destruct Ho as [-> Ho]. split; [lia |].
           destruct Ho as [Ho | (Ho1 & Ho2 & Ho3)]; [by left | right].
           split; [done |]. split; [done | lia].
  - exists Play.Raised, 0%nat.
    split; [by rewrite Hw1' |]. split; [lia |]. split; [intros; lia |].
    by rewrite <- Hdones, <- Hobs.
Qed.

(** X20.  The loop of [main] ends: after at least one and at most
    max(1, max_steps) rounds.  With [n + 1] rounds made, every earlier round
    had no finished environment and failed the goal check, and the last
    round decides the result: the goal is reached, with step count [n + 1],
    exactly when that round has no finished environment and passes the goal
    check; a finished environment takes precedence over the goal check. *)
Theorem play_loop_ends (c : DoublePendulumEnvCfg) (max_steps : Z) (fuel : nat)
    (w : World) :
  (Z.max 1 max_steps ≤ Z.of_nat fuel)%Z →
  ∃ (o : Play.Outcome) (n : nat),
    Play.loop agent_env_step c max_steps fuel 0 w
    = Some (o, Play.world_after agent_env_step (S n) w)
    ∧ (Z.of_nat (S n) ≤ Z.max 1 max_steps)%Z
    ∧ (∀ k, (k < n)%nat →
            existsb (λ d : bool, d) (Play.round agent_env_step k w).2 = false
            ∧ Play.goal_check c (Play.round agent_env_step k w).1 = Some false)
    ∧ match o with
      | Play.Raised =>
          existsb (λ d : bool, d) (Play.round agent_env_step n w).2 = false
          ∧ Play.goal_check c (Play.round agent_env_step n w).1 = None
      | Play.Ended true m =>
          m = Z.of_nat (S n)
          ∧ existsb (λ d : bool, d) (Play.round agent_env_step n w).2 = false
          ∧ Play.goal_check c (Play.round agent_env_step n w).1 = Some true
      | Play.Ended false m =>
          m = Z.of_nat (S n)
          ∧ (existsb (λ d : bool, d) (Play.round agent_env_step n w).2 = true
             ∨ existsb (λ d : bool, d) (Play.round agent_env_step n w).2 = false
               ∧ Play.goal_check c (Play.round agent_env_step n w).1 = Some false
               ∧ (max_steps ≤ Z.of_nat (S n))%Z)
      end.
Proof.
  intros Hfuel.
  destruct (play_loop_spec c max_steps fuel 0 w ltac:(lia))
    as (o & n & Hloop & Hn & Hearly & Ho).
  exists o, n. split; [exact Hloop |].
  split; [lia |]. split; [exact Hearly |].
  destruct o as [| [|] m]; [done | |].
  - destruct Ho as [-> Ho]. split; [lia | done].
  - destruct Ho as [-> Ho]. split; [lia |].
    destruct Ho as [Ho | (Ho1 & Ho2 & Ho3)]; [by left | right].
    split; [done |]. split; [done | lia].
Qed.

(** X21.  What test.py prints is what play_grid.py reads: from an output
    whose first occurrence of the text TIME_TO_GOAL= is the line printed at
    the end of the run, the entry of the table is the formatted time when
    the goal was reached and FAIL otherwise.  The format of a float is
    assumed to give a non-empty text of characters of the class of the
    pattern (digits, letters, point, minus sign). *)
Theorem play_report_read_back (dt : R) (goal_reached : bool) (step_count : Z)
    (pre rest : string) :
  (∀ x, format_4f x ≠ ""
        ∧ span PlayGrid.time_class (format_4f x) = format_4f x) →
  re_search_literal "TIME_TO_GOAL=" (pre +:+ "TIME_TO_GOAL") = false →
  PlayGrid.time_str
    (pre +:+ Play.report format_4f dt goal_reached step_count
         +:+ String "010"%char rest)
  = if goal_reached then format_4f (dt * IZR step_count) else "FAIL".
Proof.
  intros Hfmt Hpre.
  assert (Hspan : ∀ v, span PlayGrid.time_class v = v →
            span PlayGrid.time_class (v +:+ String "010"%char rest) = v).
  { clear. intros v. induction v as [| a v IH]; intros Hv; [done |].
    rewrite string_app_cons. cbn in *.
    destruct (PlayGrid.time_class a); [| done].
    injection Hv as Hv. by rewrite IH. }
  unfold Play.report. destruct goal_reached.
  - destruct (Hfmt (dt * IZR step_count)%R) as [Hne Hcls].
    rewrite string_app_assoc. apply time_str_first; auto.
  - change "TIME_TO_GOAL=FAIL" with ("TIME_TO_GOAL=" +:+ "FAIL").
    rewrite string_app_assoc. apply time_str_first; auto.
Qed.
End Play_facts.

Section Goal_check_facts.
Context {Sim : Type} `{!Framework Sim}.
Local Open Scope R_scope.

Lemma sum_list_app (l1 l2 : list R) :
  sum_list (l1 ++ l2) = sum_list l1 + sum_list l2.
Proof. induction l1 as [| x l1 IH]; simpl; [lra |]. rewrite IH. lra. Qed.

Lemma norm_row_le_norm_all (t : list (list R)) (row : list R) :
  row ∈ t → norm_row row <= Play.norm_all t.
Proof.
  intros Hin. unfold norm_row, Play.norm_all. apply sqrt_le_1_alt.
  induction t as [| r t IH]; [by apply elem_of_nil in Hin |].
  cbn [concat]. rewrite map_app, sum_list_app.
  apply elem_of_cons in Hin as [-> | Hin].
  - pose proof (sum_squares_nonneg (concat t)). lra.
  - specialize (IH Hin). pose proof (sum_squares_nonneg r). lra.
Qed.

(** X22.  The goal check of test.py is made on the goal the reward function
    uses (angles normalized) and on the norm of the errors of all
    environments together.  When it passes on the observation of the
    environment, every row meets the stable condition of [_get_rewards];
    with one environment, as play_grid.py runs it, the check is the stable
    condition of that row. *)
Theorem play_goal_check_is_stable_condition (e : Env Sim) (si ei : nat)
    (act : list (list R)) :
  reward_shape e si ei act →
  ∃ (obs : list (list R)) (L : RewardLocals) (b : bool),
    _get_observations e = Some {["pendulum" := obs]}
    ∧ _get_rewards_locals e = Some L
    ∧ Play.goal_state_tensor (cfg e) = rw_goal_tensor L
    ∧ Play.goal_check (cfg e) obs = Some b
    ∧ (b = true → Forall (λ c, c = true) (rw_stable_condition L))
    ∧ (length obs = 1%nat → rw_stable_condition L = [b]).
Proof.
  intros Hshape.
  destruct (get_rewards_locals_shape e si ei act Hshape) as (L & HL & Heq).
  pose proof (get_observations_rows e si ei (rs_obs _ _ _ _ Hshape)) as Hobs.
  set (obs := zip_with (observation_row (cfg e) si ei)
                (joint_pos (robot_data e)) (joint_vel (robot_data e))) in *.
  assert (Hgoal : Play.goal_state_tensor (cfg e) = normalized_goal (cfg e))
    by reflexivity.
  assert (Hrows : Forall (λ row : list R,
                            length row = length (normalized_goal (cfg e))) obs).
  { rewrite normalized_goal_length, (rs_goal _ _ _ _ Hshape).
    apply Forall_forall. intros row Hrow. unfold obs in Hrow.
    apply elem_of_lookup_zip_with in Hrow as (i & p & v & -> & _ & _). done. }
  assert (Hcheck : Play.goal_check (cfg e) obs
                   = Some (R_ltb (Play.norm_all (map (error_row (cfg e)) obs))
                                 (success_threshold (cfg e)))).
  { unfold Play.goal_check. rewrite Hgoal, (sub_rows_total _ _ Hrows). done. }
  eexists obs, L, _. split; [exact Hobs |]. split; [exact HL |].
  split; [by rewrite (re_goal_tensor _ _ _ _ Heq) |].
  split; [exact Hcheck |].
  rewrite (re_stable_condition _ _ _ _ Heq), (re_error_norm _ _ _ _ Heq),
    (re_error _ _ _ _ Heq).
  split.
  - intros Hb. apply R_ltb_true in Hb. rewrite !Forall_fmap.
    apply Forall_forall. intros row Hrow. cbn. apply R_ltb_true.
    pose proof (norm_row_le_norm_all (map (error_row (cfg e)) obs)
                  (error_row (cfg e) row)) as Hle.
    assert (Hin : error_row (cfg e) row ∈ map (error_row (cfg e)) obs)
      by (by apply list_elem_of_fmap_2).
    specialize (Hle Hin). lra.
  - intros Hone. destruct obs as [| row [| ? ?]]; try done.
    cbn. unfold Play.norm_all, norm_row. cbn [concat]. by rewrite app_nil_r.
Qed.
End Goal_check_facts.

(** ** grid_search.py *)

Section Grid_search_facts.
Context {World AgentCfg : Type}.
Context (float_str : R → string).
Context (run_single_training :
  DoublePendulumEnvCfg → AgentCfg → option string → World → option string * World).

Lemma grid_main_loop_spec (runs : list (nat * (R * R * R * R)))
    (env_cfg : DoublePendulumEnvCfg) (agent_cfg : AgentCfg) (name : string)
    (w : World) :
  ∃ ts e n w',
    GridSearch.main_loop float_str run_single_training runs env_cfg agent_cfg
      (Some name) w = (ts, e, n, w')
    ∧ ts = take (length ts)
             ((λ r, {| GridSearch.training_env_cfg :=
                         GridSearch.set_reward_state_weights
                           [r.2.1.1.1; r.2.1.1.2; r.2.1.2; r.2.2] env_cfg;
                       GridSearch.training_agent_cfg := agent_cfg;
                       GridSearch.training_run_name :=
                         Some (name +:+ GridSearch.sub_run_name float_str r.1 r.2) |})
              <$> runs)
    ∧ match e with
      | None => length ts = length runs ∧ n = Some name
      | Some GridSearch.TypeError => False
      | Some (GridSearch.Propagated message) =>
          ∃ t w0, last ts = Some t
                  ∧ n = GridSearch.training_run_name t
                  ∧ (run_single_training (GridSearch.training_env_cfg t)
                       (GridSearch.training_agent_cfg t)
                       (GridSearch.training_run_name t) w0).1 = Some message
      end.
Proof.
  revert w. induction runs as [| [i [[[w1 w2] w3] w4]] runs IH]; intros w.
  { by exists [], None, (Some name), w. }
  cbn [GridSearch.main_loop].
  destruct (run_single_training _ _ _ w) as [[message |] w1'] eqn:Hrun.
  - eexists [_], _, _, w1'. split; [done |]. split; [done |].
    eexists _, w. split; [done |]. split; [done |].
    cbn [GridSearch.training_env_cfg GridSearch.training_agent_cfg
         GridSearch.training_run_name].
    by rewrite Hrun.
  - destruct (IH w1') as (ts & e & n & w' & Heq & Hts & He).
    rewrite Heq. eexists (_ :: ts), e, n, w'. split; [done |].
    split; [cbn; by rewrite <- Hts |].
    destruct e as [[| message] |]; [done | | ].
    + destruct He as (t & w0 & Hlast & Hn & Ht). exists t, w0.
      split; [| done]. destruct ts; [done |]. done.
    + destruct He as [He ->]. split; [cbn; lia | done].
Qed.

(** X23.  The grid-search mode of [main].  Without [--run_name] nothing is
    trained: the first iteration raises a TypeError when it appends the name
    of the run to [None].  With [--run_name name] no TypeError is raised and
    the trainings run are the first ones of the 81 of the grid, in order:
    training [i] gets a copy of the configuration of the caller in which only
    [reward_state_weights] is replaced, by the four weights of combination
    [i], and the run name [name] followed by the name of the combination.
    When all trainings return, there were 81 and [args_cli.run_name] is
    [name] again; when one raises, the loop ends with its exception and
    [args_cli.run_name] keeps the name of that run. *)
Theorem grid_search_trainings (env_cfg : DoublePendulumEnvCfg)
    (agent_cfg : AgentCfg) (run_name : option string) (w : World) :
  ∃ ts e n w',
    GridSearch.main_grid_search float_str run_single_training env_cfg agent_cfg
      run_name w = (ts, e, n, w')
    ∧ match run_name with
      | None => ts = [] ∧ e = Some GridSearch.TypeError ∧ n = None ∧ w' = w
      | Some name =>
          ts = take (length ts)
                 (imap (λ i c,
                    {| GridSearch.training_env_cfg :=
                         GridSearch.set_reward_state_weights
                           [c.1.1.1; c.1.1.2; c.1.2; c.2] env_cfg;
                       GridSearch.training_agent_cfg := agent_cfg;
                       GridSearch.training_run_name :=
                         Some (name +:+ GridSearch.sub_run_name float_str i c) |})
                  GridSearch.all_combos)
          ∧ match e with
            | None => length ts = 81%nat ∧ n = Some name
            | Some GridSearch.TypeError => False
            | Some (GridSearch.Propagated message) =>
                ∃ t w0, last ts = Some t
                        ∧ n = GridSearch.training_run_name t
                        ∧ (run_single_training (GridSearch.training_env_cfg t)
                             (GridSearch.training_agent_cfg t)
                             (GridSearch.training_run_name t) w0).1
                          = Some message
            end
      end.
Proof.
  destruct run_name as [name |]; [| by exists [], (Some GridSearch.TypeError), None, w].
  unfold GridSearch.main_grid_search.
  destruct (grid_main_loop_spec (enumerate GridSearch.all_combos) env_cfg
              agent_cfg name w) as (ts & e & n & w' & Heq & Hts & He).
  exists ts, e, n, w'. split; [done |]. split.
  { rewrite Hts at 1. f_equal. }
  destruct e as [[| message] |]; [done | done |].
  destruct He as [He ->]. split; [| done].
  unfold enumerate in He. rewrite length_imap in He.
  unfold GridSearch.all_combos in He. by rewrite product4_length in He.
Qed.
End Grid_search_facts.

(** ** From training to evaluation *)

Section Log_dir_facts.
Context (float_str : R → string).

Lemma log_dir_driver_name (i : nat) (c : R * R * R * R) :
  GridSearch.log_dir (Some (GridSearchDriver.run_name float_str i c))
  = GridSearchDriver.run_name float_str i c +:+ "_train".
Proof.
  unfold GridSearch.log_dir, GridSearchDriver.run_name.
  destruct c as [[[w1 w2] w3] w4]. by rewrite decide_False.
Qed.

(** X24.  A run name of the driver is the name grid_search.py gives the same
    combination in its grid-search mode when started with
    [--run_name acrobot_], and the log directory [run_single_training] makes
    of it, the name followed by "_train", is not skipped by the loop of
    play_grid.py. *)
Theorem grid_log_dirs_are_evaluated (i : nat) (c : R * R * R * R) :
  GridSearchDriver.run_name float_str i c
  = "acrobot_" +:+ GridSearch.sub_run_name float_str i c
  ∧ GridSearch.log_dir (Some (GridSearchDriver.run_name float_str i c))
    = GridSearchDriver.run_name float_str i c +:+ "_train"
  ∧ negb (startswith (GridSearch.log_dir
                        (Some (GridSearchDriver.run_name float_str i c)))
                     "acrobot_grid")
    || negb (endswith (GridSearch.log_dir
                         (Some (GridSearchDriver.run_name float_str i c)))
                      "_train") = false.
Proof.
  split; [by destruct c as [[[w1 w2] w3] w4] |].
  split; [apply log_dir_driver_name |].
  rewrite !log_dir_driver_name. rewrite endswith_app.
  destruct c as [[[w1 w2] w3] w4]. unfold GridSearchDriver.run_name.
  change "acrobot_grid_" with ("acrobot_grid" +:+ "_").
  by rewrite !string_app_assoc, startswith_app.
Qed.
End Log_dir_facts.

(** ** The properties of the scripts at the example worlds *)

Lemma driver_run_names_distinct_witness :
  0%nat ≠ 1%nat
  ∧ GridSearchDriver.run_name example_float_str 0 (0.1, 0.1, 0.1, 0.1)%R
    ≠ GridSearchDriver.run_name example_float_str 1 (0.1, 0.1, 0.1, 1)%R.
Proof.
  assert (H01 : 0%nat ≠ 1%nat) by lia.
  split; [exact H01 |].
  exact (driver_run_names_distinct example_float_str 0 1 _ _ H01).
Defined.

Lemma example_subprocess_run_succeeds :
  ∀ (cmd : list string) (w0 : unit),
    ∃ p, (example_subprocess_run cmd w0).1 = inr p ∧ returncode p = 0%Z.
Proof. intros cmd w0. by eexists. Qed.

Lemma driver_covers_grid_witness :
  (∀ (cmd : list string) (w0 : unit),
     ∃ p, (example_subprocess_run cmd w0).1 = inr p ∧ returncode p = 0%Z)
  ∧ ∃ ls w',
      GridSearchDriver.main example_float_str example_subprocess_run ()
      = (ls, None, w')
      ∧ length ls = 81%nat
      ∧ ∀ (a b c d : nat) (wa wb wc wd : R),
          GridSearchDriver.WEIGHT_VALUES !! a = Some wa →
          GridSearchDriver.WEIGHT_VALUES !! b = Some wb →
          GridSearchDriver.WEIGHT_VALUES !! c = Some wc →
          GridSearchDriver.WEIGHT_VALUES !! d = Some wd →
          GridSearchDriver.launch_cmd <$> ls !! (27 * a + 9 * b + 3 * c + d)%nat
          = Some (GridSearchDriver.base_cmd
                  ++ ["--run_name";
                      GridSearchDriver.run_name example_float_str
                        (27 * a + 9 * b + 3 * c + d) (wa, wb, wc, wd);
                      "env.reward_state_weights=[" +:+ example_float_str wa
                        +:+ "," +:+ example_float_str wb +:+ ","
                        +:+ example_float_str wc +:+ ","
                        +:+ example_float_str wd +:+ "]"]).
Proof.
  split; [exact example_subprocess_run_succeeds |].
  exact (driver_covers_grid example_float_str example_subprocess_run ()
           example_subprocess_run_succeeds).
Defined.

Lemma play_grid_reads_time_witness :
  re_search_literal "TIME_TO_GOAL="
    (("step 1" +:+ String "010"%char "") +:+ "TIME_TO_GOAL") = false
  ∧ PlayGrid.time_str
      (("step 1" +:+ String "010"%char "") +:+ "TIME_TO_GOAL=" +:+ "1.2500"
         +:+ String "010"%char "done")
    = "1.2500".
Proof.
  assert (Hpre : re_search_literal "TIME_TO_GOAL="
            (("step 1" +:+ String "010"%char "") +:+ "TIME_TO_GOAL") = false)
    by reflexivity.
  assert (Hv : "1.2500" ≠ "") by discriminate.
  assert (Hspan : span PlayGrid.time_class
                    ("1.2500" +:+ String "010"%char "done") = "1.2500")
    by reflexivity.
  split; [exact Hpre |].
  exact (play_grid_reads_time _ "1.2500" _ Hpre Hv Hspan).
Defined.

Lemma example_csv_write_total :
  ∀ (rows : list (list string)) (w0 : unit),
    is_Some (example_csv_write PlayGrid.CSV_PATH rows w0).
Proof. intros rows w0. by eexists. Qed.

Lemma play_grid_table_witness :
  example_listdir PlayGrid.BASE_DIR ()
  = Some ["acrobot_grid_001_0.1-0.1-0.1-1.0_train"; "notes.txt";
          "acrobot_grid_000_0.1-0.1-0.1-0.1_train"]
  ∧ ∃ rows cmds w',
      PlayGrid.main example_listdir example_isfile example_subprocess_run
        example_csv_write ()
      = Some (["Model Directory"; "Time to Goal (s)"] :: rows, cmds, w')
      ∧ Forall (λ row, length row = 2%nat) rows
      ∧ (λ row, hd "" row) <$> rows
        = filter (λ d, startswith d "acrobot_grid" && endswith d "_train")
                 (sorted ["acrobot_grid_001_0.1-0.1-0.1-1.0_train"; "notes.txt";
                          "acrobot_grid_000_0.1-0.1-0.1-0.1_train"])
      ∧ StronglySorted String.le ((λ row, hd "" row) <$> rows)
      ∧ (∀ d, d ∈ (λ row, hd "" row) <$> rows
              ↔ d ∈ ["acrobot_grid_001_0.1-0.1-0.1-1.0_train"; "notes.txt";
                     "acrobot_grid_000_0.1-0.1-0.1-0.1_train"]
                ∧ startswith d "acrobot_grid" = true
                ∧ endswith d "_train" = true)
      ∧ cmds `sublist_of` (PlayGrid.cmd <$> ((λ row, hd "" row) <$> rows)).
Proof.
  split; [reflexivity |].
  exact (play_grid_table example_listdir example_isfile example_subprocess_run
           example_csv_write () _ eq_refl example_csv_write_total).
Defined.

Lemma play_loop_ends_witness :
  (Z.max 1 3 ≤ Z.of_nat 3)%Z
  ∧ ∃ (o : Play.Outcome) (n : nat),
      Play.loop example_agent_env_step default_cfg 3 3 0 0%nat
      = Some (o, Play.world_after example_agent_env_step (S n) 0%nat)
      ∧ (Z.of_nat (S n) ≤ Z.max 1 3)%Z
      ∧ (∀ k, (k < n)%nat →
              existsb (λ d : bool, d)
                (Play.round example_agent_env_step k 0%nat).2 = false
              ∧ Play.goal_check default_cfg
                  (Play.round example_agent_env_step k 0%nat).1 = Some false)
      ∧ match o with
        | Play.Raised =>
            existsb (λ d : bool, d)
              (Play.round example_agent_env_step n 0%nat).2 = false
            ∧ Play.goal_check default_cfg
                (Play.round example_agent_env_step n 0%nat).1 = None
        | Play.Ended true m =>
            m = Z.of_nat (S n)
            ∧ existsb (λ d : bool, d)
                (Play.round example_agent_env_step n 0%nat).2 = false
            ∧ Play.goal_check default_cfg
                (Play.round example_agent_env_step n 0%nat).1 = Some true
        | Play.Ended false m =>
            m = Z.of_nat (S n)
            ∧ (existsb (λ d : bool, d)
                 (Play.round example_agent_env_step n 0%nat).2 = true
               ∨ existsb (λ d : bool, d)
                   (Play.round example_agent_env_step n 0%nat).2 = false
                 ∧ Play.goal_check default_cfg
                     (Play.round example_agent_env_step n 0%nat).1 = Some false
                 ∧ (3 ≤ Z.of_nat (S n))%Z)
        end.
Proof.
  assert (Hfuel : (Z.max 1 3 ≤ Z.of_nat 3)%Z) by lia.
  split; [exact Hfuel |].
  exact (play_loop_ends example_agent_env_step default_cfg 3 3 0%nat Hfuel).
Defined.

Lemma example_format_4f_class :
  ∀ x : R, example_format_4f x ≠ ""
           ∧ span PlayGrid.time_class (example_format_4f x) = example_format_4f x.
Proof. intros x. by split. Qed.

Lemma play_report_read_back_witness :
  (∀ x : R, example_format_4f x ≠ ""
            ∧ span PlayGrid.time_class (example_format_4f x)
              = example_format_4f x)
  ∧ re_search_literal "TIME_TO_GOAL=" ("" +:+ "TIME_TO_GOAL") = false
  ∧ PlayGrid.time_str
      ("" +:+ Play.report example_format_4f (1 / 120) true 3
          +:+ String "010"%char "")
    = example_format_4f (1 / 120 * IZR 3).
Proof.
  assert (Hpre : re_search_literal "TIME_TO_GOAL=" ("" +:+ "TIME_TO_GOAL") = false)
    by reflexivity.
  split; [exact example_format_4f_class |]. split; [exact Hpre |].
  exact (play_report_read_back example_format_4f (1 / 120) true 3 "" ""
           example_format_4f_class Hpre).
Defined.

Lemma play_goal_check_is_stable_condition_witness :
  reward_shape example_env 0 1 [[2]; [0]]%R
  ∧ ∃ (obs : list (list R)) (L : RewardLocals) (b : bool),
      _get_observations example_env = Some {["pendulum" := obs]}
      ∧ _get_rewards_locals example_env = Some L
      ∧ Play.goal_state_tensor (cfg example_env) = rw_goal_tensor L
      ∧ Play.goal_check (cfg example_env) obs = Some b
      ∧ (b = true → Forall (λ c, c = true) (rw_stable_condition L))
      ∧ (length obs = 1%nat → rw_stable_condition L = [b]).
Proof.
  split; [exact example_env_reward_shape |].
  exact (play_goal_check_is_stable_condition example_env 0 1 [[2]; [0]]%R
           example_env_reward_shape).
Defined.

(** ** An action dictionary without the agent *)

Section Missing_action.
Context {Sim : Type} `{!Framework Sim}.

(** X25.  When the dictionary passed to [_pre_physics_step] has no entry for
    "pendulum", the next [_apply_action] raises (a KeyError) for every
    [robot_type], also the ones for which it would apply nothing, and so does
    [_get_rewards]; the observations are not affected. *)
Theorem missing_pendulum_action (e : Env Sim) (a : gmap string (list (list R))) :
  a !! "pendulum" = None →
  _apply_action (_pre_physics_step a e) = None
  ∧ _get_rewards (_pre_physics_step a e) = None
  ∧ _get_observations (_pre_physics_step a e) = _get_observations e.
Proof.
  intros Ha. split; [| split].
  - unfold _apply_action, _pre_physics_step. cbn [actions set_actions].
    by rewrite Ha.
  - unfold _get_rewards, _get_rewards_locals.
    destruct (_get_observations (_pre_physics_step a e)) as [obs |]; [| done].
    cbn [mbind option_bind].
    destruct (obs !! "pendulum") as [state |]; [| done]. cbn [mbind option_bind].
    destruct (sub_rows state _) as [error |]; [| done]. cbn [mbind option_bind].
    destruct (einsum_bi_ij_bj error _ error) as [state_cost |]; [| done].
    cbn [mbind option_bind].
    unfold _pre_physics_step. cbn [actions set_actions]. by rewrite Ha.
  - reflexivity.
Qed.
End Missing_action.

Lemma missing_pendulum_action_witness :
  ({["acrobot" := [[2]; [0]]%R]} : gmap string (list (list R))) !! "pendulum" = None
  ∧ _apply_action (_pre_physics_step {["acrobot" := [[2]; [0]]%R]} example_env)
    = None
  ∧ _get_rewards (_pre_physics_step {["acrobot" := [[2]; [0]]%R]} example_env)
    = None
  ∧ _get_observations
      (_pre_physics_step {["acrobot" := [[2]; [0]]%R]} example_env)
    = _get_observations example_env.
Proof.
  assert (Ha : ({["acrobot" := [[2]; [0]]%R]} : gmap string (list (list R)))
               !! "pendulum" = None) by (by apply lookup_singleton_ne).
  split; [exact Ha |].
  exact (missing_pendulum_action example_env _ Ha).
Defined.
